(** * The Gather executor node (src/backend/executor/nodeGather.c)

    A shallow embedding of the Gather node of the executor, as the file is
    compiled in this repository, that is with [__TBASE__] defined: the
    function [ExecGather] assigns [parallel_send] outside every [#ifdef]
    while the variable is declared under [#ifdef __TBASE__] only, so the
    [#else] branches of the file are never compiled.

    The node runs on one thread; everything it calls outside the file (the
    parallel context, the tuple queues, the outer plan, the latch, the
    clock) is a field of [World], and every such call leaves an [Event]
    in the world's [trace]. *)

From Stdlib Require Import ZArith Lia List Bool.
From stdpp Require Import prelude.

Local Open Scope Z_scope.

(** ** Machine integers *)

(** C [int] (32 bits, two's complement). *)
Definition wrap_int (z : Z) : Z := (z + 2 ^ 31) mod 2 ^ 32 - 2 ^ 31.

(** [int64]: [TimestampTz] and the [%ld] field [get_total_time]. *)
Definition wrap_int64 (z : Z) : Z := (z + 2 ^ 63) mod 2 ^ 64 - 2 ^ 63.

(** [uint64]: the [%lu] field [get_tuples]. *)
Definition wrap_uint64 (z : Z) : Z := z mod 2 ^ 64.

Definition INT_MAX : Z := 2 ^ 31 - 1.

(** ** Data *)

Definition Datum := Z.
Definition HeapTuple := list Datum.
Abbreviation TimestampTz := Z (only parsing).

(** What one worker will deliver through its [shm_mq]: [Some t] is a tuple
    that is there when the leader looks, [None] a look that finds the queue
    empty while the worker is still running; after the last element the
    worker has detached and the queue is drained. *)
Abbreviation TupleQueue := (list (option HeapTuple)) (only parsing).

(** A [TupleQueueReader *]: the reader of [pei->tqueue[i]] is [i]. *)
Abbreviation TupleQueueReader := nat (only parsing).

(** The first argument of [ExecParallelReinitialize]. *)
Inductive PlanRef := GatherNode | OuterPlan.

(** The [Gather] plan node. *)
Record Gather := {
  num_workers : Z;
  single_copy : bool;
  parallelWorker_sendTuple : bool;
  plan_qual : HeapTuple -> bool;
  plan_targetlist : HeapTuple -> HeapTuple
}.

Record ParallelExecutorInfo := {
  pcxt_nworkers : Z;
  pcxt_nworkers_launched : Z
}.

Inductive Event :=
| EvInitParallelPlan (nworkers : Z)
| EvParallelReinitialize (planstate : PlanRef)
| EvLaunchParallelWorkers (launched : Z)
| EvCreateTupleQueueReader (i : nat)
| EvDestroyTupleQueueReader (r : TupleQueueReader)
| EvParallelFinish
| EvParallelCleanup
| EvTupleQueueReaderNext (r : TupleQueueReader) (tup : option HeapTuple) (done : bool)
| EvExecProcNode (slot : option HeapTuple)
| EvExecReScan
| EvWaitLatch
| EvWaitForParallelWorkerDone (n : Z) (launch_failed : bool)
| EvLogStatistic (tuples : Z) (total_time : Z).

(** Everything outside the node. *)
Record World := {
  IsParallelWorker : bool;
  IsInParallelMode : bool;
  enable_statistic : bool;
  (** the outcome of each coming [LaunchParallelWorkers]: the queues of
      the workers that start *)
  launches : list (list TupleQueue);
  (** [pei->tqueue]: the queues of the workers now running *)
  tqueue : list TupleQueue;
  (** the leader's copy of the outer plan: what one scan emits, and what
      is left of the current scan *)
  outer_rows : list HeapTuple;
  outer_rest : list HeapTuple;
  (** the coming readings of [GetCurrentTimestamp] *)
  clock : list TimestampTz;
  trace : list Event
}.

(** [GatherState]; [reader] and [pei] are pointers, [None] is [NULL]. The
    struct is declared in execnodes.h, which is not among the sources: the
    fields are the ones this file uses, [get_tuples] and [get_total_time]
    typed after their [elog] formats. *)
Record GatherState := {
  ps_plan : Gather;
  ps_qual : HeapTuple -> bool;
  ps_ProjInfo : HeapTuple -> HeapTuple;
  initialized : bool;
  need_to_scan_locally : bool;
  funnel_slot : option HeapTuple;
  reader : option (list TupleQueueReader);
  nreaders : Z;
  nextreader : Z;
  nworkers_launched : Z;
  pei : option ParallelExecutorInfo;
  get_tuples : Z;
  get_total_time : Z
}.

(** ** Field updates *)

Definition log (e : Event) (w : World) : World :=
  {| IsParallelWorker := IsParallelWorker w; IsInParallelMode := IsInParallelMode w;
     enable_statistic := enable_statistic w; launches := launches w;
     tqueue := tqueue w; outer_rows := outer_rows w; outer_rest := outer_rest w;
     clock := clock w; trace := trace w ++ [e] |}.

Definition set_queues (ls : list (list TupleQueue)) (qs : list TupleQueue) (w : World) : World :=
  {| IsParallelWorker := IsParallelWorker w; IsInParallelMode := IsInParallelMode w;
     enable_statistic := enable_statistic w; launches := ls;
     tqueue := qs; outer_rows := outer_rows w; outer_rest := outer_rest w;
     clock := clock w; trace := trace w |}.

Definition set_outer_rest (r : list HeapTuple) (w : World) : World :=
  {| IsParallelWorker := IsParallelWorker w; IsInParallelMode := IsInParallelMode w;
     enable_statistic := enable_statistic w; launches := launches w;
     tqueue := tqueue w; outer_rows := outer_rows w; outer_rest := r;
     clock := clock w; trace := trace w |}.

Definition set_clock (c : list TimestampTz) (w : World) : World :=
  {| IsParallelWorker := IsParallelWorker w; IsInParallelMode := IsInParallelMode w;
     enable_statistic := enable_statistic w; launches := launches w;
     tqueue := tqueue w; outer_rows := outer_rows w; outer_rest := outer_rest w;
     clock := c; trace := trace w |}.

Definition set_initialized (b : bool) (s : GatherState) : GatherState :=
  {| ps_plan := ps_plan s; ps_qual := ps_qual s; ps_ProjInfo := ps_ProjInfo s;
     initialized := b; need_to_scan_locally := need_to_scan_locally s;
     funnel_slot := funnel_slot s; reader := reader s; nreaders := nreaders s;
     nextreader := nextreader s; nworkers_launched := nworkers_launched s;
     pei := pei s; get_tuples := get_tuples s; get_total_time := get_total_time s |}.

Definition set_need_to_scan_locally (b : bool) (s : GatherState) : GatherState :=
  {| ps_plan := ps_plan s; ps_qual := ps_qual s; ps_ProjInfo := ps_ProjInfo s;
     initialized := initialized s; need_to_scan_locally := b;
     funnel_slot := funnel_slot s; reader := reader s; nreaders := nreaders s;
     nextreader := nextreader s; nworkers_launched := nworkers_launched s;
     pei := pei s; get_tuples := get_tuples s; get_total_time := get_total_time s |}.

Definition set_funnel_slot (t : option HeapTuple) (s : GatherState) : GatherState :=
  {| ps_plan := ps_plan s; ps_qual := ps_qual s; ps_ProjInfo := ps_ProjInfo s;
     initialized := initialized s; need_to_scan_locally := need_to_scan_locally s;
     funnel_slot := t; reader := reader s; nreaders := nreaders s;
     nextreader := nextreader s; nworkers_launched := nworkers_launched s;
     pei := pei s; get_tuples := get_tuples s; get_total_time := get_total_time s |}.

Definition set_reader (r : option (list TupleQueueReader)) (s : GatherState) : GatherState :=
  {| ps_plan := ps_plan s; ps_qual := ps_qual s; ps_ProjInfo := ps_ProjInfo s;
     initialized := initialized s; need_to_scan_locally := need_to_scan_locally s;
     funnel_slot := funnel_slot s; reader := r; nreaders := nreaders s;
     nextreader := nextreader s; nworkers_launched := nworkers_launched s;
     pei := pei s; get_tuples := get_tuples s; get_total_time := get_total_time s |}.

Definition set_nreaders (n : Z) (s : GatherState) : GatherState :=
  {| ps_plan := ps_plan s; ps_qual := ps_qual s; ps_ProjInfo := ps_ProjInfo s;
     initialized := initialized s; need_to_scan_locally := need_to_scan_locally s;
     funnel_slot := funnel_slot s; reader := reader s; nreaders := n;
     nextreader := nextreader s; nworkers_launched := nworkers_launched s;
     pei := pei s; get_tuples := get_tuples s; get_total_time := get_total_time s |}.

Definition set_nextreader (n : Z) (s : GatherState) : GatherState :=
  {| ps_plan := ps_plan s; ps_qual := ps_qual s; ps_ProjInfo := ps_ProjInfo s;
     initialized := initialized s; need_to_scan_locally := need_to_scan_locally s;
     funnel_slot := funnel_slot s; reader := reader s; nreaders := nreaders s;
     nextreader := n; nworkers_launched := nworkers_launched s;
     pei := pei s; get_tuples := get_tuples s; get_total_time := get_total_time s |}.

Definition set_nworkers_launched (n : Z) (s : GatherState) : GatherState :=
  {| ps_plan := ps_plan s; ps_qual := ps_qual s; ps_ProjInfo := ps_ProjInfo s;
     initialized := initialized s; need_to_scan_locally := need_to_scan_locally s;
     funnel_slot := funnel_slot s; reader := reader s; nreaders := nreaders s;
     nextreader := nextreader s; nworkers_launched := n;
     pei := pei s; get_tuples := get_tuples s; get_total_time := get_total_time s |}.

Definition set_pei (p : option ParallelExecutorInfo) (s : GatherState) : GatherState :=
  {| ps_plan := ps_plan s; ps_qual := ps_qual s; ps_ProjInfo := ps_ProjInfo s;
     initialized := initialized s; need_to_scan_locally := need_to_scan_locally s;
     funnel_slot := funnel_slot s; reader := reader s; nreaders := nreaders s;
     nextreader := nextreader s; nworkers_launched := nworkers_launched s;
     pei := p; get_tuples := get_tuples s; get_total_time := get_total_time s |}.

Definition set_statistic (n t : Z) (s : GatherState) : GatherState :=
  {| ps_plan := ps_plan s; ps_qual := ps_qual s; ps_ProjInfo := ps_ProjInfo s;
     initialized := initialized s; need_to_scan_locally := need_to_scan_locally s;
     funnel_slot := funnel_slot s; reader := reader s; nreaders := nreaders s;
     nextreader := nextreader s; nworkers_launched := nworkers_launched s;
     pei := pei s; get_tuples := n; get_total_time := t |}.

Definition set_ps_qual (q : HeapTuple -> bool) (s : GatherState) : GatherState :=
  {| ps_plan := ps_plan s; ps_qual := q; ps_ProjInfo := ps_ProjInfo s;
     initialized := initialized s; need_to_scan_locally := need_to_scan_locally s;
     funnel_slot := funnel_slot s; reader := reader s; nreaders := nreaders s;
     nextreader := nextreader s; nworkers_launched := nworkers_launched s;
     pei := pei s; get_tuples := get_tuples s; get_total_time := get_total_time s |}.

(** ** Failures *)

(** A failed [Assert], an access outside an array or through [NULL], and
    the end of the fuel of a loop of the embedding. *)
Inductive Failure := AssertionFailed | OutOfBounds | OutOfFuel.

Inductive result (A : Type) : Type :=
| Ok (a : A)
| Fail (e : Failure).
Arguments Ok {A} a.
Arguments Fail {A} e.

#[global] Instance result_bind : MBind result := fun A B k m =>
  match m with
  | Ok a => k a
  | Fail e => Fail e
  end.

(** ** The calls out of the file *)

(** [TupleQueueReaderNext(reader, true, &done)]: the tuple, [done], and the
    world after the look. *)
Definition TupleQueueReaderNext (r : TupleQueueReader) (w : World)
  : option HeapTuple * bool * World :=
  match tqueue w !! r with
  | Some (x :: q) =>
      (x, false,
       log (EvTupleQueueReaderNext r x false)
           (set_queues (launches w) (<[r := q]> (tqueue w)) w))
  | _ => (None, true, log (EvTupleQueueReaderNext r None true) w)
  end.

Definition DestroyTupleQueueReader (r : TupleQueueReader) (w : World) : World :=
  log (EvDestroyTupleQueueReader r) w.

(** [ExecProcNode(outerPlan)] in the leader. *)
Definition ExecProcNode (w : World) : option HeapTuple * World :=
  match outer_rest w with
  | t :: rest => (Some t, log (EvExecProcNode (Some t)) (set_outer_rest rest w))
  | [] => (None, log (EvExecProcNode None) w)
  end.

(** [ExecReScan(node->ps.lefttree)]. *)
Definition ExecReScan (w : World) : World :=
  log EvExecReScan (set_outer_rest (outer_rows w) w).

(** [LaunchParallelWorkers(pcxt)]: at most [pcxt->nworkers] workers start. *)
Definition LaunchParallelWorkers (p : ParallelExecutorInfo) (w : World)
  : ParallelExecutorInfo * World :=
  let qs := take (Z.to_nat (pcxt_nworkers p)) (hd [] (launches w)) in
  let n := Z.of_nat (length qs) in
  ({| pcxt_nworkers := pcxt_nworkers p; pcxt_nworkers_launched := n |},
   log (EvLaunchParallelWorkers n) (set_queues (tl (launches w)) qs w)).

Definition GetCurrentTimestamp (w : World) : TimestampTz * World :=
  (hd 0 (clock w), set_clock (tl (clock w)) w).

(** [WaitLatch(MyLatch, WL_LATCH_SET, 0, ...)] and [ResetLatch(MyLatch)]. *)
Definition WaitLatch (w : World) : World := log EvWaitLatch w.

(** Modelled from the spec: [WaitForParallelWorkerDone] is not among the
    sources; the leader waits for all workers to finish and goes on. *)
Definition WaitForParallelWorkerDone (n : Z) (launch_failed : bool) (w : World) : World :=
  log (EvWaitForParallelWorkerDone n launch_failed) w.

(** ** Helpers of the embedding *)

(** [p == NULL]. *)
Definition is_null {A} (p : option A) : bool :=
  match p with
  | None => true
  | Some _ => false
  end.

(** [memmove(&arr[dst], &arr[src], n * sizeof(arr[0]))]. *)
Definition memmove {A} (arr : list A) (dst src n : Z) : result (list A) :=
  if (0 <=? dst) && (0 <=? src) && (0 <=? n)
     && (src + n <=? Z.of_nat (length arr)) && (dst + n <=? Z.of_nat (length arr))
  then Ok (take (Z.to_nat dst) arr
           ++ take (Z.to_nat n) (drop (Z.to_nat src) arr)
           ++ drop (Z.to_nat (dst + n)) arr)
  else Fail OutOfBounds.

(** The tuples and empty looks still to come on all queues. *)
Fixpoint queue_total (qs : list TupleQueue) : nat :=
  match qs with
  | [] => 0%nat
  | q :: qs => (length q + queue_total qs)%nat
  end.

(** ** ExecInitGather *)

(** [makeNode] zeroes the struct; [Assert(innerPlan(node) == NULL)] holds
    of every [Gather], which has no inner plan here. *)
Definition ExecInitGather (node : Gather) : GatherState :=
  {| ps_plan := node;
     ps_qual := plan_qual node;
     ps_ProjInfo := plan_targetlist node;
     initialized := false;
     need_to_scan_locally := negb (single_copy node);
     funnel_slot := None;
     reader := None;
     nreaders := 0;
     nextreader := 0;
     nworkers_launched := 0;
     pei := None;
     get_tuples := 0;
     get_total_time := -1 |}.

(** ** ExecShutdownGatherWorkers *)

Definition ExecShutdownGatherWorkers (w : World) (s : GatherState)
  : result (World * GatherState) :=
  '(w, s) ← match reader s with
            | Some arr =>
                if nreaders s <=? Z.of_nat (length arr)
                then Ok (foldl (fun w r => DestroyTupleQueueReader r w) w
                               (take (Z.to_nat (nreaders s)) arr),
                         set_reader None s)
                else Fail OutOfBounds
            | None => Ok (w, s)
            end;
  Ok (match pei s with
      | Some _ => log EvParallelFinish w
      | None => w
      end, s).

(** ** gather_readnext *)

(** How one turn of [for (;;)] ends. *)
Inductive Turn :=
| Continue (nvisited : Z)
| Return (tup : option HeapTuple).

(** The body of the loop of [gather_readnext]; [CHECK_FOR_INTERRUPTS()]
    finds nothing pending. *)
Definition gather_readnext_body (w : World) (s : GatherState) (nvisited : Z)
  : result (World * GatherState * Turn) :=
  if negb (nextreader s <? nreaders s) then Fail AssertionFailed else
  match reader s with
  | None => Fail OutOfBounds
  | Some arr =>
    if nextreader s <? 0 then Fail OutOfBounds else
    match arr !! Z.to_nat (nextreader s) with
    | None => Fail OutOfBounds
    | Some rd =>
      let '(tup, readerdone, w) := TupleQueueReaderNext rd w in
      if readerdone then
        if negb (is_null tup) then Fail AssertionFailed else
        let w := DestroyTupleQueueReader rd w in
        let s := set_nreaders (wrap_int (nreaders s - 1)) s in
        if nreaders s =? 0 then
          '(w, s) ← ExecShutdownGatherWorkers w s;
          Ok (w, s, Return None)
        else
          arr ← memmove arr (nextreader s) (nextreader s + 1) (nreaders s - nextreader s);
          let s := set_reader (Some arr) s in
          let s := if nextreader s >=? nreaders s then set_nextreader 0 s else s in
          Ok (w, s, Continue nvisited)
      else
        match tup with
        | Some t => Ok (w, s, Return (Some t))
        | None =>
          let s := set_nextreader (wrap_int (nextreader s + 1)) s in
          let s := if nextreader s >=? nreaders s then set_nextreader 0 s else s in
          let nvisited := wrap_int (nvisited + 1) in
          if nvisited >=? nreaders s then
            if need_to_scan_locally s then Ok (w, s, Return None)
            else Ok (WaitLatch w, s, Continue 0)
          else Ok (w, s, Continue nvisited)
        end
    end
  end.

Fixpoint gather_readnext_loop (fuel : nat) (w : World) (s : GatherState) (nvisited : Z)
  : result (option HeapTuple * World * GatherState) :=
  match fuel with
  | O => Fail OutOfFuel
  | S fuel =>
      '(w, s, turn) ← gather_readnext_body w s nvisited;
      match turn with
      | Return tup => Ok (tup, w, s)
      | Continue nvisited => gather_readnext_loop fuel w s nvisited
      end
  end.

(** Every turn that goes on takes an element off a queue or a reader off
    the array, so this many turns are enough. *)
Definition gather_readnext_fuel (w : World) (s : GatherState) : nat :=
  S (queue_total (tqueue w) + Z.to_nat (nreaders s)).

Definition gather_readnext (w : World) (s : GatherState)
  : result (option HeapTuple * World * GatherState) :=
  gather_readnext_loop (gather_readnext_fuel w s) w s 0.

(** ** gather_getnext *)

Fixpoint gather_getnext_loop (fuel : nat) (w : World) (s : GatherState)
  : result (option HeapTuple * World * GatherState) :=
  if negb (is_null (reader s)) || need_to_scan_locally s then
    match fuel with
    | O => Fail OutOfFuel
    | S fuel =>
        '(tup, w, s) ← (if negb (is_null (reader s)) then gather_readnext w s
                         else Ok (None, w, s));
        match tup with
        | Some t => Ok (Some t, w, set_funnel_slot (Some t) s)
        | None =>
            if need_to_scan_locally s then
              let '(outerTupleSlot, w) := ExecProcNode w in
              match outerTupleSlot with
              | Some t => Ok (Some t, w, s)
              | None => gather_getnext_loop fuel w (set_need_to_scan_locally false s)
              end
            else gather_getnext_loop fuel w s
        end
    end
  else Ok (None, w, set_funnel_slot None s).

(** A turn of the [while] that does not return drops the readers or clears
    [need_to_scan_locally]: two turns are enough. *)
Definition gather_getnext (w : World) (s : GatherState)
  : result (option HeapTuple * World * GatherState) :=
  gather_getnext_loop 2 w s.

(** ** ExecGather *)

(** The [for] loop that creates one reader per launched worker. *)
Definition create_readers (launched : Z) (w : World) : list TupleQueueReader * World :=
  let rs := seq 0 (Z.to_nat launched) in
  (rs, foldl (fun w i => log (EvCreateTupleQueueReader i) w) w rs).

(** The first part of [ExecGather], up to [node->initialized = true]; it
    gives the locals [parallel_send] and [launchedWorkers] too. *)
Definition ExecGather_initialize (w : World) (s : GatherState)
  : result (World * GatherState * bool * Z) :=
  if IsParallelWorker w then
    if negb (initialized s) then
      let s := set_reader None s in
      let s := set_need_to_scan_locally (is_null (reader s)) s in
      Ok (w, set_initialized true s, false, 0)
    else Ok (w, s, false, 0)
  else if negb (initialized s) then
    let gather := ps_plan s in
    let parallel_send := parallelWorker_sendTuple gather in
    '(w, s, launchedWorkers) ←
      (if (0 <? num_workers gather) && IsInParallelMode w then
         let '(p, w) :=
           match pei s with
           | None => ({| pcxt_nworkers := num_workers gather;
                         pcxt_nworkers_launched := 0 |},
                      log (EvInitParallelPlan (num_workers gather)) w)
           | Some p => (p, log (EvParallelReinitialize OuterPlan) w)
           end in
         let '(p, w) := LaunchParallelWorkers p w in
         let s := set_nworkers_launched (pcxt_nworkers_launched p) (set_pei (Some p) s) in
         if 0 <? pcxt_nworkers_launched p then
           if negb parallel_send then
             let '(rs, w) := create_readers (pcxt_nworkers_launched p) w in
             Ok (w, set_reader (Some rs)
                      (set_nextreader 0 (set_nreaders (Z.of_nat (length rs)) s)),
                 pcxt_nworkers_launched p)
           else
             Ok (w, set_reader None (set_nextreader 0 (set_nreaders 0 s)),
                 pcxt_nworkers_launched p)
         else
           '(w, s) ← ExecShutdownGatherWorkers w s;
           Ok (w, s, 0)
       else Ok (w, s, 0));
    let s := if parallel_send then set_need_to_scan_locally false s
             else set_need_to_scan_locally (is_null (reader s)) s in
    Ok (w, set_initialized true s, parallel_send, launchedWorkers)
  else Ok (w, s, false, 0).

Definition ExecGather (w : World) (s : GatherState)
  : result (option HeapTuple * World * GatherState) :=
  match ExecGather_initialize w s with
  | Fail e => Fail e
  | Ok (w, s, parallel_send, launchedWorkers) =>
    let s := set_funnel_slot None s in
    if parallel_send then
      Ok (None, WaitForParallelWorkerDone launchedWorkers (launchedWorkers =? 0) w, s)
    else
      let '(begin_, w) :=
        if enable_statistic w && negb (need_to_scan_locally s)
        then GetCurrentTimestamp w else (0, w) in
      '(slot, w, s) ← gather_getnext w s;
      match slot with
      | None =>
          Ok (None,
              if enable_statistic w && negb (need_to_scan_locally s)
              then log (EvLogStatistic (get_tuples s) (get_total_time s)) w
              else w,
              s)
      | Some t =>
          let '(w, s) :=
            if enable_statistic w && negb (need_to_scan_locally s) then
              let '(end_, w) := GetCurrentTimestamp w in
              if get_total_time s =? -1
              then (w, set_statistic (wrap_uint64 (get_tuples s + 1)) 0 s)
              else (w, set_statistic (wrap_uint64 (get_tuples s + 1))
                         (wrap_int64 (get_total_time s + wrap_int64 (end_ - begin_))) s)
            else (w, s) in
          Ok (Some (ps_ProjInfo s t), w, s)
      end
  end.

(** ** ExecShutdownGather and ExecReScanGather *)

Definition ExecShutdownGather (w : World) (s : GatherState) : result (World * GatherState) :=
  '(w, s) ← ExecShutdownGatherWorkers w s;
  match pei s with
  | Some _ => Ok (log EvParallelCleanup w, set_pei None s)
  | None => Ok (w, s)
  end.

Definition ExecReScanGather (w : World) (s : GatherState) : result (World * GatherState) :=
  '(w, s) ← ExecShutdownGatherWorkers w s;
  let s := set_initialized false s in
  let w := match pei s with
           | Some _ => log (EvParallelReinitialize GatherNode) w
           | None => w
           end in
  Ok (ExecReScan w, s).

(** ** ExecFinishGather *)

(** [do { slot = ExecGather(pstate); } while (!TupIsNull(slot));] *)
Fixpoint ExecFinishGather_loop (fuel : nat) (w : World) (s : GatherState)
  : result (World * GatherState) :=
  match fuel with
  | O => Fail OutOfFuel
  | S fuel =>
      '(slot, w, s) ← ExecGather w s;
      match slot with
      | None => Ok (w, s)
      | Some _ => ExecFinishGather_loop fuel w s
      end
  end.

(** A call that returns a tuple takes it off a queue, off a queue of the
    coming launch, or off the outer plan: so many turns and one are
    enough. *)
Definition ExecFinishGather_fuel (w : World) : nat :=
  S (queue_total (tqueue w) + queue_total (hd [] (launches w)) + length (outer_rest w)).

(** [ExecFinishGather]: [node->pei] is dereferenced without a test; the
    flag [*node->pei->executor_done], which only the workers read, is given
    back with the world and the node; the [elog]s under [g_DataPumpDebug]
    are left out. *)
Definition ExecFinishGather (w : World) (s : GatherState)
  : result (bool * World * GatherState) :=
  match pei s with
  | None => Fail OutOfBounds
  | Some _ =>
      let executor_done := true in
      '(w, s) ← ExecFinishGather_loop (ExecFinishGather_fuel w) w s;
      Ok (executor_done, w, s)
  end.

(** ** Driving the node *)

(** [n] calls of [ExecGather] in a row: what they return, oldest first. *)
Fixpoint ExecGather_n (n : nat) (w : World) (s : GatherState)
  : result (list (option HeapTuple) * World * GatherState) :=
  match n with
  | O => Ok ([], w, s)
  | S n =>
      '(slot, w, s) ← ExecGather w s;
      '(slots, w, s) ← ExecGather_n n w s;
      Ok (slot :: slots, w, s)
  end.

(** The calls the executor makes on the node after [ExecInitGather], and a
    sequence of them; the slots are those [ExecGather] returned. *)
Inductive Call := CallExecGather | CallExecReScanGather | CallExecShutdownGather.

Definition ExecCall (c : Call) (w : World) (s : GatherState)
  : result (list (option HeapTuple) * World * GatherState) :=
  match c with
  | CallExecGather => '(slot, w, s) ← ExecGather w s; Ok ([slot], w, s)
  | CallExecReScanGather => '(w, s) ← ExecReScanGather w s; Ok ([], w, s)
  | CallExecShutdownGather => '(w, s) ← ExecShutdownGather w s; Ok ([], w, s)
  end.

Fixpoint ExecCalls (cs : list Call) (w : World) (s : GatherState)
  : result (list (option HeapTuple) * World * GatherState) :=
  match cs with
  | [] => Ok ([], w, s)
  | c :: cs =>
      '(slots, w, s) ← ExecCall c w s;
      '(slots', w, s) ← ExecCalls cs w s;
      Ok (slots ++ slots', w, s)
  end.

(** * What the properties are stated with *)

(** The live part of the array: [reader[0 .. nreaders - 1]]. *)
Definition survivors (s : GatherState) : list TupleQueueReader :=
  match reader s with
  | Some arr => take (Z.to_nat (nreaders s)) arr
  | None => []
  end.

(** What [Assert(nextreader < nreaders)] needs, and that the array and its
    indices are those of a C program. *)
Definition reader_inv (s : GatherState) : Prop :=
  forall arr, reader s = Some arr ->
    0 <= nextreader s < nreaders s /\
    nreaders s <= Z.of_nat (length arr) /\
    Z.of_nat (length arr) <= INT_MAX.

(** The world after [ExecShutdownGatherWorkers]. *)
Definition shutdown_world (w : World) (s : GatherState) : World :=
  let w := foldl (fun w r => DestroyTupleQueueReader r w) w (survivors s) in
  match pei s with
  | Some _ => log EvParallelFinish w
  | None => w
  end.

(** The array after the done reader at [c] is taken out of the [n] live
    ones. *)
Definition remove_reader (arr : list TupleQueueReader) (c n : Z) : list TupleQueueReader :=
  take (Z.to_nat c) arr
  ++ take (Z.to_nat (n - 1 - c)) (drop (Z.to_nat (c + 1)) arr)
  ++ drop (Z.to_nat (n - 1)) arr.

(** The cursor after [nextreader++] and the wrap, and after a reader is
    taken out. *)
Definition advance (s : GatherState) : GatherState :=
  if nextreader s + 1 >=? nreaders s then set_nextreader 0 s
  else set_nextreader (nextreader s + 1) s.

Definition after_done (arr : list TupleQueueReader) (s : GatherState) : GatherState :=
  let s' := set_reader (Some (remove_reader arr (nextreader s) (nreaders s)))
                       (set_nreaders (nreaders s - 1) s) in
  if nextreader s >=? nreaders s - 1 then set_nextreader 0 s' else s'.

(** What a turn does, by the look the reader under the cursor gives. *)
Inductive turn (w : World) (s : GatherState) (nvisited : Z)
  : World -> GatherState -> Turn -> Prop :=
| turn_tuple arr rd t w1 :
    reader s = Some arr -> arr !! Z.to_nat (nextreader s) = Some rd ->
    TupleQueueReaderNext rd w = (Some t, false, w1) ->
    turn w s nvisited w1 s (Return (Some t))
| turn_done_last arr rd w1 :
    reader s = Some arr -> arr !! Z.to_nat (nextreader s) = Some rd ->
    TupleQueueReaderNext rd w = (None, true, w1) ->
    nreaders s = 1 ->
    turn w s nvisited
         (shutdown_world (DestroyTupleQueueReader rd w1) (set_nreaders 0 s))
         (set_reader None (set_nreaders 0 s)) (Return None)
| turn_done_more arr rd w1 :
    reader s = Some arr -> arr !! Z.to_nat (nextreader s) = Some rd ->
    TupleQueueReaderNext rd w = (None, true, w1) ->
    1 < nreaders s ->
    turn w s nvisited (DestroyTupleQueueReader rd w1) (after_done arr s)
         (Continue nvisited)
| turn_empty_more arr rd w1 :
    reader s = Some arr -> arr !! Z.to_nat (nextreader s) = Some rd ->
    TupleQueueReaderNext rd w = (None, false, w1) ->
    nvisited + 1 < nreaders s ->
    turn w s nvisited w1 (advance s) (Continue (nvisited + 1))
| turn_empty_yield arr rd w1 :
    reader s = Some arr -> arr !! Z.to_nat (nextreader s) = Some rd ->
    TupleQueueReaderNext rd w = (None, false, w1) ->
    nreaders s <= nvisited + 1 ->
    need_to_scan_locally s = true ->
    turn w s nvisited w1 (advance s) (Return None)
| turn_empty_wait arr rd w1 :
    reader s = Some arr -> arr !! Z.to_nat (nextreader s) = Some rd ->
    TupleQueueReaderNext rd w = (None, false, w1) ->
    nreaders s <= nvisited + 1 ->
    need_to_scan_locally s = false ->
    turn w s nvisited (WaitLatch w1) (advance s) (Continue 0).

(** The six ways of a turn, with the names the proofs below use. *)
Ltac turn_cases T :=
  destruct T as [arr rd t w1 Ha Hrd Hread
                |arr rd w1 Ha Hrd Hread Hn
                |arr rd w1 Ha Hrd Hread Hn
                |arr rd w1 Ha Hrd Hread Hn
                |arr rd w1 Ha Hrd Hread Hn Hneed
                |arr rd w1 Ha Hrd Hread Hn Hneed].

Ltac turn_continue T nv' :=
  let k := fresh "k" in
  let Ek := fresh "Ek" in
  remember (Continue nv') as k eqn:Ek;
  turn_cases T; try discriminate Ek; injection Ek as Ek;
  try discriminate Ek; subst.

(** The world apart from the queues and the trace, and the node apart
    from the reader array and its two indices. *)
Definition world_rest (w : World) :=
  (IsParallelWorker w, IsInParallelMode w, enable_statistic w,
   launches w, outer_rows w, outer_rest w, clock w).

Definition state_rest (s : GatherState) :=
  (ps_plan s, ps_qual s, ps_ProjInfo s, initialized s, need_to_scan_locally s,
   funnel_slot s, nworkers_launched s, pei s, get_tuples s, get_total_time s).

(** The events of polling the queues. *)
Definition poll_event (e : Event) : Prop :=
  match e with
  | EvTupleQueueReaderNext _ _ _ | EvDestroyTupleQueueReader _
  | EvParallelFinish | EvWaitLatch => True
  | _ => False
  end.

Definition readnext_frame (w : World) (s : GatherState) (w' : World) (s' : GatherState) : Prop :=
  world_rest w' = world_rest w /\ state_rest s' = state_rest s /\
  exists evs, trace w' = trace w ++ evs /\ Forall poll_event evs.

(** What holds of the node after [ExecInitGather] and after every call:
    the reader array is in order; with readers the leader does not scan and
    the node is initialized; the worker counts are C [int]s. *)
Definition gather_inv (s : GatherState) : Prop :=
  reader_inv s /\
  (reader s <> None -> need_to_scan_locally s = false /\ initialized s = true) /\
  num_workers (ps_plan s) <= INT_MAX /\
  (forall p, pei s = Some p -> pcxt_nworkers p = num_workers (ps_plan s)).

(** The events of the first part of [ExecGather]. *)
Definition init_event (e : Event) : Prop :=
  match e with
  | EvInitParallelPlan _ | EvParallelReinitialize OuterPlan
  | EvLaunchParallelWorkers _ | EvCreateTupleQueueReader _
  | EvParallelFinish => True
  | _ => False
  end.

(** The leader tries to launch workers. *)
Definition launch_attempted (w : World) (s : GatherState) : Prop :=
  IsParallelWorker w = false /\ 0 < num_workers (ps_plan s) /\ IsInParallelMode w = true.

(** The queues of the workers the next [LaunchParallelWorkers] starts, and
    their number. *)
Definition launch_queues (w : World) (s : GatherState) : list TupleQueue :=
  take (Z.to_nat (num_workers (ps_plan s))) (hd [] (launches w)).

Definition launched_by (w : World) (s : GatherState) : Z :=
  Z.of_nat (length (launch_queues w s)).

(** The node and the world after the first part of [ExecGather] where
    workers are launched. *)
Definition launched_state (s : GatherState) (k : Z) : GatherState :=
  let parallel_send := parallelWorker_sendTuple (ps_plan s) in
  let s1 := set_nworkers_launched k
              (set_pei (Some {| pcxt_nworkers := num_workers (ps_plan s);
                                pcxt_nworkers_launched := k |}) s) in
  let s2 :=
    if 0 <? k then
      if parallel_send then set_reader None (set_nextreader 0 (set_nreaders 0 s1))
      else set_reader (Some (seq 0 (Z.to_nat k))) (set_nextreader 0 (set_nreaders k s1))
    else s1 in
  set_initialized true
    (set_need_to_scan_locally (negb parallel_send && is_null (reader s2)) s2).

Definition launched_world (w : World) (s : GatherState) : World :=
  let k := launched_by w s in
  let w0 := log (match pei s with
                 | None => EvInitParallelPlan (num_workers (ps_plan s))
                 | Some _ => EvParallelReinitialize OuterPlan
                 end) w in
  let w1 := log (EvLaunchParallelWorkers k)
                (set_queues (tl (launches w)) (launch_queues w s) w0) in
  if 0 <? k then
    if parallelWorker_sendTuple (ps_plan s) then w1 else (create_readers k w1).2
  else log EvParallelFinish w1.

(** The three states of an initialized node. *)
Definition scan_over (s : GatherState) : Prop :=
  initialized s = true /\ reader s = None /\ need_to_scan_locally s = false.

Definition scan_local (s : GatherState) : Prop :=
  initialized s = true /\ reader s = None /\ need_to_scan_locally s = true.

Definition scan_workers (s : GatherState) : Prop :=
  initialized s = true /\ reader s <> None /\ need_to_scan_locally s = false /\
  reader_inv s.

(** The world after a call on a node whose scan is over. *)
Definition over_world (w : World) (s : GatherState) : World :=
  if enable_statistic w
  then log (EvLogStatistic (get_tuples s) (get_total_time s)) (set_clock (tl (clock w)) w)
  else w.

(** The statistics after one more tuple read between [begin_] and [end_]. *)
Definition count_tuple (begin_ end_ : TimestampTz) (s : GatherState) : GatherState :=
  if get_total_time s =? -1
  then set_statistic (wrap_uint64 (get_tuples s + 1)) 0 s
  else set_statistic (wrap_uint64 (get_tuples s + 1))
         (wrap_int64 (get_total_time s + wrap_int64 (end_ - begin_))) s.

(** What one call of [ExecGather] on an initialized node does, by the
    state of the node. *)
Inductive call (w : World) (s : GatherState)
  : option HeapTuple -> World -> GatherState -> Prop :=
| call_over :
    scan_over s ->
    call w s None (over_world w s) (set_funnel_slot None s)
| call_local_tuple t rest :
    scan_local s -> outer_rest w = t :: rest ->
    call w s (Some (ps_ProjInfo s t))
         (log (EvExecProcNode (Some t)) (set_outer_rest rest w))
         (set_funnel_slot None s)
| call_local_end :
    scan_local s -> outer_rest w = [] ->
    call w s None
         ((if enable_statistic w
           then log (EvLogStatistic (get_tuples s) (get_total_time s))
           else id) (log (EvExecProcNode None) w))
         (set_funnel_slot None (set_need_to_scan_locally false s))
| call_workers_tuple t w1 s1 :
    scan_workers s ->
    gather_readnext (if enable_statistic w then set_clock (tl (clock w)) w else w)
                    (set_funnel_slot None s) = Ok (Some t, w1, s1) ->
    call w s (Some (ps_ProjInfo s t))
         (if enable_statistic w then set_clock (tl (clock w1)) w1 else w1)
         (if enable_statistic w
          then count_tuple (hd 0 (clock w)) (hd 0 (clock w1))
                           (set_funnel_slot (Some t) s1)
          else set_funnel_slot (Some t) s1)
| call_workers_end w1 s1 :
    scan_workers s ->
    gather_readnext (if enable_statistic w then set_clock (tl (clock w)) w else w)
                    (set_funnel_slot None s) = Ok (None, w1, s1) ->
    call w s None
         (if enable_statistic w
          then log (EvLogStatistic (get_tuples s1) (get_total_time s1)) w1
          else w1)
         (set_funnel_slot None s1).

(** The fields [gather_inv] reads. *)
Definition inv_fields (s : GatherState) :=
  (reader s, nreaders s, nextreader s, need_to_scan_locally s, initialized s,
   ps_plan s, pei s).

(** The part of the world no call changes, and the part of the node no
    call on an initialized node changes. *)
Definition world_setting (w : World) :=
  (IsParallelWorker w, IsInParallelMode w, enable_statistic w, outer_rows w).

Definition state_setting (s : GatherState) :=
  (ps_plan s, ps_qual s, ps_ProjInfo s, nworkers_launched s, pei s).

(** The fields no part of [ExecGather] before [gather_getnext] changes. *)
Definition state_fixed (s : GatherState) :=
  (ps_plan s, ps_qual s, ps_ProjInfo s, get_tuples s, get_total_time s).

(** A plan for two workers whose projection is the identity. *)
Definition example_plan (single parallel_send : bool) : Gather :=
  {| num_workers := 2;
     single_copy := single;
     parallelWorker_sendTuple := parallel_send;
     plan_qual := fun _ => true;
     plan_targetlist := fun t => t |}.

(** The leader in parallel mode, before the first call. *)
Definition example_world (launch : list (list TupleQueue)) (rows : list HeapTuple)
    (statistic : bool) (ticks : list TimestampTz) : World :=
  {| IsParallelWorker := false;
     IsInParallelMode := true;
     enable_statistic := statistic;
     launches := launch;
     tqueue := [];
     outer_rows := rows;
     outer_rest := rows;
     clock := ticks;
     trace := [] |}.

(** The live readers in the order the cursor meets them. *)
Definition cursor_order (s : GatherState) : list TupleQueueReader :=
  drop (Z.to_nat (nextreader s)) (survivors s)
  ++ take (Z.to_nat (nextreader s)) (survivors s).

(** A monitor reading a trace: the readers created and not destroyed, the
    readers polled since the last wait, and whether at every wait so far
    all the former were among the latter. *)
Record Monitor := {
  alive : list TupleQueueReader;
  polled : list TupleQueueReader;
  fair : bool
}.

Definition monitor_step (m : Monitor) (e : Event) : Monitor :=
  match e with
  | EvCreateTupleQueueReader i =>
      {| alive := i :: alive m; polled := polled m; fair := fair m |}
  | EvDestroyTupleQueueReader r =>
      {| alive := filter (fun x => x <> r) (alive m); polled := polled m; fair := fair m |}
  | EvTupleQueueReaderNext r _ _ =>
      {| alive := alive m; polled := r :: polled m; fair := fair m |}
  | EvWaitLatch =>
      {| alive := alive m; polled := [];
         fair := fair m && forallb (fun r => bool_decide (r ∈ polled m)) (alive m) |}
  | _ => m
  end.

Definition monitor (m : Monitor) (evs : list Event) : Monitor :=
  foldl monitor_step m evs.

(** The monitor agrees with the node: its live readers are in the array,
    and the last [nvisited] readers the cursor passed were polled. *)
Definition mon_inv (m : Monitor) (s : GatherState) (nvisited : Z) : Prop :=
  fair m = true /\
  (forall r, r ∈ alive m -> r ∈ survivors s) /\
  (forall r, r ∈ take (Z.to_nat nvisited) (reverse (cursor_order s)) -> r ∈ polled m).

(** A tuple read from a queue or pulled from the outer plan. *)
Definition obtained (t : HeapTuple) (evs : list Event) : Prop :=
  (exists rd d, EvTupleQueueReaderNext rd (Some t) d ∈ evs) \/
  EvExecProcNode (Some t) ∈ evs.

(** The result of a function with the node's qual replaced. *)
Definition with_qual {A} (q : HeapTuple -> bool) (r : result (A * GatherState))
  : result (A * GatherState) :=
  match r with
  | Ok (a, s) => Ok (a, set_ps_qual q s)
  | Fail e => Fail e
  end.

Definition launch_events (w : World) (s : GatherState) : list Event :=
  [match pei s with
   | None => EvInitParallelPlan (num_workers (ps_plan s))
   | Some _ => EvParallelReinitialize OuterPlan
   end;
   EvLaunchParallelWorkers (launched_by w s)]
  ++ (if 0 <? launched_by w s then
        if parallelWorker_sendTuple (ps_plan s) then []
        else map EvCreateTupleQueueReader (seq 0 (Z.to_nat (launched_by w s)))
      else [EvParallelFinish]).

(** The read latencies of [n] calls that each read the clock before and
    after [gather_getnext]: the differences of the readings, two by two. *)
Fixpoint latencies (n : nat) (ticks : list TimestampTz) : list Z :=
  match n with
  | O => []
  | S n => (hd 0 (tl ticks) - hd 0 ticks) :: latencies n (tl (tl ticks))
  end.

Definition total (l : list Z) : Z := foldr Z.add 0 l.

(** [get_total_time] after tuples of these latencies. *)
Definition accumulated (t : Z) (lat : list Z) : Z :=
  match lat with
  | [] => t
  | l :: rest => (if t =? -1 then 0 else t + l) + total rest
  end.

(** A clock that starts at [lo] or later, does not run backwards, and
    stays within [int64]. *)
Fixpoint clock_from (lo : Z) (ticks : list TimestampTz) : Prop :=
  match ticks with
  | [] => True
  | t :: ticks => lo <= t < 2 ^ 63 /\ clock_from t ticks
  end.

(** The node and the world after the first part of [ExecGather] launched
    one worker per queue of [queues]. *)
Definition example_started_world (queues : list TupleQueue) : World :=
  launched_world (example_world [queues] [] false [])
                 (ExecInitGather (example_plan false false)).

Definition example_started_state (queues : list TupleQueue) : GatherState :=
  launched_state (ExecInitGather (example_plan false false))
                 (Z.of_nat (length queues)).

(** The first arguments of the calls of [ExecParallelReinitialize] in a
    trace, in order. *)
Fixpoint reinitializations (evs : list Event) : list PlanRef :=
  match evs with
  | [] => []
  | EvParallelReinitialize p :: evs => p :: reinitializations evs
  | _ :: evs => reinitializations evs
  end.

(** The events of a call on an initialized node. *)
Definition call_event (e : Event) : Prop :=
  match e with
  | EvTupleQueueReaderNext _ _ _ | EvDestroyTupleQueueReader _
  | EvParallelFinish | EvWaitLatch | EvExecProcNode _ | EvLogStatistic _ _ => True
  | _ => False
  end.

(** The tuples a queue, and all the queues, still hold. *)
Fixpoint tuples_of (q : TupleQueue) : list HeapTuple :=
  match q with
  | [] => []
  | Some t :: q => t :: tuples_of q
  | None :: q => tuples_of q
  end.

Fixpoint queue_tuples (qs : list TupleQueue) : list HeapTuple :=
  match qs with
  | [] => []
  | q :: qs => tuples_of q ++ queue_tuples qs
  end.

(** The tuple of a look, as a list. *)
Definition tuple_list (tup : option HeapTuple) : list HeapTuple :=
  match tup with
  | Some t => [t]
  | None => []
  end.

(** Every queue that has no live reader is empty. *)
Definition drained (w : World) (s : GatherState) : Prop :=
  forall (i : nat) q, tqueue w !! i = Some q -> i ∉ survivors s -> q = [].

(** The tuples a scan is to return: in a parallel worker the rows of the
    outer plan; none when the workers send their tuples themselves; those
    of the workers' queues when workers start; else the rows of the outer
    plan. *)
Definition scan_source (w : World) (s : GatherState) : list HeapTuple :=
  if IsParallelWorker w then outer_rest w
  else if parallelWorker_sendTuple (ps_plan s) then []
  else if (0 <? num_workers (ps_plan s)) && IsInParallelMode w && (0 <? launched_by w s)
       then queue_tuples (launch_queues w s)
       else outer_rest w.

(** The tuples a scan has still to return: those of the queues while there
    are readers, the rows left of the outer plan while the leader scans,
    those of the scan to come on a node not yet initialized. *)
Definition remaining (w : World) (s : GatherState) : nat :=
  if initialized s then
    match reader s with
    | Some _ => length (queue_tuples (tqueue w))
    | None => if need_to_scan_locally s then length (outer_rest w) else 0%nat
    end
  else length (scan_source w s).

(** A ledger kept along a trace: the readers created and not destroyed, in
    the order of their creation; whether there is a parallel context
    ([ExecInitParallelPlan] without [ExecParallelCleanup] since); and
    whether every event so far was permitted when it came. *)
Record Ledger := {
  live : list TupleQueueReader;
  context : bool;
  sound : bool
}.

(** A reader is read and destroyed only while it is live, and created on a
    queue that has none; the parallel context is made when there is none,
    and used, launched on, finished and cleaned up only while it is there
    and no reader is live; the leader runs and rescans the outer plan only
    while no reader is live, and waits on the latch only while one is. *)
Definition permitted (l : Ledger) (e : Event) : bool :=
  match e with
  | EvInitParallelPlan _ => negb (context l) && bool_decide (live l = [])
  | EvParallelReinitialize _ | EvLaunchParallelWorkers _
  | EvParallelFinish | EvParallelCleanup => context l && bool_decide (live l = [])
  | EvCreateTupleQueueReader i => context l && bool_decide (i ∉ live l)
  | EvDestroyTupleQueueReader r | EvTupleQueueReaderNext r _ _ => bool_decide (r ∈ live l)
  | EvWaitLatch => negb (bool_decide (live l = []))
  | EvExecProcNode _ | EvExecReScan | EvWaitForParallelWorkerDone _ _ =>
      bool_decide (live l = [])
  | EvLogStatistic _ _ => true
  end.

Definition ledger_step (l : Ledger) (e : Event) : Ledger :=
  {| live := match e with
             | EvCreateTupleQueueReader i => live l ++ [i]
             | EvDestroyTupleQueueReader r => filter (fun x => x <> r) (live l)
             | _ => live l
             end;
     context := match e with
                | EvInitParallelPlan _ => true
                | EvParallelCleanup => false
                | _ => context l
                end;
     sound := sound l && permitted l e |}.

Definition ledger_from (l : Ledger) (evs : list Event) : Ledger :=
  foldl ledger_step l evs.

Definition ledger (evs : list Event) : Ledger :=
  ledger_from {| live := []; context := false; sound := true |} evs.

(** The ledger of the trace agrees with the node: the live readers are
    those of the array, each once, and there is a context when [pei] is
    set. *)
Definition ledger_inv (w : World) (s : GatherState) : Prop :=
  sound (ledger (trace w)) = true /\
  live (ledger (trace w)) = survivors s /\
  NoDup (survivors s) /\
  context (ledger (trace w)) = negb (is_null (pei s)).

(** The events of a call on a node that has no reader. *)
Definition local_event (e : Event) : Prop :=
  match e with
  | EvExecProcNode _ | EvLogStatistic _ _ => True
  | _ => False
  end.

(** The calls on the parallel context. *)
Definition context_event (e : Event) : Prop :=
  match e with
  | EvInitParallelPlan _ | EvParallelReinitialize _ | EvLaunchParallelWorkers _
  | EvParallelFinish | EvParallelCleanup => True
  | _ => False
  end.

(** Along a trace: whether workers were launched since the outer plan was
    last rescanned, and whether no launch so far came after another one
    without a rescan between them. *)
Record LaunchLog := {
  launched : bool;
  once : bool
}.

Definition launch_step (l : LaunchLog) (e : Event) : LaunchLog :=
  match e with
  | EvLaunchParallelWorkers _ =>
      {| launched := true; once := once l && negb (launched l) |}
  | EvExecReScan => {| launched := false; once := once l |}
  | _ => l
  end.

Definition launch_log (evs : list Event) : LaunchLog :=
  foldl launch_step {| launched := false; once := true |} evs.

(** Workers launched since the last rescan: the node is initialized. *)
Definition launch_inv (w : World) (s : GatherState) : Prop :=
  once (launch_log (trace w)) = true /\
  (launched (launch_log (trace w)) = true -> initialized s = true).

(** The events that are neither a launch nor a rescan. *)
Definition quiet_event (e : Event) : Prop :=
  match e with
  | EvLaunchParallelWorkers _ | EvExecReScan => False
  | _ => True
  end.

(** The node with another plan, a plan with another [single_copy], and a
    result with the node changed. *)
Definition set_ps_plan (g : Gather) (s : GatherState) : GatherState :=
  {| ps_plan := g; ps_qual := ps_qual s; ps_ProjInfo := ps_ProjInfo s;
     initialized := initialized s; need_to_scan_locally := need_to_scan_locally s;
     funnel_slot := funnel_slot s; reader := reader s; nreaders := nreaders s;
     nextreader := nextreader s; nworkers_launched := nworkers_launched s;
     pei := pei s; get_tuples := get_tuples s; get_total_time := get_total_time s |}.

Definition with_single_copy (b : bool) (g : Gather) : Gather :=
  {| num_workers := num_workers g; single_copy := b;
     parallelWorker_sendTuple := parallelWorker_sendTuple g;
     plan_qual := plan_qual g; plan_targetlist := plan_targetlist g |}.

Definition with_state {A} (f : GatherState -> GatherState) (r : result (A * GatherState))
  : result (A * GatherState) :=
  match r with
  | Ok (a, s) => Ok (a, f s)
  | Fail e => Fail e
  end.

(** Two nodes that differ in the [single_copy] of their plan at most, and,
    as long as the second is not initialized, in [need_to_scan_locally]. *)
Definition same_but_single_copy (s1 s2 : GatherState) : Prop :=
  exists b need,
    (initialized s1 = true -> need = need_to_scan_locally s1) /\
    s2 = set_ps_plan (with_single_copy b (ps_plan s1)) (set_need_to_scan_locally need s1).

(** * Properties *)

(** ** Machine arithmetic *)

Lemma wrap_int_small z : - 2 ^ 31 <= z <= INT_MAX -> wrap_int z = z.
Proof.
  unfold wrap_int, INT_MAX. intros H.
  rewrite Z.mod_small; lia.
Qed.

Lemma wrap_int64_idem_r a b : wrap_int64 (a + wrap_int64 b) = wrap_int64 (a + b).
Proof.
  unfold wrap_int64. f_equal.
  replace (a + ((b + 2 ^ 63) mod 2 ^ 64 - 2 ^ 63) + 2 ^ 63)
    with (a + (b + 2 ^ 63) mod 2 ^ 64) by lia.
  rewrite Zplus_mod_idemp_r. f_equal. lia.
Qed.

Lemma wrap_int64_idem_l a b : wrap_int64 (wrap_int64 a + b) = wrap_int64 (a + b).
Proof. rewrite (Z.add_comm _ b), wrap_int64_idem_r. f_equal. lia. Qed.

Lemma wrap_uint64_idem a b : wrap_uint64 (wrap_uint64 a + b) = wrap_uint64 (a + b).
Proof. unfold wrap_uint64. apply Zplus_mod_idemp_l. Qed.

(** ** The readers that are left *)

Lemma set_reader_None_id s : reader s = None -> set_reader None s = s.
Proof. destruct s; simpl; intros ->; reflexivity. Qed.

Lemma ExecShutdownGatherWorkers_ok w s :
  (forall arr, reader s = Some arr -> nreaders s <= Z.of_nat (length arr)) ->
  ExecShutdownGatherWorkers w s = Ok (shutdown_world w s, set_reader None s).
Proof.
  intros H. unfold ExecShutdownGatherWorkers, shutdown_world, survivors.
  destruct (reader s) as [arr|] eqn:E.
  - specialize (H arr eq_refl). apply Z.leb_le in H. rewrite H. reflexivity.
  - simpl. rewrite set_reader_None_id by done. reflexivity.
Qed.

(** ** One turn of the loop of gather_readnext *)

(** The three looks a reader can give. *)
Lemma TupleQueueReaderNext_cases r w :
  (exists t q, tqueue w !! r = Some (Some t :: q) /\
     TupleQueueReaderNext r w =
       (Some t, false, log (EvTupleQueueReaderNext r (Some t) false)
                           (set_queues (launches w) (<[r := q]> (tqueue w)) w))) \/
  (exists q, tqueue w !! r = Some (None :: q) /\
     TupleQueueReaderNext r w =
       (None, false, log (EvTupleQueueReaderNext r None false)
                         (set_queues (launches w) (<[r := q]> (tqueue w)) w))) \/
  ((tqueue w !! r = None \/ tqueue w !! r = Some []) /\
     TupleQueueReaderNext r w = (None, true, log (EvTupleQueueReaderNext r None true) w)).
Proof.
  unfold TupleQueueReaderNext.
  destruct (tqueue w !! r) as [[|[t|] q]|] eqn:E; eauto 10.
Qed.

Lemma gather_readnext_body_turn w s nvisited :
  reader_inv s -> reader s <> None -> 0 <= nvisited < INT_MAX ->
  exists w' s' k,
    gather_readnext_body w s nvisited = Ok (w', s', k) /\ turn w s nvisited w' s' k.
Proof.
  intros Hinv Hr Hnv.
  destruct (reader s) as [arr|] eqn:Earr; [clear Hr|done].
  destruct (Hinv arr Earr) as (Hc & Hn & Hlen).
  assert (Hlk : is_Some (arr !! Z.to_nat (nextreader s))).
  { apply lookup_lt_is_Some. lia. }
  destruct Hlk as [rd Hrd].
  unfold gather_readnext_body.
  assert (E1 : (nextreader s <? nreaders s) = true) by (apply Z.ltb_lt; lia).
  assert (E2 : (nextreader s <? 0) = false) by (apply Z.ltb_ge; lia).
  rewrite E1, Earr, E2, Hrd. simpl negb. cbv iota.
  destruct (TupleQueueReaderNext_cases rd w)
    as [(t & q & Hq & Hread)|[(q & Hq & Hread)|(Hq & Hread)]]; rewrite Hread.
  - (* a tuple *)
    do 3 eexists. split; [reflexivity|]. eapply turn_tuple; eauto.
  - (* nothing yet *)
    cbn [is_null negb].
    rewrite !wrap_int_small by (unfold INT_MAX in *; simpl; lia).
    assert (Hadv :
      (if nextreader (set_nextreader (nextreader s + 1) s)
          >=? nreaders (set_nextreader (nextreader s + 1) s)
       then set_nextreader 0 (set_nextreader (nextreader s + 1) s)
       else set_nextreader (nextreader s + 1) s) = advance s).
    { unfold advance. simpl. destruct (nextreader s + 1 >=? nreaders s); reflexivity. }
    rewrite Hadv.
    assert (Hn' : nreaders (advance s) = nreaders s).
    { unfold advance. destruct (_ >=? _); reflexivity. }
    assert (Hneed : need_to_scan_locally (advance s) = need_to_scan_locally s).
    { unfold advance. destruct (_ >=? _); reflexivity. }
    rewrite Hn', Hneed.
    destruct (Z.geb_spec (nvisited + 1) (nreaders s)).
    + destruct (need_to_scan_locally s) eqn:En.
      * do 3 eexists. split; [reflexivity|]. eapply turn_empty_yield; eauto; lia.
      * do 3 eexists. split; [reflexivity|]. eapply turn_empty_wait; eauto; lia.
    + do 3 eexists. split; [reflexivity|]. eapply turn_empty_more; eauto; lia.
  - (* done *)
    cbn [is_null negb].
    rewrite wrap_int_small by (unfold INT_MAX in *; simpl; lia).
    cbn [nreaders set_nreaders].
    destruct (Z.eqb_spec (nreaders s - 1) 0) as [E0|E0].
    + rewrite ExecShutdownGatherWorkers_ok.
      2:{ intros arr' Ha. cbn in Ha. rewrite Earr in Ha. injection Ha as <-. cbn. lia. }
      replace (nreaders s - 1) with 0 by lia.
      do 3 eexists. split; [reflexivity|]. eapply turn_done_last; eauto; lia.
    + unfold memmove. cbn [nextreader set_nreaders].
      assert (Hb : (0 <=? nextreader s) && (0 <=? nextreader s + 1)
                   && (0 <=? nreaders s - 1 - nextreader s)
                   && (nextreader s + 1 + (nreaders s - 1 - nextreader s)
                         <=? Z.of_nat (length arr))
                   && (nextreader s + (nreaders s - 1 - nextreader s)
                         <=? Z.of_nat (length arr)) = true).
      { repeat (apply andb_true_iff; split); apply Z.leb_le; lia. }
      rewrite Hb. cbn [mbind result_bind].
      replace (nextreader s + (nreaders s - 1 - nextreader s)) with (nreaders s - 1) by lia.
      do 3 eexists. split; [reflexivity|].
      replace (if nextreader _ >=? nreaders _ then _ else _) with (after_done arr s).
      * eapply turn_done_more; eauto; lia.
      * unfold after_done, remove_reader. simpl.
        destruct (nextreader s >=? nreaders s - 1); reflexivity.
Qed.

Lemma gather_readnext_body_inv w s nvisited w' s' k :
  reader_inv s -> reader s <> None -> 0 <= nvisited < INT_MAX ->
  gather_readnext_body w s nvisited = Ok (w', s', k) ->
  turn w s nvisited w' s' k.
Proof.
  intros Hinv Hr Hnv Hb.
  destruct (gather_readnext_body_turn w s nvisited Hinv Hr Hnv) as (w1 & s1 & k1 & E & T).
  rewrite E in Hb. injection Hb as <- <- <-. exact T.
Qed.

(** A loop of turns: what holds before every turn and is kept by a turn
    that goes on, gives what every returning turn gives. *)
Lemma gather_readnext_loop_rule
    (P : World -> GatherState -> Z -> Prop)
    (Q : option HeapTuple -> World -> GatherState -> Prop) :
  (forall w s nv, P w s nv -> reader_inv s /\ reader s <> None /\ 0 <= nv < INT_MAX) ->
  (forall w s nv w' s' nv', P w s nv -> turn w s nv w' s' (Continue nv') -> P w' s' nv') ->
  (forall w s nv w' s' r, P w s nv -> turn w s nv w' s' (Return r) -> Q r w' s') ->
  forall fuel w s nv r w' s',
    P w s nv -> gather_readnext_loop fuel w s nv = Ok (r, w', s') -> Q r w' s'.
Proof.
  intros HP Hstep Hret. induction fuel as [|fuel IH]; intros w s nv r w' s' Hp Hl.
  - discriminate.
  - cbn [gather_readnext_loop] in Hl.
    destruct (HP _ _ _ Hp) as (Hinv & Hr & Hnv).
    destruct (gather_readnext_body_turn w s nv Hinv Hr Hnv) as (w1 & s1 & k & E & T).
    rewrite E in Hl. cbn in Hl. destruct k as [nv'|tup].
    + eapply IH; [|exact Hl]. eapply Hstep; eauto.
    + injection Hl as <- <- <-. eapply Hret; eauto.
Qed.

Lemma length_remove_reader arr c n :
  0 <= c < n -> n <= Z.of_nat (length arr) ->
  length (remove_reader arr c n) = length arr.
Proof.
  intros Hc Hn. unfold remove_reader.
  rewrite !length_app, !length_take, !length_drop. lia.
Qed.

Lemma reader_inv_advance s : reader_inv s -> reader_inv (advance s).
Proof.
  intros H arr Ha. unfold advance in *.
  destruct (Z.geb_spec (nextreader s + 1) (nreaders s));
    cbn in *; destruct (H arr Ha) as (? & ? & ?); lia.
Qed.

Lemma reader_advance s : reader (advance s) = reader s.
Proof. unfold advance. destruct (_ >=? _); reflexivity. Qed.

Lemma nreaders_advance s : nreaders (advance s) = nreaders s.
Proof. unfold advance. destruct (_ >=? _); reflexivity. Qed.

Lemma reader_after_done arr s :
  reader (after_done arr s) = Some (remove_reader arr (nextreader s) (nreaders s)).
Proof. unfold after_done. destruct (_ >=? _); reflexivity. Qed.

Lemma nreaders_after_done arr s : nreaders (after_done arr s) = nreaders s - 1.
Proof. unfold after_done. destruct (_ >=? _); reflexivity. Qed.

Lemma reader_inv_after_done arr s :
  reader_inv s -> reader s = Some arr -> 1 < nreaders s ->
  reader_inv (after_done arr s).
Proof.
  intros H Ha Hn arr' Ha'. destruct (H arr Ha) as (Hc & Hl & Hm).
  rewrite reader_after_done in Ha'. injection Ha' as <-.
  rewrite length_remove_reader, nreaders_after_done by lia.
  unfold after_done. destruct (Z.geb_spec (nextreader s) (nreaders s - 1)); cbn; lia.
Qed.

(** A turn that goes on leaves the array and the cursor as the next
    [Assert] needs them, and [nvisited] below [INT_MAX]. *)
Lemma turn_continue_inv w s nv w' s' nv' :
  reader_inv s -> 0 <= nv < INT_MAX ->
  turn w s nv w' s' (Continue nv') ->
  reader_inv s' /\ reader s' <> None /\ 0 <= nv' < INT_MAX.
Proof.
  intros Hinv Hnv T. turn_continue T nv'.
  - split; [eauto using reader_inv_after_done|].
    rewrite reader_after_done. split; [done|lia].
  - destruct (Hinv arr Ha) as (? & ? & ?).
    split; [eauto using reader_inv_advance|].
    rewrite reader_advance, Ha. split; [done|lia].
  - split; [eauto using reader_inv_advance|].
    rewrite reader_advance, Ha. split; [done|]. unfold INT_MAX. lia.
Qed.

(** ** What gather_readnext leaves alone *)

Lemma readnext_frame_refl w s : readnext_frame w s w s.
Proof.
  repeat split. exists []. rewrite app_nil_r. split; [done|constructor].
Qed.

Lemma readnext_frame_trans w s w1 s1 w2 s2 :
  readnext_frame w s w1 s1 -> readnext_frame w1 s1 w2 s2 -> readnext_frame w s w2 s2.
Proof.
  intros (Hw & Hs & evs & Ht & Hp) (Hw' & Hs' & evs' & Ht' & Hp').
  split; [congruence|]. split; [congruence|].
  exists (evs ++ evs'). rewrite Ht', Ht, app_assoc. split; [done|].
  apply Forall_app; done.
Qed.

Lemma world_rest_inv w w' :
  world_rest w' = world_rest w ->
  IsParallelWorker w' = IsParallelWorker w /\
  IsInParallelMode w' = IsInParallelMode w /\
  enable_statistic w' = enable_statistic w /\
  launches w' = launches w /\ outer_rows w' = outer_rows w /\
  outer_rest w' = outer_rest w /\ clock w' = clock w.
Proof. unfold world_rest. intros [=]. auto 10. Qed.

Lemma state_rest_inv s s' :
  state_rest s' = state_rest s ->
  ps_plan s' = ps_plan s /\ ps_qual s' = ps_qual s /\
  ps_ProjInfo s' = ps_ProjInfo s /\ initialized s' = initialized s /\
  need_to_scan_locally s' = need_to_scan_locally s /\
  funnel_slot s' = funnel_slot s /\
  nworkers_launched s' = nworkers_launched s /\ pei s' = pei s /\
  get_tuples s' = get_tuples s /\ get_total_time s' = get_total_time s.
Proof. unfold state_rest. intros [=]. auto 15. Qed.

Lemma TupleQueueReaderNext_world r w tup done w1 :
  TupleQueueReaderNext r w = (tup, done, w1) ->
  world_rest w1 = world_rest w /\
  trace w1 = trace w ++ [EvTupleQueueReaderNext r tup done].
Proof.
  intros H.
  destruct (TupleQueueReaderNext_cases r w)
    as [(t & q & _ & E)|[(q & _ & E)|(_ & E)]];
    rewrite E in H; injection H as <- <- <-; done.
Qed.

Lemma trace_destroy_all rs w :
  trace (foldl (fun w r => DestroyTupleQueueReader r w) w rs)
  = trace w ++ map EvDestroyTupleQueueReader rs.
Proof.
  revert w. induction rs as [|r rs IH]; intros w; cbn.
  - by rewrite app_nil_r.
  - rewrite IH. cbn. by rewrite <- app_assoc.
Qed.

Lemma world_rest_destroy_all rs w :
  world_rest (foldl (fun w r => DestroyTupleQueueReader r w) w rs) = world_rest w.
Proof.
  revert w. induction rs as [|r rs IH]; intros w; cbn; [done|]. by rewrite IH.
Qed.

Lemma tqueue_destroy_all rs w :
  tqueue (foldl (fun w r => DestroyTupleQueueReader r w) w rs) = tqueue w.
Proof.
  revert w. induction rs as [|r rs IH]; intros w; cbn; [done|]. by rewrite IH.
Qed.

Lemma trace_shutdown_world w s :
  trace (shutdown_world w s)
  = trace w ++ map EvDestroyTupleQueueReader (survivors s)
            ++ (if is_null (pei s) then [] else [EvParallelFinish]).
Proof.
  unfold shutdown_world. destruct (pei s); cbn.
  - rewrite trace_destroy_all. by rewrite <- app_assoc.
  - rewrite trace_destroy_all. by rewrite app_nil_r.
Qed.

Lemma world_rest_shutdown_world w s : world_rest (shutdown_world w s) = world_rest w.
Proof.
  unfold shutdown_world.
  destruct (pei s); [change (world_rest (log ?e ?w)) with (world_rest w)|];
    apply world_rest_destroy_all.
Qed.

Lemma tqueue_shutdown_world w s : tqueue (shutdown_world w s) = tqueue w.
Proof.
  unfold shutdown_world.
  destruct (pei s); [change (tqueue (log ?e ?w)) with (tqueue w)|];
    apply tqueue_destroy_all.
Qed.

Lemma Forall_poll_event_destroy rs :
  Forall poll_event (map EvDestroyTupleQueueReader rs).
Proof. induction rs; constructor; done. Qed.

Lemma state_rest_advance s : state_rest (advance s) = state_rest s.
Proof. unfold advance. destruct (_ >=? _); reflexivity. Qed.

Lemma state_rest_after_done arr s : state_rest (after_done arr s) = state_rest s.
Proof. unfold after_done. destruct (_ >=? _); reflexivity. Qed.

Lemma turn_frame w s nv w' s' k :
  turn w s nv w' s' k -> readnext_frame w s w' s'.
Proof.
  intros T. turn_cases T;
    destruct (TupleQueueReaderNext_world _ _ _ _ _ Hread) as (Hw & Ht).
  - repeat split; [done|]. eexists. split; [exact Ht|]. repeat constructor.
  - split; [|split; [done|]].
    + by rewrite world_rest_shutdown_world.
    + rewrite trace_shutdown_world. cbn [trace DestroyTupleQueueReader log].
      rewrite Ht, <- !app_assoc. eexists. split; [reflexivity|].
      repeat (apply Forall_app; split); try (repeat constructor).
      * apply Forall_poll_event_destroy.
      * destruct (pei _); repeat constructor.
  - split; [done|]. split; [apply state_rest_after_done|].
    cbn. rewrite Ht, <- app_assoc. eexists. split; [reflexivity|]. repeat constructor.
  - split; [done|]. split; [apply state_rest_advance|].
    eexists. split; [exact Ht|]. repeat constructor.
  - split; [done|]. split; [apply state_rest_advance|].
    eexists. split; [exact Ht|]. repeat constructor.
  - split; [done|]. split; [apply state_rest_advance|].
    cbn. rewrite Ht, <- app_assoc. eexists. split; [reflexivity|]. repeat constructor.
Qed.

(** What the loop gives back: the frame, the array still in order, a
    tuple only with the readers kept, and no tuple only with the readers
    gone or the leader scanning. *)
Lemma gather_readnext_loop_post fuel w s nv r w' s' :
  reader_inv s -> reader s <> None -> 0 <= nv < INT_MAX ->
  gather_readnext_loop fuel w s nv = Ok (r, w', s') ->
  readnext_frame w s w' s' /\ reader_inv s' /\
  match r with
  | Some _ => reader s' <> None
  | None => reader s' = None \/ need_to_scan_locally s' = true
  end.
Proof.
  intros Hinv Hr Hnv.
  apply (gather_readnext_loop_rule
    (fun w1 s1 nv1 => readnext_frame w s w1 s1 /\ reader_inv s1 /\ reader s1 <> None
                      /\ 0 <= nv1 < INT_MAX)
    (fun r w' s' => readnext_frame w s w' s' /\ reader_inv s' /\
       match r with
       | Some _ => reader s' <> None
       | None => reader s' = None \/ need_to_scan_locally s' = true
       end)).
  - tauto.
  - intros w1 s1 nv1 w2 s2 nv2 (F & I & R & N) T.
    split; [eauto using readnext_frame_trans, turn_frame|].
    eapply turn_continue_inv; eauto.
  - intros wa sa nva wb sb r0 (F & I & R & N) T.
    split; [eauto using readnext_frame_trans, turn_frame|].
    remember (Return r0) as k eqn:Ek. turn_cases T; try discriminate Ek;
      injection Ek as <-.
    + split; [done|]. by rewrite Ha.
    + split; [intros ? [=]|]. by left.
    + split; [by apply reader_inv_advance|]. right.
      pose proof (state_rest_advance sa) as E. unfold state_rest in E.
      injection E. congruence.
  - split; [apply readnext_frame_refl|done].
Qed.

(** ** gather_readnext returns *)

Lemma queue_total_insert (qs : list TupleQueue) (r : nat) x q :
  qs !! r = Some (x :: q) ->
  S (queue_total (<[r := q]> qs)) = queue_total qs.
Proof.
  revert r. induction qs as [|q0 qs IH]; intros [|r] H; try discriminate.
  - injection H as ->. cbn. lia.
  - pose proof (IH r H) as E.
    change (<[S r := q]> (q0 :: qs)) with (q0 :: <[r := q]> qs).
    cbn [queue_total]. lia.
Qed.

Lemma TupleQueueReaderNext_queue r w tup done w1 :
  TupleQueueReaderNext r w = (tup, done, w1) ->
  if done then tqueue w1 = tqueue w
  else S (queue_total (tqueue w1)) = queue_total (tqueue w).
Proof.
  intros H.
  destruct (TupleQueueReaderNext_cases r w)
    as [(t & q & Hq & E)|[(q & Hq & E)|(_ & E)]];
    rewrite E in H; injection H as <- <- <-; cbn;
    eauto using queue_total_insert.
Qed.

Lemma turn_measure w s nv w' s' nv' :
  reader_inv s ->
  turn w s nv w' s' (Continue nv') ->
  (queue_total (tqueue w') + Z.to_nat (nreaders s')
   < queue_total (tqueue w) + Z.to_nat (nreaders s))%nat.
Proof.
  intros Hinv T. turn_continue T nv';
    pose proof (TupleQueueReaderNext_queue _ _ _ _ _ Hread) as Hq; cbn in Hq.
  - cbn. rewrite Hq, nreaders_after_done. lia.
  - rewrite nreaders_advance. lia.
  - cbn. rewrite nreaders_advance. lia.
Qed.

Lemma gather_readnext_loop_total fuel w s nv :
  reader_inv s -> reader s <> None -> 0 <= nv < INT_MAX ->
  (queue_total (tqueue w) + Z.to_nat (nreaders s) < fuel)%nat ->
  exists r w' s', gather_readnext_loop fuel w s nv = Ok (r, w', s').
Proof.
  revert w s nv. induction fuel as [|fuel IH]; intros w s nv Hinv Hr Hnv Hf; [lia|].
  cbn [gather_readnext_loop].
  destruct (gather_readnext_body_turn w s nv Hinv Hr Hnv) as (wa & sa & k & E & T).
  rewrite E. cbn. destruct k as [nv'|tup]; [|eauto].
  pose proof (turn_measure _ _ _ _ _ _ Hinv T).
  destruct (turn_continue_inv _ _ _ _ _ _ Hinv Hnv T) as (? & ? & ?).
  apply IH; auto. lia.
Qed.

Lemma gather_readnext_total w s :
  reader_inv s -> reader s <> None ->
  exists r w' s', gather_readnext w s = Ok (r, w', s').
Proof.
  intros Hinv Hr. apply gather_readnext_loop_total; auto;
    unfold INT_MAX, gather_readnext_fuel; lia.
Qed.

Lemma gather_readnext_post w s r w' s' :
  reader_inv s -> reader s <> None ->
  gather_readnext w s = Ok (r, w', s') ->
  readnext_frame w s w' s' /\ reader_inv s' /\
  match r with
  | Some _ => reader s' <> None
  | None => reader s' = None \/ need_to_scan_locally s' = true
  end.
Proof.
  intros Hinv Hr. apply gather_readnext_loop_post; auto. unfold INT_MAX. lia.
Qed.

(** ** gather_getnext *)

(** Neither readers nor a local scan: the scan is over. *)
Lemma gather_getnext_over w s :
  reader s = None -> need_to_scan_locally s = false ->
  gather_getnext w s = Ok (None, w, set_funnel_slot None s).
Proof.
  intros Hr Hn. unfold gather_getnext. cbn [gather_getnext_loop].
  rewrite Hr, Hn. reflexivity.
Qed.

(** No readers: the leader runs the plan itself. *)
Lemma gather_getnext_local w s :
  reader s = None -> need_to_scan_locally s = true ->
  gather_getnext w s =
    match outer_rest w with
    | t :: rest => Ok (Some t, log (EvExecProcNode (Some t)) (set_outer_rest rest w), s)
    | [] => Ok (None, log (EvExecProcNode None) w,
                set_funnel_slot None (set_need_to_scan_locally false s))
    end.
Proof.
  intros Hr Hn. unfold gather_getnext. cbn [gather_getnext_loop].
  rewrite Hr, Hn. cbn. rewrite Hn. unfold ExecProcNode.
  destruct (outer_rest w) as [|t rest]; [|reflexivity].
  cbn. rewrite Hr. reflexivity.
Qed.

(** Readers and no local scan: whatever [gather_readnext] gives. *)
Lemma gather_getnext_workers w s :
  reader_inv s -> reader s <> None -> need_to_scan_locally s = false ->
  exists r w' s',
    gather_readnext w s = Ok (r, w', s') /\
    gather_getnext w s = Ok (r, w', set_funnel_slot r s') /\
    need_to_scan_locally s' = false /\
    (r = None -> reader s' = None).
Proof.
  intros Hinv Hr Hn.
  destruct (gather_readnext_total w s Hinv Hr) as (r & w' & s' & E).
  destruct (gather_readnext_post _ _ _ _ _ Hinv Hr E) as ((_ & Hs & _) & _ & Hpost).
  assert (Hn' : need_to_scan_locally s' = false).
  { unfold state_rest in Hs. injection Hs. congruence. }
  exists r, w', s'. split; [done|]. split; [|split; [done|]].
  - unfold gather_getnext. cbn [gather_getnext_loop].
    destruct (reader s) eqn:Er; [|done]. cbn [is_null negb orb].
    rewrite E. cbn. destruct r as [t|]; [reflexivity|].
    rewrite Hn'. destruct Hpost as [Hp|Hp]; [|congruence].
    rewrite Hp. reflexivity.
  - intros ->. destruct Hpost; congruence.
Qed.

(** ** The states the node goes through *)

Lemma gather_inv_ExecInitGather node :
  num_workers node <= INT_MAX -> gather_inv (ExecInitGather node).
Proof.
  intros H. repeat split; try done.
Qed.

Lemma trace_create_readers k w :
  trace (create_readers k w).2
  = trace w ++ map EvCreateTupleQueueReader (seq 0 (Z.to_nat k)).
Proof.
  unfold create_readers. cbn. generalize (seq 0 (Z.to_nat k)). intros rs.
  revert w. induction rs as [|r rs IH]; intros w; cbn.
  - by rewrite app_nil_r.
  - rewrite IH. cbn. by rewrite <- app_assoc.
Qed.

Lemma world_rest_create_readers k w :
  world_rest (create_readers k w).2 = world_rest w /\
  tqueue (create_readers k w).2 = tqueue w.
Proof.
  unfold create_readers. cbn. generalize (seq 0 (Z.to_nat k)). intros rs.
  revert w. induction rs as [|r rs IH]; intros w; cbn; [done|].
  destruct (IH (log (EvCreateTupleQueueReader r) w)) as [-> ->]. done.
Qed.

Lemma create_readers_fst k w : (create_readers k w).1 = seq 0 (Z.to_nat k).
Proof. reflexivity. Qed.

Lemma Forall_init_event_create rs :
  Forall init_event (map EvCreateTupleQueueReader rs).
Proof. induction rs; constructor; done. Qed.

(** Once initialized, the first part of [ExecGather] does nothing. *)
Lemma ExecGather_initialize_done w s :
  initialized s = true -> ExecGather_initialize w s = Ok (w, s, false, 0).
Proof.
  intros H. unfold ExecGather_initialize. rewrite H. by destruct (IsParallelWorker w).
Qed.

Lemma LaunchParallelWorkers_launched p w :
  pcxt_nworkers p <= INT_MAX ->
  0 <= pcxt_nworkers_launched (LaunchParallelWorkers p w).1 <= INT_MAX /\
  pcxt_nworkers (LaunchParallelWorkers p w).1 = pcxt_nworkers p.
Proof.
  intros H. unfold LaunchParallelWorkers. cbn. rewrite length_take.
  unfold INT_MAX in *. lia.
Qed.

(** ** The first part of ExecGather, on a node not yet initialized *)

Lemma ExecGather_initialize_launch w s :
  gather_inv s -> initialized s = false -> launch_attempted w s ->
  ExecGather_initialize w s =
    Ok (launched_world w s, launched_state s (launched_by w s),
        parallelWorker_sendTuple (ps_plan s), launched_by w s).
Proof.
  intros (Hri & Hr & Hnw & Hpei) Hi (Hw & Hn & Hm).
  assert (Hnone : reader s = None).
  { destruct (reader s) eqn:E; [|done]. destruct Hr as [_ Hr]; [done|congruence]. }
  unfold ExecGather_initialize. rewrite Hw, Hi. cbn [negb].
  apply Z.ltb_lt in Hn. rewrite Hn, Hm. cbn [andb].
  unfold launched_world, launched_state, launched_by, launch_queues.
  set (nw := num_workers (ps_plan s)) in *.
  set (qs := take (Z.to_nat nw) (hd [] (launches w))).
  set (k := Z.of_nat (length qs)).
  assert (Hk : 0 <= k) by (unfold k; lia).
  assert (HL : forall p0 w0, pcxt_nworkers p0 = nw -> launches w0 = launches w ->
            LaunchParallelWorkers p0 w0 =
              ({| pcxt_nworkers := nw; pcxt_nworkers_launched := k |},
               log (EvLaunchParallelWorkers k) (set_queues (tl (launches w)) qs w0))).
  { intros p0 w0 E1 E2. unfold LaunchParallelWorkers. rewrite E1, E2. reflexivity. }
  destruct (pei s) as [p|] eqn:Ep;
    [rewrite (HL p (log (EvParallelReinitialize OuterPlan) w) (Hpei p eq_refl) eq_refl)
    |rewrite (HL {| pcxt_nworkers := nw; pcxt_nworkers_launched := 0 |}
                 (log (EvInitParallelPlan nw) w) eq_refl eq_refl)];
    cbn [pcxt_nworkers_launched];
    (destruct (Z.ltb_spec 0 k) as [Hpos|Hzero];
     [destruct (parallelWorker_sendTuple (ps_plan s)) eqn:Eps; cbn;
      rewrite ?Eps; cbn; rewrite ?length_seq, ?Z2Nat.id by lia; reflexivity
     |rewrite ExecShutdownGatherWorkers_ok by (cbn; intros arr Ha; congruence);
      cbn; unfold shutdown_world, survivors; cbn; rewrite Hnone; cbn;
      rewrite set_reader_None_id by (cbn; done); cbn; rewrite ?Hnone;
      destruct (parallelWorker_sendTuple (ps_plan s)) eqn:Eps; cbn; rewrite ?Eps;
      replace k with 0 by lia; reflexivity]).
Qed.

Lemma gather_inv_reader_None s :
  gather_inv s -> initialized s = false -> reader s = None.
Proof.
  intros (_ & Hr & _) Hi. destruct (reader s) eqn:E; [|done].
  destruct Hr as [_ Hr]; [done|congruence].
Qed.

(** No launch: in a parallel worker, without workers asked for, or outside
    parallel mode. *)
Lemma ExecGather_initialize_no_launch w s :
  gather_inv s -> initialized s = false -> ~ launch_attempted w s ->
  ExecGather_initialize w s =
    Ok (w,
        set_initialized true
          (set_need_to_scan_locally
             (negb (negb (IsParallelWorker w) && parallelWorker_sendTuple (ps_plan s))) s),
        negb (IsParallelWorker w) && parallelWorker_sendTuple (ps_plan s), 0).
Proof.
  intros Hinv Hi Hno. pose proof (gather_inv_reader_None s Hinv Hi) as Hnone.
  unfold ExecGather_initialize. rewrite Hi. cbn [negb].
  destruct (IsParallelWorker w) eqn:Ew; cbn.
  - rewrite set_reader_None_id by done. reflexivity.
  - destruct ((0 <? num_workers (ps_plan s)) && IsInParallelMode w) eqn:E.
    + exfalso. apply Hno. apply andb_true_iff in E as [E1 E2].
      apply Z.ltb_lt in E1. done.
    + cbn. rewrite Hnone.
      destruct (parallelWorker_sendTuple (ps_plan s)); reflexivity.
Qed.

Lemma launched_by_range w s :
  num_workers (ps_plan s) <= INT_MAX -> 0 <= launched_by w s <= INT_MAX.
Proof.
  intros H. unfold launched_by, launch_queues. rewrite length_take.
  unfold INT_MAX in *. lia.
Qed.

Lemma gather_inv_launched_state s k :
  gather_inv s -> 0 <= k <= INT_MAX -> gather_inv (launched_state s k).
Proof.
  intros (Hri & Hr & Hnw & Hpei) Hk. unfold launched_state, gather_inv, reader_inv.
  destruct (Z.ltb_spec 0 k) as [Hpos|Hzero];
    [destruct (parallelWorker_sendTuple (ps_plan s))|]; cbn.
  - split_and!; try done. by intros p [= <-].
  - split_and!; try done.
    + intros arr [= <-]. rewrite length_seq. lia.
    + by intros p [= <-].
  - split_and!; try done.
    + intros Hne. destruct (reader s); [|done]. cbn. by rewrite andb_false_r.
    + by intros p [= <-].
Qed.

(** ** ExecGather, call by call *)

(** The first call: the first part, then what a call on the initialized
    node does, unless the workers send their tuples themselves. *)
Lemma ExecGather_first w s w1 s1 parallel_send launchedWorkers :
  ExecGather_initialize w s = Ok (w1, s1, parallel_send, launchedWorkers) ->
  initialized s1 = true ->
  ExecGather w s =
    if parallel_send
    then Ok (None, WaitForParallelWorkerDone launchedWorkers (launchedWorkers =? 0) w1,
             set_funnel_slot None s1)
    else ExecGather w1 s1.
Proof.
  intros E Hi. unfold ExecGather. rewrite E.
  destruct parallel_send; [reflexivity|].
  rewrite (ExecGather_initialize_done w1 s1 Hi). reflexivity.
Qed.

Lemma scan_cases s :
  gather_inv s -> initialized s = true -> scan_over s \/ scan_local s \/ scan_workers s.
Proof.
  intros (Hri & Hr & _) Hi. destruct (reader s) as [arr|] eqn:E.
  - right; right. destruct Hr as [Hn _]; [done|].
    split; [done|]. split; [by rewrite E|]. split; done.
  - destruct (need_to_scan_locally s) eqn:En; [right; left|left]; done.
Qed.

Lemma ExecGather_over w s :
  scan_over s ->
  ExecGather w s = Ok (None, over_world w s, set_funnel_slot None s).
Proof.
  intros (Hi & Hr & Hn). unfold ExecGather.
  rewrite (ExecGather_initialize_done w s Hi).
  cbn [need_to_scan_locally set_funnel_slot]. rewrite Hn. cbn [negb].
  unfold over_world.
  destruct (enable_statistic w) eqn:Es; cbn [andb GetCurrentTimestamp].
  - rewrite gather_getnext_over by done. cbn. rewrite Hn, Es. reflexivity.
  - rewrite gather_getnext_over by done. cbn. rewrite Es. reflexivity.
Qed.

Lemma ExecGather_local w s :
  scan_local s ->
  ExecGather w s =
    match outer_rest w with
    | t :: rest =>
        Ok (Some (ps_ProjInfo s t),
            log (EvExecProcNode (Some t)) (set_outer_rest rest w),
            set_funnel_slot None s)
    | [] =>
        Ok (None,
            (if enable_statistic w
             then log (EvLogStatistic (get_tuples s) (get_total_time s))
             else id) (log (EvExecProcNode None) w),
            set_funnel_slot None (set_need_to_scan_locally false s))
    end.
Proof.
  intros (Hi & Hr & Hn). unfold ExecGather.
  rewrite (ExecGather_initialize_done w s Hi).
  cbn [need_to_scan_locally set_funnel_slot]. rewrite Hn, andb_false_r.
  rewrite gather_getnext_local by done.
  destruct (outer_rest w) as [|t rest]; cbn.
  - destruct (enable_statistic w); reflexivity.
  - rewrite Hn, andb_false_r. reflexivity.
Qed.

Lemma ExecGather_workers w s r w1 s1 :
  scan_workers s ->
  gather_readnext (if enable_statistic w then set_clock (tl (clock w)) w else w)
                  (set_funnel_slot None s) = Ok (r, w1, s1) ->
  ExecGather w s =
    Ok (match r with
        | None =>
            (None,
             if enable_statistic w
             then log (EvLogStatistic (get_tuples s1) (get_total_time s1)) w1
             else w1,
             set_funnel_slot None s1)
        | Some t =>
            (Some (ps_ProjInfo s t),
             if enable_statistic w then set_clock (tl (clock w1)) w1 else w1,
             if enable_statistic w
             then count_tuple (hd 0 (clock w)) (hd 0 (clock w1))
                              (set_funnel_slot (Some t) s1)
             else set_funnel_slot (Some t) s1)
        end).
Proof.
  intros (Hi & Hr & Hn & Hri) E. unfold ExecGather.
  rewrite (ExecGather_initialize_done w s Hi).
  cbn [need_to_scan_locally set_funnel_slot]. rewrite Hn. cbn [negb].
  rewrite andb_true_r.
  set (w0 := if enable_statistic w then set_clock (tl (clock w)) w else w) in *.
  set (s0 := set_funnel_slot None s) in *.
  assert (Hri0 : reader_inv s0) by exact Hri.
  assert (Hr0 : reader s0 <> None) by exact Hr.
  assert (Hn0 : need_to_scan_locally s0 = false) by exact Hn.
  destruct (gather_getnext_workers w0 s0 Hri0 Hr0 Hn0)
    as (r' & w' & s' & E' & G & Hn' & _).
  rewrite E in E'. injection E' as <- <- <-.
  destruct (gather_readnext_post _ _ _ _ _ Hri0 Hr0 E) as ((Hw & Hs & _) & _).
  assert (Es : enable_statistic w1 = enable_statistic w).
  { destruct (world_rest_inv _ _ Hw) as (_ & _ & E0 & _).
    rewrite E0. subst w0. by destruct (enable_statistic w) eqn:X. }
  assert (Ep : ps_ProjInfo s1 = ps_ProjInfo s).
  { destruct (state_rest_inv _ _ Hs) as (_ & _ & E0 & _). by rewrite E0. }
  replace (if enable_statistic w then GetCurrentTimestamp w else (0, w))
    with (if enable_statistic w then hd 0 (clock w) else 0, w0)
    by (subst w0; destruct (enable_statistic w); reflexivity).
  rewrite G. cbn. rewrite Hn', Es, andb_true_r.
  destruct r as [t|]; [|reflexivity].
  destruct (enable_statistic w); cbn; [|by rewrite Ep].
  unfold count_tuple. cbn. destruct (get_total_time s1 =? -1); cbn; by rewrite Ep.
Qed.

Lemma ExecGather_call w s :
  gather_inv s -> initialized s = true ->
  exists slot w' s', ExecGather w s = Ok (slot, w', s') /\ call w s slot w' s'.
Proof.
  intros Hinv Hi. destruct (scan_cases s Hinv Hi) as [H|[H|H]].
  - do 3 eexists. split; [by apply ExecGather_over|]. by constructor.
  - rewrite (ExecGather_local w s H).
    destruct (outer_rest w) as [|t rest] eqn:E.
    + do 3 eexists. split; [reflexivity|]. by constructor.
    + do 3 eexists. split; [reflexivity|]. by econstructor.
  - pose proof H as (_ & Hr & _ & Hri).
    destruct (gather_readnext_total
                (if enable_statistic w then set_clock (tl (clock w)) w else w)
                (set_funnel_slot None s) Hri Hr) as (r & w1 & s1 & E).
    rewrite (ExecGather_workers w s r w1 s1 H E).
    destruct r as [t|]; do 3 eexists; (split; [reflexivity|]).
    + by apply call_workers_tuple.
    + by apply call_workers_end.
Qed.

Lemma ExecGather_call_inv w s slot w' s' :
  gather_inv s -> initialized s = true ->
  ExecGather w s = Ok (slot, w', s') -> call w s slot w' s'.
Proof.
  intros Hinv Hi E.
  destruct (ExecGather_call w s Hinv Hi) as (slot1 & w1 & s1 & E1 & C).
  rewrite E in E1. by injection E1 as <- <- <-.
Qed.

Lemma gather_inv_fields s s' :
  inv_fields s' = inv_fields s -> gather_inv s -> gather_inv s'.
Proof.
  unfold inv_fields, gather_inv, reader_inv.
  destruct s, s'; cbn. intros [=]; subst. done.
Qed.

Lemma gather_inv_readnext w s r w' s' :
  gather_inv s -> reader s <> None ->
  gather_readnext w s = Ok (r, w', s') -> gather_inv s'.
Proof.
  intros (Hri & Hr & Hnw & Hpei) Hne E.
  destruct (gather_readnext_post _ _ _ _ _ Hri Hne E) as ((_ & Hs & _) & Hri' & _).
  destruct (state_rest_inv _ _ Hs) as (Hp & _ & _ & Hi & Hn & _ & _ & Hpe & _).
  destruct (Hr Hne) as [Hn0 Hi0].
  split; [done|]. split; [intros _; split; congruence|].
  split; [congruence|]. intros p Hp'. rewrite Hp. apply Hpei. congruence.
Qed.

Lemma world_rest_setting w w' :
  world_rest w' = world_rest w -> world_setting w' = world_setting w.
Proof. unfold world_rest, world_setting. intros [=]. congruence. Qed.

Lemma state_rest_setting s s' :
  state_rest s' = state_rest s -> state_setting s' = state_setting s.
Proof. unfold state_rest, state_setting. intros [=]. congruence. Qed.

Lemma state_setting_count_tuple b e s :
  state_setting (count_tuple b e s) = state_setting s /\
  inv_fields (count_tuple b e s) = inv_fields s.
Proof. unfold count_tuple. destruct (_ =? _); done. Qed.

Lemma over_world_frame w s :
  world_setting (over_world w s) = world_setting w /\
  launches (over_world w s) = launches w /\
  outer_rest (over_world w s) = outer_rest w /\
  tqueue (over_world w s) = tqueue w.
Proof.
  unfold over_world, world_setting.
  destruct (enable_statistic w) eqn:Es; cbn; rewrite ?Es; done.
Qed.

(** Reading the clock before the readers are polled. *)
Lemma stat_world_frame w :
  let w0 := if enable_statistic w then set_clock (tl (clock w)) w else w in
  world_setting w0 = world_setting w /\ launches w0 = launches w /\
  tqueue w0 = tqueue w /\ outer_rest w0 = outer_rest w /\ trace w0 = trace w.
Proof.
  unfold world_setting. destruct (enable_statistic w) eqn:Es; cbn; rewrite ?Es; done.
Qed.

Lemma call_post w s slot w' s' :
  gather_inv s -> call w s slot w' s' ->
  gather_inv s' /\ initialized s' = true /\
  world_setting w' = world_setting w /\ state_setting s' = state_setting s /\
  launches w' = launches w /\
  (slot = None -> scan_over s' /\ funnel_slot s' = None).
Proof.
  intros Hinv C. destruct C as [H|t rest H E|H E|t w1 s1 H E|w1 s1 H E].
  - destruct H as (Hi & Hr & Hn).
    destruct (over_world_frame w s) as (Hw & Hl & _).
    split; [by apply (gather_inv_fields s)|]. done.
  - destruct H as (Hi & Hr & Hn).
    split; [by apply (gather_inv_fields s)|]. split; [done|].
    split; [done|]. split; [done|]. split; [done|]. intros [=].
  - destruct H as (Hi & Hr & Hn).
    split.
    { destruct Hinv as (Hri & _ & Hnw & Hpei). unfold gather_inv, reader_inv. cbn.
      rewrite Hr. split_and!; try done. }
    split; [done|].
    split; [unfold world_setting; destruct (enable_statistic w) eqn:Es; cbn;
            rewrite ?Es; done|].
    split; [done|].
    split; [by destruct (enable_statistic w)|]. done.
  - destruct H as (Hi & Hr & Hn & Hri).
    assert (Hinv0 : gather_inv (set_funnel_slot None s))
      by (by apply (gather_inv_fields s)).
    pose proof (gather_inv_readnext _ (set_funnel_slot None s) _ _ _ Hinv0 Hr E) as Hinv1.
    destruct (gather_readnext_post _ (set_funnel_slot None s) _ _ _ Hri Hr E)
      as ((Hw & Hs & _) & _ & _).
    destruct (state_rest_inv _ _ Hs) as (_ & _ & _ & Hi1 & _). cbn in Hi1.
    pose proof (world_rest_setting _ _ Hw) as Hws.
    pose proof (state_rest_setting _ _ Hs) as Hss.
    destruct (world_rest_inv _ _ Hw) as (_ & _ & _ & Hl & _).
    destruct (stat_world_frame w) as (Hws0 & Hl0 & _).
    rewrite Hws0 in Hws. rewrite Hl0 in Hl.
    assert (Hw' : forall wx, world_setting (if enable_statistic w
                                            then set_clock (tl (clock wx)) wx else wx)
                             = world_setting wx /\
                             launches (if enable_statistic w
                                       then set_clock (tl (clock wx)) wx else wx)
                             = launches wx)
      by (intros wx; by destruct (enable_statistic w)).
    destruct (Hw' w1) as [-> ->].
    assert (Hct : forall sx,
      inv_fields (if enable_statistic w
                  then count_tuple (hd 0 (clock w)) (hd 0 (clock w1)) sx else sx)
        = inv_fields sx /\
      state_setting (if enable_statistic w
                     then count_tuple (hd 0 (clock w)) (hd 0 (clock w1)) sx else sx)
        = state_setting sx).
    { intros sx. destruct (enable_statistic w); [|done].
      destruct (state_setting_count_tuple (hd 0 (clock w)) (hd 0 (clock w1)) sx). done. }
    destruct (Hct (set_funnel_slot (Some t) s1)) as [Hb Ha].
    split; [apply (gather_inv_fields s1); [by rewrite Hb|done]|].
    split.
    { transitivity (initialized (set_funnel_slot (Some t) s1)); [|cbn; congruence].
      unfold inv_fields in Hb. by injection Hb. }
    split; [exact Hws|]. split; [rewrite Ha; exact Hss|].
    split; [exact Hl|]. intros [=].
  - destruct H as (Hi & Hr & Hn & Hri).
    assert (Hinv0 : gather_inv (set_funnel_slot None s))
      by (by apply (gather_inv_fields s)).
    pose proof (gather_inv_readnext _ (set_funnel_slot None s) _ _ _ Hinv0 Hr E) as Hinv1.
    destruct (gather_readnext_post _ (set_funnel_slot None s) _ _ _ Hri Hr E)
      as ((Hw & Hs & _) & _ & Hp).
    destruct (state_rest_inv _ _ Hs) as (_ & _ & _ & Hi1 & Hn1 & _).
    pose proof (world_rest_setting _ _ Hw) as Hws.
    pose proof (state_rest_setting _ _ Hs) as Hss.
    destruct (world_rest_inv _ _ Hw) as (_ & _ & _ & Hl & _).
    destruct (stat_world_frame w) as (Hws0 & Hl0 & _).
    rewrite Hws0 in Hws. rewrite Hl0 in Hl.
    cbn in Hi1, Hn1.
    assert (Hr1 : reader s1 = None) by (destruct Hp; congruence).
    split; [by apply (gather_inv_fields s1)|]. split; [cbn; congruence|].
    split; [destruct (enable_statistic w); exact Hws|]. split; [exact Hss|].
    split; [destruct (enable_statistic w); exact Hl|].
    intros _. split; [|done]. repeat split; cbn; congruence.
Qed.

Lemma launch_attempted_dec w s : launch_attempted w s \/ ~ launch_attempted w s.
Proof.
  unfold launch_attempted.
  destruct (IsParallelWorker w), (IsInParallelMode w),
    (Z.ltb_spec 0 (num_workers (ps_plan s))); try (right; intros (? & ? & ?); done || lia).
  left. done.
Qed.

Lemma launched_world_frame w s :
  world_setting (launched_world w s) = world_setting w /\
  outer_rest (launched_world w s) = outer_rest w /\
  clock (launched_world w s) = clock w.
Proof.
  unfold launched_world.
  destruct (0 <? launched_by w s); [|done].
  destruct (parallelWorker_sendTuple (ps_plan s)); [done|].
  match goal with |- context [create_readers ?k ?w0] =>
    destruct (world_rest_create_readers k w0) as [Hw _];
    destruct (world_rest_inv _ _ Hw) as (_ & _ & _ & _ & _ & Ho & Hc);
    pose proof (world_rest_setting _ _ Hw) as Hs
  end.
  rewrite Hs, Ho, Hc. done.
Qed.

Lemma launched_state_facts s k :
  state_fixed (launched_state s k) = state_fixed s /\
  initialized (launched_state s k) = true /\
  need_to_scan_locally (launched_state s k)
    = negb (parallelWorker_sendTuple (ps_plan s)) && is_null (reader (launched_state s k)) /\
  (parallelWorker_sendTuple (ps_plan s) = true -> reader s = None ->
   reader (launched_state s k) = None).
Proof.
  unfold launched_state.
  destruct (0 <? k); [destruct (parallelWorker_sendTuple (ps_plan s)) eqn:E|];
    cbn; rewrite ?E; done.
Qed.

(** The first part of [ExecGather] on a node not yet initialized: it
    returns, and leaves the node initialized and in order. *)
Lemma ExecGather_initialize_total w s :
  gather_inv s -> initialized s = false ->
  exists w1 s1 parallel_send launchedWorkers,
    ExecGather_initialize w s = Ok (w1, s1, parallel_send, launchedWorkers) /\
    gather_inv s1 /\ initialized s1 = true /\
    world_setting w1 = world_setting w /\ outer_rest w1 = outer_rest w /\
    clock w1 = clock w /\ state_fixed s1 = state_fixed s /\
    parallel_send = negb (IsParallelWorker w) && parallelWorker_sendTuple (ps_plan s) /\
    need_to_scan_locally s1 = negb parallel_send && is_null (reader s1) /\
    (parallel_send = true -> reader s1 = None).
Proof.
  intros Hinv Hi. pose proof (gather_inv_reader_None s Hinv Hi) as Hnone.
  destruct (launch_attempted_dec w s) as [Hl|Hl].
  - rewrite (ExecGather_initialize_launch w s Hinv Hi Hl).
    destruct (launched_world_frame w s) as (Hw & Ho & Hc).
    destruct (launched_state_facts s (launched_by w s)) as (Hf & Hi1 & Hn & Hp).
    destruct Hinv as (Hri & Hr & Hnw & Hpei).
    do 4 eexists. split; [reflexivity|].
    split; [apply gather_inv_launched_state; [done|by apply launched_by_range]|].
    destruct Hl as (-> & _). cbn [negb andb]. split_and!; try done.
    intros Hps. by apply Hp.
  - rewrite (ExecGather_initialize_no_launch w s Hinv Hi Hl).
    do 4 eexists. split; [reflexivity|].
    destruct Hinv as (Hri & Hr & Hnw & Hpei).
    split_and!; try done.
    cbn. rewrite Hnone. cbn. by rewrite andb_true_r.
Qed.

(** Every call returns, and leaves the node initialized and in order;
    after the empty slot the scan is over. *)
Lemma ExecGather_total w s :
  gather_inv s ->
  exists slot w' s',
    ExecGather w s = Ok (slot, w', s') /\
    gather_inv s' /\ initialized s' = true /\
    (slot = None -> scan_over s' /\ funnel_slot s' = None).
Proof.
  intros Hinv. destruct (initialized s) eqn:Hi.
  - destruct (ExecGather_call w s Hinv Hi) as (slot & w' & s' & E & C).
    destruct (call_post _ _ _ _ _ Hinv C) as (? & ? & _ & _ & _ & ?).
    eauto 10.
  - destruct (ExecGather_initialize_total w s Hinv Hi)
      as (w1 & s1 & ps & lw & E & Hinv1 & Hi1 & _ & _ & _ & _ & _ & Hn & Hp).
    rewrite (ExecGather_first _ _ _ _ _ _ E Hi1).
    destruct ps.
    + specialize (Hp eq_refl). cbn in Hn.
      do 3 eexists. split; [reflexivity|].
      split; [by apply (gather_inv_fields s1)|]. done.
    + destruct (ExecGather_call w1 s1 Hinv1 Hi1) as (slot & w' & s' & E' & C).
      destruct (call_post _ _ _ _ _ Hinv1 C) as (? & ? & _ & _ & _ & ?).
      eauto 10.
Qed.

Lemma set_funnel_slot_None_id s : funnel_slot s = None -> set_funnel_slot None s = s.
Proof. destruct s; cbn; intros ->; reflexivity. Qed.

(** Calls on a node whose scan is over. *)
Lemma ExecGather_n_over n w s :
  scan_over s -> funnel_slot s = None ->
  exists w', ExecGather_n n w s = Ok (replicate n None, w', s) /\
             world_setting w' = world_setting w /\
             launches w' = launches w /\ outer_rest w' = outer_rest w.
Proof.
  intros Ho Hf. revert w. induction n as [|n IH]; intros w; cbn.
  - eauto.
  - rewrite (ExecGather_over w s Ho). cbn. rewrite set_funnel_slot_None_id by done.
    destruct (IH (over_world w s)) as (w' & -> & Hw & Hl & Hr).
    destruct (over_world_frame w s) as (Hw0 & Hl0 & Hr0 & _).
    cbn. eexists. split; [reflexivity|]. split_and!; congruence.
Qed.

(** ** The reader array when a reader is taken out *)

Lemma survivors_after_done arr s :
  reader s = Some arr -> 0 <= nextreader s < nreaders s ->
  nreaders s <= Z.of_nat (length arr) ->
  survivors (after_done arr s) = delete (Z.to_nat (nextreader s)) (survivors s).
Proof.
  intros Ha Hc Hn. unfold survivors.
  rewrite reader_after_done, nreaders_after_done, Ha. unfold remove_reader.
  set (c := Z.to_nat (nextreader s)). set (n := Z.to_nat (nreaders s)).
  replace (Z.to_nat (nextreader s + 1)) with (S c) by lia.
  replace (Z.to_nat (nreaders s - 1 - nextreader s)) with (n - 1 - c)%nat by lia.
  replace (Z.to_nat (nreaders s - 1)) with (n - 1)%nat by lia.
  assert (Hcn : (c < n <= length arr)%nat) by lia.
  rewrite delete_take_drop.
  rewrite app_assoc, take_app_le.
  2:{ rewrite length_app, !length_take, length_drop. lia. }
  rewrite take_ge.
  2:{ rewrite length_app, !length_take, length_drop. lia. }
  rewrite take_take. replace (c `min` n)%nat with c by lia.
  f_equal. rewrite take_drop_commute. f_equal. f_equal. lia.
Qed.

(** ** The first call, the end of the scan, and the cursor *)

Lemma gather_inv_example single parallel_send :
  gather_inv (ExecInitGather (example_plan single parallel_send)).
Proof. apply gather_inv_ExecInitGather. cbn. unfold INT_MAX. lia. Qed.

(** C1 as stated fails: in normal mode ([single_copy = false]) with one
    worker launched, the first part of [ExecGather] leaves
    [need_to_scan_locally] false. *)
Lemma need_to_scan_locally_false_in_normal_mode :
  single_copy (example_plan false false) = false /\
  exists w' s' launchedWorkers,
    ExecGather_initialize (example_world [[[Some [1]]]] [] false [])
                          (ExecInitGather (example_plan false false))
      = Ok (w', s', false, launchedWorkers) /\
    launchedWorkers = 1 /\
    need_to_scan_locally s' = false.
Proof.
  split; [reflexivity|]. do 3 eexists. split; [vm_compute; reflexivity|].
  split; reflexivity.
Qed.

(** C1, amended: after the first part of [ExecGather] on a node not yet
    initialized, [need_to_scan_locally] is true exactly when the workers do
    not send their tuples themselves and no worker was launched (no launch
    was tried, or none started); it is false whenever a worker was
    launched, whatever [single_copy] is. *)
Theorem need_to_scan_locally_after_initialize w s w' s' parallel_send launchedWorkers :
  gather_inv s -> initialized s = false ->
  ExecGather_initialize w s = Ok (w', s', parallel_send, launchedWorkers) ->
  (need_to_scan_locally s' = true <->
   parallel_send = false /\ ~ (launch_attempted w s /\ 0 < launched_by w s)).
Proof.
  intros Hinv Hi E. pose proof (gather_inv_reader_None s Hinv Hi) as Hnone.
  destruct (launch_attempted_dec w s) as [Hl|Hl].
  - rewrite (ExecGather_initialize_launch w s Hinv Hi Hl) in E.
    injection E as <- <- <- <-. unfold launched_state.
    pose proof (launched_by_range w s (proj1 (proj2 (proj2 Hinv)))) as Hk.
    destruct (Z.ltb_spec 0 (launched_by w s)) as [Hpos|Hzero];
      [|assert (launched_by w s = 0) as -> by lia];
      destruct (parallelWorker_sendTuple (ps_plan s)); cbn; rewrite ?Hnone; cbn;
      split; try done; try (by intros [? _]);
      try (intros [_ H]; exfalso; apply H; done);
      try (intros _; split; [done|]; intros [_ H]; lia).
  - rewrite (ExecGather_initialize_no_launch w s Hinv Hi Hl) in E.
    injection E as <- <- <- <-. cbn.
    destruct (negb (IsParallelWorker w) && parallelWorker_sendTuple (ps_plan s));
      cbn; split; try done; try (by intros [? _]).
    intros _. split; [done|]. by intros [? _].
Qed.

Lemma need_to_scan_locally_after_initialize_witness :
  need_to_scan_locally
    (launched_state (ExecInitGather (example_plan false false)) 1) = true <->
  false = false /\
  ~ (launch_attempted (example_world [[[Some [1]]]] [] false [])
                      (ExecInitGather (example_plan false false)) /\
     0 < launched_by (example_world [[[Some [1]]]] [] false [])
                     (ExecInitGather (example_plan false false))).
Proof.
  apply (need_to_scan_locally_after_initialize
           (example_world [[[Some [1]]]] [] false [])
           (ExecInitGather (example_plan false false))
           (launched_world (example_world [[[Some [1]]]] [] false [])
                           (ExecInitGather (example_plan false false)))
           _ false 1).
  - apply gather_inv_example.
  - reflexivity.
  - vm_compute. reflexivity.
Defined.

(** C3: once [ExecGather] has returned the empty slot, every later call
    returns the empty slot, as long as [ExecReScanGather] is not called;
    the node does not change any more. *)
Theorem ExecGather_empty_is_absorbing w s w1 s1 n :
  gather_inv s ->
  ExecGather w s = Ok (None, w1, s1) ->
  exists w2, ExecGather_n n w1 s1 = Ok (replicate n None, w2, s1).
Proof.
  intros Hinv E.
  destruct (ExecGather_total w s Hinv) as (slot & w' & s' & E' & _ & _ & Ho).
  rewrite E in E'. injection E' as <- <- <-.
  destruct (Ho eq_refl) as [Hover Hf].
  destruct (ExecGather_n_over n w1 s1 Hover Hf) as (w2 & E2 & _). eauto.
Qed.

Lemma ExecGather_empty_is_absorbing_witness :
  exists w1 s1 w2,
    ExecGather (example_world [[]] [] false [])
               (ExecInitGather (example_plan false false)) = Ok (None, w1, s1) /\
    ExecGather_n 3 w1 s1 = Ok ([None; None; None], w2, s1).
Proof.
  do 2 eexists.
  assert (E : ExecGather (example_world [[]] [] false [])
                (ExecInitGather (example_plan false false))
              = Ok (None,
                    log (EvExecProcNode None)
                      (log EvParallelFinish
                        (log (EvLaunchParallelWorkers 0)
                          (log (EvInitParallelPlan 2)
                               (example_world [] [] false [])))),
                    set_funnel_slot None
                      (set_need_to_scan_locally false
                        (launched_state (ExecInitGather (example_plan false false)) 0))))
    by (vm_compute; reflexivity).
  destruct (ExecGather_empty_is_absorbing _ _ _ _ 3 (gather_inv_example false false) E)
    as [w2 E2].
  exists w2. split; [exact E|exact E2].
Defined.

Lemma gather_readnext_loop_fail fuel w s nv e :
  reader_inv s -> reader s <> None -> 0 <= nv < INT_MAX ->
  gather_readnext_loop fuel w s nv = Fail e -> e = OutOfFuel.
Proof.
  revert w s nv. induction fuel as [|fuel IH]; intros w s nv Hinv Hr Hnv Hl.
  - by injection Hl.
  - cbn [gather_readnext_loop] in Hl.
    destruct (gather_readnext_body_turn w s nv Hinv Hr Hnv) as (wa & sa & k & E & T).
    rewrite E in Hl. cbn in Hl. destruct k as [nv'|tup]; [|discriminate].
    destruct (turn_continue_inv _ _ _ _ _ _ Hinv Hnv T) as (? & ? & ?).
    eapply IH; eauto.
Qed.

(** C5: in the loop of [gather_readnext], [Assert(nextreader < nreaders)]
    never fails and no read leaves the array. A turn that goes on leaves
    [nextreader < nreaders]; when the reader read was done, it is destroyed
    and taken out of the live part of the array, [nreaders] goes down by
    one, [nextreader] stays or, out of range, goes back to 0, and
    [nvisited] is not incremented. *)
Theorem nextreader_below_nreaders_at_every_read fuel w s nvisited :
  reader_inv s -> reader s <> None -> 0 <= nvisited < INT_MAX ->
  gather_readnext_loop fuel w s nvisited <> Fail AssertionFailed /\
  gather_readnext_loop fuel w s nvisited <> Fail OutOfBounds /\
  forall w' s' nvisited',
    gather_readnext_body w s nvisited = Ok (w', s', Continue nvisited') ->
    0 <= nextreader s' < nreaders s' /\ reader_inv s' /\ reader s' <> None /\
    forall arr rd w1,
      reader s = Some arr -> arr !! Z.to_nat (nextreader s) = Some rd ->
      TupleQueueReaderNext rd w = (None, true, w1) ->
      w' = DestroyTupleQueueReader rd w1 /\
      survivors s' = delete (Z.to_nat (nextreader s)) (survivors s) /\
      nreaders s' = nreaders s - 1 /\
      nextreader s' = (if nextreader s <? nreaders s - 1 then nextreader s else 0) /\
      nvisited' = nvisited.
Proof.
  intros Hinv Hr Hnv.
  split; [intros E; by apply gather_readnext_loop_fail in E|].
  split; [intros E; by apply gather_readnext_loop_fail in E|].
  intros w' s' nv' E.
  pose proof (gather_readnext_body_inv _ _ _ _ _ _ Hinv Hr Hnv E) as T.
  destruct (turn_continue_inv _ _ _ _ _ _ Hinv Hnv T) as (Hinv' & Hr' & Hnv').
  split.
  { destruct (reader s') as [arr'|] eqn:Ea; [|done]. apply (Hinv' arr' Ea). }
  split; [done|]. split; [done|].
  intros arr0 rd0 w0 Ha0 Hrd0 Hread0.
  turn_continue T nv'; rewrite Ha0 in Ha; injection Ha as <-;
    rewrite Hrd0 in Hrd; injection Hrd as <-;
    rewrite Hread0 in Hread; try discriminate Hread.
  injection Hread as <-.
  destruct (Hinv arr0 Ha0) as (Hc & Hn' & _).
  split; [done|]. split; [by apply survivors_after_done|].
  split; [apply nreaders_after_done|]. split; [|done].
  unfold after_done.
  destruct (Z.geb_spec (nextreader s) (nreaders s - 1)),
    (Z.ltb_spec (nextreader s) (nreaders s - 1)); cbn; lia.
Qed.

Lemma nextreader_below_nreaders_at_every_read_witness :
  gather_readnext_loop 5
    (launched_world (example_world [[[]; [Some [7]]]] [] false [])
                    (ExecInitGather (example_plan false false)))
    (launched_state (ExecInitGather (example_plan false false)) 2) 0
  <> Fail AssertionFailed.
Proof.
  apply (nextreader_below_nreaders_at_every_read 5
           (launched_world (example_world [[[]; [Some [7]]]] [] false [])
                           (ExecInitGather (example_plan false false)))
           (launched_state (ExecInitGather (example_plan false false)) 2) 0).
  - intros arr [= <-]. vm_compute. repeat split; discriminate.
  - discriminate.
  - vm_compute. split; [discriminate|reflexivity].
Defined.

(** C4: a turn of the loop of [gather_readnext] that reads a tuple returns
    it and leaves the node, so [nextreader], as it was; after a reader that
    is done [nextreader] stays or goes back to 0; it goes to the next
    reader only after a read that gives neither a tuple nor done. When the
    loop returns a tuple, [nextreader] is the index of the reader the tuple
    was read from, the last thing the loop did. *)
Theorem nextreader_sticky_on_tuple fuel w s nvisited :
  reader_inv s -> reader s <> None -> 0 <= nvisited < INT_MAX ->
  (forall arr rd tup done w1 w' s' k,
     reader s = Some arr -> arr !! Z.to_nat (nextreader s) = Some rd ->
     TupleQueueReaderNext rd w = (tup, done, w1) ->
     gather_readnext_body w s nvisited = Ok (w', s', k) ->
     (forall t, tup = Some t -> k = Return (Some t) /\ s' = s /\ w' = w1) /\
     (done = true -> nextreader s' = nextreader s \/ nextreader s' = 0) /\
     (tup = None -> done = false ->
      nextreader s' = (nextreader s + 1) mod nreaders s) /\
     (nextreader s < nextreader s' -> tup = None /\ done = false)) /\
  (forall t w' s',
     gather_readnext_loop fuel w s nvisited = Ok (Some t, w', s') ->
     exists arr rd,
       reader s' = Some arr /\ arr !! Z.to_nat (nextreader s') = Some rd /\
       last (trace w') = Some (EvTupleQueueReaderNext rd (Some t) false)).
Proof.
  intros Hinv Hr Hnv. split.
  - intros arr0 rd0 tup done w0 w' s' k Ha0 Hrd0 Hread0 E.
    pose proof (gather_readnext_body_inv _ _ _ _ _ _ Hinv Hr Hnv E) as T.
    destruct (Hinv arr0 Ha0) as (Hc & Hn' & _).
    assert (Hadv : nextreader (advance s) = (nextreader s + 1) mod nreaders s).
    { unfold advance. destruct (Z.geb_spec (nextreader s + 1) (nreaders s)); cbn.
      - replace (nextreader s + 1) with (nreaders s) by lia.
        by rewrite Z_mod_same_full.
      - rewrite Z.mod_small; lia. }
    assert (Hdone : nextreader (after_done arr0 s) = nextreader s
                    \/ nextreader (after_done arr0 s) = 0).
    { unfold after_done. destruct (_ >=? _); cbn; auto. }
    assert (Hmod : 0 <= (nextreader s + 1) mod nreaders s <= nextreader s + 1).
    { split; [apply Z.mod_pos_bound; lia|apply Z.mod_le; lia]. }
    turn_cases T; rewrite Ha0 in Ha; injection Ha as <-;
      rewrite Hrd0 in Hrd; injection Hrd as <-;
      rewrite Hread0 in Hread; injection Hread as -> -> <-;
      (split; [intros t0 [=]; try subst; done|]);
      (split; [intros; try done; cbn; auto|]);
      (split; [intros; try done|]);
      cbn; try lia; try done.
  - intros t0 w' s' E.
    refine (gather_readnext_loop_rule
      (fun _ s1 nv1 => reader_inv s1 /\ reader s1 <> None /\ 0 <= nv1 < INT_MAX)
      (fun r w' s' => r = Some t0 ->
         exists arr rd,
           reader s' = Some arr /\ arr !! Z.to_nat (nextreader s') = Some rd /\
           last (trace w') = Some (EvTupleQueueReaderNext rd (Some t0) false))
      _ _ _ fuel w s nvisited (Some t0) w' s' _ E eq_refl).
    + tauto.
    + intros wa sa nva wb sb nvb (I & R & N) T. eapply turn_continue_inv; eauto.
    + intros wa sa nva wb sb r0 (I & R & N) T Er. subst r0.
      remember (Return (Some t0)) as k eqn:Ek.
      turn_cases T; try discriminate Ek. injection Ek as ->.
      exists arr, rd. split; [done|]. split; [done|].
      destruct (TupleQueueReaderNext_world _ _ _ _ _ Hread) as [_ ->].
      apply last_snoc.
    + done.
Qed.

(** ** Fairness of the polling *)

Lemma survivors_lookup s arr rd :
  reader s = Some arr -> 0 <= nextreader s < nreaders s ->
  arr !! Z.to_nat (nextreader s) = Some rd ->
  survivors s !! Z.to_nat (nextreader s) = Some rd.
Proof.
  intros Ha Hc Hrd. unfold survivors. rewrite Ha.
  rewrite lookup_take_lt by lia. done.
Qed.

Lemma length_survivors s arr :
  reader s = Some arr -> 0 <= nreaders s <= Z.of_nat (length arr) ->
  length (survivors s) = Z.to_nat (nreaders s).
Proof. intros Ha Hn. unfold survivors. rewrite Ha, length_take. lia. Qed.

Lemma cursor_order_head s arr rd :
  reader_inv s -> reader s = Some arr ->
  arr !! Z.to_nat (nextreader s) = Some rd ->
  cursor_order s =
    rd :: drop (S (Z.to_nat (nextreader s))) (survivors s)
          ++ take (Z.to_nat (nextreader s)) (survivors s).
Proof.
  intros Hinv Ha Hrd. destruct (Hinv arr Ha) as (Hc & Hn & _).
  unfold cursor_order.
  rewrite (drop_S _ rd) by (by apply (survivors_lookup s arr)). done.
Qed.

Lemma cursor_order_advance s arr rd :
  reader_inv s -> reader s = Some arr ->
  arr !! Z.to_nat (nextreader s) = Some rd ->
  cursor_order (advance s) =
    (drop (S (Z.to_nat (nextreader s))) (survivors s)
     ++ take (Z.to_nat (nextreader s)) (survivors s)) ++ [rd].
Proof.
  intros Hinv Ha Hrd. destruct (Hinv arr Ha) as (Hc & Hn & _).
  pose proof (survivors_lookup s arr rd Ha Hc Hrd) as Hl.
  pose proof (length_survivors s arr Ha ltac:(lia)) as Hlen.
  assert (Hs : survivors (advance s) = survivors s).
  { unfold survivors. by rewrite reader_advance, nreaders_advance. }
  unfold cursor_order. rewrite Hs. unfold advance.
  destruct (Z.geb_spec (nextreader s + 1) (nreaders s)); cbn [nextreader set_nextreader].
  - replace (Z.to_nat 0) with 0%nat by lia. rewrite drop_0, take_0, app_nil_r.
    rewrite drop_ge by lia. cbn [app].
    rewrite <- (take_drop (Z.to_nat (nextreader s)) (survivors s)) at 1.
    f_equal. rewrite (drop_S _ rd) by done. rewrite drop_ge by lia. done.
  - replace (Z.to_nat (nextreader s + 1)) with (S (Z.to_nat (nextreader s))) by lia.
    rewrite <- app_assoc. f_equal. by apply take_S_r.
Qed.

Lemma cursor_order_after_done s arr rd :
  reader_inv s -> reader s = Some arr -> 1 < nreaders s ->
  arr !! Z.to_nat (nextreader s) = Some rd ->
  cursor_order (after_done arr s) =
    drop (S (Z.to_nat (nextreader s))) (survivors s)
    ++ take (Z.to_nat (nextreader s)) (survivors s).
Proof.
  intros Hinv Ha Hn1 Hrd. destruct (Hinv arr Ha) as (Hc & Hn & _).
  pose proof (length_survivors s arr Ha ltac:(lia)) as Hlen.
  unfold cursor_order. rewrite survivors_after_done by done.
  rewrite delete_take_drop.
  set (c := Z.to_nat (nextreader s)) in *. set (l := survivors s) in *.
  assert (Hlt : length (take c l) = c) by (rewrite length_take; lia).
  unfold after_done.
  destruct (Z.geb_spec (nextreader s) (nreaders s - 1));
    cbn [nextreader set_nextreader set_reader set_nreaders].
  - replace (Z.to_nat 0) with 0%nat by lia. rewrite drop_0, take_0, app_nil_r.
    rewrite (drop_ge l (S c)) by lia. by rewrite app_nil_r.
  - fold c. rewrite drop_app_length', take_app_length' by done. done.
Qed.

Lemma elem_of_cursor_order s r : r ∈ cursor_order s <-> r ∈ survivors s.
Proof.
  unfold cursor_order.
  rewrite <- (take_drop (Z.to_nat (nextreader s)) (survivors s)) at 3.
  rewrite !elem_of_app. tauto.
Qed.

Lemma monitor_snoc m evs e : monitor m (evs ++ [e]) = monitor_step (monitor m evs) e.
Proof. unfold monitor. by rewrite foldl_app. Qed.

Lemma elem_of_take_app {A} (l k : list A) n x : x ∈ take n l -> x ∈ take n (l ++ k).
Proof. rewrite take_app, elem_of_app. auto. Qed.

Lemma elem_of_delete_ne {A} (l : list A) i x y :
  x ∈ l -> l !! i = Some y -> x <> y -> x ∈ delete i l.
Proof.
  intros Hx Hy Hne. rewrite (delete_Permutation l i y Hy) in Hx.
  apply elem_of_cons in Hx as [->|Hx]; done.
Qed.

(** One turn keeps the monitor and the node in agreement. *)
Lemma turn_fair m w s nv w' s' k :
  reader_inv s -> 0 <= nv -> turn w s nv w' s' k -> mon_inv m s nv ->
  exists evs, trace w' = trace w ++ evs /\
    mon_inv (monitor m evs) s'
            (match k with Continue nv' => nv' | Return _ => 0 end).
Proof.
  intros Hinv Hnv T (Hf & Hal & Hcov).
  turn_cases T; destruct (TupleQueueReaderNext_world _ _ _ _ _ Hread) as (_ & Ht);
    destruct (Hinv arr Ha) as (Hc & Hnr & _);
    pose proof (cursor_order_head s arr rd Hinv Ha Hrd) as Hco;
    pose proof (survivors_lookup s arr rd Ha Hc Hrd) as Hl;
    pose proof (length_survivors s arr Ha ltac:(lia)) as Hlen.
  - (* a tuple *)
    eexists. split; [exact Ht|]. cbn. split; [done|]. split; [done|].
    intros r Hr. by apply elem_of_nil in Hr.
  - (* the last reader is done *)
    exists ([EvTupleQueueReaderNext rd None true; EvDestroyTupleQueueReader rd]
            ++ (if is_null (pei s) then [] else [EvParallelFinish])).
    split.
    + assert (Hs0 : survivors (set_nreaders 0 s) = [])
        by (unfold survivors; cbn; by destruct (reader s)).
      rewrite trace_shutdown_world. cbn. rewrite Ht, Hs0. cbn.
      by rewrite <- !app_assoc.
    + assert (Hno : forall r, r ∈ alive m -> r = rd).
      { intros r Hr. apply Hal in Hr.
        assert (Hs1 : survivors s = [rd]).
        { destruct (survivors s) as [|x [|y l]] eqn:Es; cbn in Hlen; try lia.
          replace (Z.to_nat (nextreader s)) with 0%nat in Hl by lia.
          cbn in Hl. congruence. }
        rewrite Hs1 in Hr. by apply list_elem_of_singleton in Hr. }
      unfold monitor. rewrite foldl_app. cbn [foldl monitor_step].
      assert (Hm : forall m1, alive m1 = filter (fun x => x <> rd) (alive m) ->
                   fair m1 = true ->
                   mon_inv (foldl monitor_step m1
                              (if is_null (pei s) then [] else [EvParallelFinish]))
                           (set_reader None (set_nreaders 0 s)) 0).
      { intros m1 Hm1 Hf1.
        assert (mon_inv m1 (set_reader None (set_nreaders 0 s)) 0).
        { split; [done|]. split.
          - intros r. rewrite Hm1, list_elem_of_filter. intros [Hne Hr].
            by apply Hno in Hr.
          - intros r Hr. by apply elem_of_nil in Hr. }
        by destruct (is_null (pei s)). }
      by apply Hm.
  - (* a reader is done, others are left *)
    exists [EvTupleQueueReaderNext rd None true; EvDestroyTupleQueueReader rd].
    split; [cbn; by rewrite Ht, <- app_assoc|].
    unfold monitor, mon_inv. cbn [foldl monitor_step alive polled fair].
    split; [done|]. split.
    + intros r. rewrite list_elem_of_filter. intros [Hne Hr].
      rewrite survivors_after_done by done.
      eapply elem_of_delete_ne; eauto.
    + intros r Hr. apply list_elem_of_further, Hcov.
      rewrite (cursor_order_after_done s arr rd) in Hr by done.
      rewrite Hco, reverse_cons. by apply elem_of_take_app.
  - (* nothing yet, and readers not yet visited *)
    eexists. split; [exact Ht|]. cbn. split; [done|]. split.
    + intros r Hr. unfold survivors. rewrite reader_advance, nreaders_advance.
      by apply Hal.
    + intros r Hr. rewrite (cursor_order_advance s arr rd) in Hr by done.
      rewrite reverse_snoc in Hr.
      replace (Z.to_nat (nv + 1)) with (S (Z.to_nat nv)) in Hr by lia.
      cbn in Hr. apply elem_of_cons in Hr as [->|Hr]; [by left|].
      right. apply Hcov. rewrite Hco, reverse_cons. by apply elem_of_take_app.
  - (* nothing yet, all visited, the leader scans *)
    eexists. split; [exact Ht|]. cbn. split; [done|]. split.
    + intros r Hr. unfold survivors. rewrite reader_advance, nreaders_advance.
      by apply Hal.
    + intros r Hr. by apply elem_of_nil in Hr.
  - (* nothing yet, all visited: wait *)
    exists [EvTupleQueueReaderNext rd None false; EvWaitLatch].
    split; [cbn; by rewrite Ht, <- app_assoc|].
    unfold monitor, mon_inv. cbn [foldl monitor_step alive polled fair].
    split; [|split].
    + rewrite Hf. cbn [andb]. apply forallb_forall. intros r Hr.
      apply list_elem_of_In in Hr. apply bool_decide_eq_true.
      pose proof (Hal r Hr) as Hs. apply elem_of_cursor_order in Hs.
      rewrite Hco in Hs. apply elem_of_cons in Hs as [->|Hs]; [by left|].
      right. apply Hcov. rewrite Hco, reverse_cons. apply elem_of_take_app.
      rewrite take_ge.
      2:{ rewrite length_reverse, length_app, length_drop, length_take. lia. }
      by apply elem_of_reverse.
    + intros r Hr. unfold survivors. rewrite reader_advance, nreaders_advance.
      by apply Hal.
    + intros r Hr. by apply elem_of_nil in Hr.
Qed.

Lemma monitor_app m evs evs' : monitor m (evs ++ evs') = monitor (monitor m evs) evs'.
Proof. unfold monitor. apply foldl_app. Qed.

Lemma gather_readnext_loop_fair m fuel w s nv r w' s' :
  reader_inv s -> reader s <> None -> 0 <= nv < INT_MAX -> mon_inv m s nv ->
  gather_readnext_loop fuel w s nv = Ok (r, w', s') ->
  exists evs, trace w' = trace w ++ evs /\ mon_inv (monitor m evs) s' 0.
Proof.
  intros Hinv Hr Hnv Hm.
  apply (gather_readnext_loop_rule
    (fun wa sa nva => (reader_inv sa /\ reader sa <> None /\ 0 <= nva < INT_MAX) /\
       exists evs, trace wa = trace w ++ evs /\ mon_inv (monitor m evs) sa nva)
    (fun _ wb sb => exists evs, trace wb = trace w ++ evs /\ mon_inv (monitor m evs) sb 0)).
  - tauto.
  - intros wa sa nva wb sb nvb ((I & R & N) & evs & Ht & Hmi) T.
    split; [eapply turn_continue_inv; eauto|].
    destruct (turn_fair _ _ _ _ _ _ _ I (proj1 N) T Hmi) as (evs' & Ht' & Hmi').
    exists (evs ++ evs'). rewrite Ht', Ht, app_assoc, monitor_app. done.
  - intros wa sa nva wb sb r0 ((I & R & N) & evs & Ht & Hmi) T.
    destruct (turn_fair _ _ _ _ _ _ _ I (proj1 N) T Hmi) as (evs' & Ht' & Hmi').
    exists (evs ++ evs'). rewrite Ht', Ht, app_assoc, monitor_app. done.
  - split; [done|]. exists []. by rewrite app_nil_r.
Qed.

(** What the monitor's verdict says about a trace. *)
Lemma monitor_fair_mono m evs : fair (monitor m evs) = true -> fair m = true.
Proof.
  revert m. induction evs as [|e evs IH]; intros m H; [done|].
  apply IH in H. destruct e; cbn in H; try done.
  by apply andb_true_iff in H as [? _].
Qed.

Lemma monitor_alive m evs r :
  r ∈ alive m -> EvDestroyTupleQueueReader r ∉ evs -> r ∈ alive (monitor m evs).
Proof.
  revert m. induction evs as [|e evs IH]; intros m Hr Hd; [done|].
  apply not_elem_of_cons in Hd as [Hne Hd].
  cbn. apply IH; [|done].
  destruct e; cbn [monitor_step alive]; try done.
  - by right.
  - apply list_elem_of_filter. split; [congruence|done].
Qed.

Lemma monitor_polled m lap r :
  EvWaitLatch ∉ lap -> r ∈ polled (monitor m lap) ->
  r ∈ polled m \/ exists tup done, EvTupleQueueReaderNext r tup done ∈ lap.
Proof.
  revert m. induction lap as [|e lap IH]; intros m Hw Hr; [by left|].
  apply not_elem_of_cons in Hw as [Hne Hw].
  cbn in Hr. apply IH in Hr; [|done].
  destruct Hr as [Hr|(tup & done & Hr)].
  - destruct e; cbn [monitor_step polled] in Hr; try (by left); try done.
    apply elem_of_cons in Hr as [->|Hr]; [|by left].
    right. do 2 eexists. by left.
  - right. exists tup, done. by right.
Qed.

Lemma monitor_polled_after_wait m pre :
  polled m = [] -> pre = [] \/ last pre = Some EvWaitLatch ->
  polled (monitor m pre) = [].
Proof.
  intros Hp [->|Hl]; [done|].
  destruct pre as [|e pre _] using rev_ind; [done|].
  rewrite last_snoc in Hl. injection Hl as ->.
  by rewrite monitor_snoc.
Qed.

Lemma monitor_fair_spec readers evs pre lap post rd :
  fair (monitor {| alive := readers; polled := []; fair := true |} evs) = true ->
  evs = pre ++ lap ++ EvWaitLatch :: post ->
  EvWaitLatch ∉ lap -> pre = [] \/ last pre = Some EvWaitLatch ->
  rd ∈ readers -> EvDestroyTupleQueueReader rd ∉ pre ++ lap ->
  exists tup done, EvTupleQueueReaderNext rd tup done ∈ lap.
Proof.
  intros Hf -> Hlap Hpre Hrd Hd.
  set (m0 := {| alive := readers; polled := []; fair := true |}) in *.
  rewrite app_assoc, monitor_app in Hf.
  change (EvWaitLatch :: post) with ([EvWaitLatch] ++ post) in Hf.
  rewrite monitor_app in Hf. apply monitor_fair_mono in Hf.
  cbn in Hf. apply andb_true_iff in Hf as [_ Hf].
  rewrite forallb_forall in Hf.
  assert (Ha : rd ∈ alive (monitor m0 (pre ++ lap))) by (by apply monitor_alive).
  apply list_elem_of_In, Hf, bool_decide_eq_true in Ha.
  rewrite monitor_app in Ha. apply monitor_polled in Ha; [|done].
  destruct Ha as [Ha|Ha]; [|done].
  rewrite monitor_polled_after_wait in Ha by done. by apply elem_of_nil in Ha.
Qed.

(** C8: in the events of one [gather_readnext], take a wait and the events
    [lap] since the wait before it, or since the start: every reader live at
    the start and not destroyed before this wait is polled in [lap]. As
    every [gather_readnext] starts with [nvisited = 0], this holds between
    two waits of different calls too. *)
Theorem every_survivor_polled_between_waits w s r w' s' evs pre lap post rd :
  reader_inv s -> reader s <> None ->
  gather_readnext w s = Ok (r, w', s') ->
  trace w' = trace w ++ evs ->
  evs = pre ++ lap ++ EvWaitLatch :: post ->
  EvWaitLatch ∉ lap -> pre = [] \/ last pre = Some EvWaitLatch ->
  rd ∈ survivors s -> EvDestroyTupleQueueReader rd ∉ pre ++ lap ->
  exists tup done, EvTupleQueueReaderNext rd tup done ∈ lap.
Proof.
  intros Hinv Hr E Ht Hevs Hlap Hpre Hrd Hd.
  set (m0 := {| alive := survivors s; polled := []; fair := true |}).
  assert (Hm0 : mon_inv m0 s 0).
  { split; [done|]. split; [done|]. intros x Hx. by apply elem_of_nil in Hx. }
  assert (Hnv : 0 <= 0 < INT_MAX) by (unfold INT_MAX; lia).
  destruct (gather_readnext_loop_fair m0 _ _ _ _ _ _ _ Hinv Hr Hnv Hm0 E)
    as (evs' & Ht' & Hf & _).
  rewrite Ht in Ht'. apply app_inv_head in Ht'. subst evs'.
  eapply monitor_fair_spec; eauto.
Qed.

(** ** The tuples a call obtains *)

(** The events of [gather_readnext] are polling events, and the one tuple
    read, if any, is the tuple returned. *)
Lemma gather_readnext_loop_events fuel w s nv r w' s' :
  reader_inv s -> reader s <> None -> 0 <= nv < INT_MAX ->
  gather_readnext_loop fuel w s nv = Ok (r, w', s') ->
  exists evs, trace w' = trace w ++ evs /\ Forall poll_event evs /\
    forall rd t0 d, EvTupleQueueReaderNext rd (Some t0) d ∈ evs -> r = Some t0.
Proof.
  intros Hinv Hr Hnv.
  apply (gather_readnext_loop_rule
    (fun wa sa nva => (reader_inv sa /\ reader sa <> None /\ 0 <= nva < INT_MAX) /\
       exists evs, trace wa = trace w ++ evs /\ Forall poll_event evs /\
         forall rd t0 d, EvTupleQueueReaderNext rd (Some t0) d ∉ evs)
    (fun r0 wb sb => exists evs, trace wb = trace w ++ evs /\ Forall poll_event evs /\
       forall rd t0 d, EvTupleQueueReaderNext rd (Some t0) d ∈ evs -> r0 = Some t0)).
  - tauto.
  - intros wa sa nva wb sb nvb ((I & R & N) & evs & Ht & Hp & Hno) T.
    split; [eapply turn_continue_inv; eauto|].
    destruct (turn_frame _ _ _ _ _ _ T) as (_ & _ & evs' & Ht' & Hp').
    exists (evs ++ evs'). split; [by rewrite Ht', Ht, app_assoc|].
    split; [by apply Forall_app|].
    intros rd0 t0 d Hin. apply elem_of_app in Hin as [Hin|Hin]; [by eapply Hno|].
    turn_continue T nvb;
      destruct (TupleQueueReaderNext_world _ _ _ _ _ Hread) as (_ & Hw1);
      cbn in Ht'; rewrite Hw1, <- ?app_assoc in Ht'; apply app_inv_head in Ht';
      subst evs'; cbn in Hin;
      repeat (apply elem_of_cons in Hin as [Hin|Hin]; [discriminate Hin|]);
      by apply elem_of_nil in Hin.
  - intros wa sa nva wb sb r0 ((I & R & N) & evs & Ht & Hp & Hno) T.
    destruct (turn_frame _ _ _ _ _ _ T) as (_ & _ & evs' & Ht' & Hp').
    exists (evs ++ evs'). split; [by rewrite Ht', Ht, app_assoc|].
    split; [by apply Forall_app|].
    intros rd0 t0 d Hin. apply elem_of_app in Hin as [Hin|Hin];
      [by apply Hno in Hin|].
    remember (Return r0) as k eqn:Ek. turn_cases T; try discriminate Ek;
      injection Ek as <-;
      destruct (TupleQueueReaderNext_world _ _ _ _ _ Hread) as (_ & Hw1).
    + rewrite Hw1 in Ht'. apply app_inv_head in Ht'. subst evs'.
      apply list_elem_of_singleton in Hin. by injection Hin as _ <- _.
    + rewrite trace_shutdown_world in Ht'. cbn in Ht'.
      rewrite Hw1, <- !app_assoc in Ht'. apply app_inv_head in Ht'. subst evs'.
      cbn in Hin. apply elem_of_cons in Hin as [Hin|Hin]; [discriminate Hin|].
      apply elem_of_cons in Hin as [Hin|Hin]; [discriminate Hin|].
      apply elem_of_app in Hin as [Hin|Hin].
      * apply list_elem_of_fmap in Hin as (? & ? & _). discriminate.
      * destruct (is_null (pei sa)); [by apply elem_of_nil in Hin|].
        apply list_elem_of_singleton in Hin. discriminate.
    + rewrite Hw1 in Ht'. apply app_inv_head in Ht'. subst evs'.
      apply list_elem_of_singleton in Hin. discriminate.
  - split; [done|]. exists []. rewrite app_nil_r. split; [done|].
    split; [constructor|]. intros rd0 t0 d Hin. by apply elem_of_nil in Hin.
Qed.

Lemma gather_readnext_events w s r w' s' :
  reader_inv s -> reader s <> None ->
  gather_readnext w s = Ok (r, w', s') ->
  exists evs, trace w' = trace w ++ evs /\ Forall poll_event evs /\
    forall rd t0 d, EvTupleQueueReaderNext rd (Some t0) d ∈ evs -> r = Some t0.
Proof.
  intros Hinv Hr. apply gather_readnext_loop_events; auto. unfold INT_MAX. lia.
Qed.

Lemma Forall_poll_event_not_local evs x :
  Forall poll_event evs -> EvExecProcNode x ∉ evs.
Proof.
  intros H Hin. rewrite Forall_forall in H. by apply H in Hin.
Qed.

Lemma call_trace w s slot w' s' :
  gather_inv s -> call w s slot w' s' ->
  exists evs, trace w' = trace w ++ evs /\
    (need_to_scan_locally s = false -> forall x, EvExecProcNode x ∉ evs) /\
    (forall t, obtained t evs -> slot = Some (ps_ProjInfo s t)).
Proof.
  intros Hinv C. destruct C as [H|t rest H E|H E|t w1 s1 H E|w1 s1 H E].
  - exists (if enable_statistic w
            then [EvLogStatistic (get_tuples s) (get_total_time s)] else []).
    unfold over_world. destruct (enable_statistic w); cbn; rewrite ?app_nil_r;
      (split; [done|]); split.
    + intros _ x Hin. apply list_elem_of_singleton in Hin. discriminate.
    + intros t [(rd & d & Hin)|Hin]; apply list_elem_of_singleton in Hin; discriminate.
    + intros _ x Hin. by apply elem_of_nil in Hin.
    + intros t [(rd & d & Hin)|Hin]; by apply elem_of_nil in Hin.
  - exists [EvExecProcNode (Some t)]. split; [done|]. split.
    + destruct H as (_ & _ & Hn). congruence.
    + intros t0 [(rd & d & Hin)|Hin]; apply list_elem_of_singleton in Hin;
        [discriminate|]. by injection Hin as ->.
  - exists (EvExecProcNode None ::
            if enable_statistic w
            then [EvLogStatistic (get_tuples s) (get_total_time s)] else []).
    split; [destruct (enable_statistic w); cbn; by rewrite <- ?app_assoc|].
    split.
    + destruct H as (_ & _ & Hn). congruence.
    + intros t0 [(rd & d & Hin)|Hin];
        (apply elem_of_cons in Hin as [Hin|Hin]; [discriminate|]);
        destruct (enable_statistic w);
        try (by apply elem_of_nil in Hin);
        apply list_elem_of_singleton in Hin; discriminate.
  - destruct H as (Hi & Hr & Hn & Hri).
    destruct (gather_readnext_events _ (set_funnel_slot None s) _ _ _ Hri Hr E)
      as (evs & Ht & Hp & Hone).
    destruct (stat_world_frame w) as (_ & _ & _ & _ & Ht0). rewrite Ht0 in Ht.
    exists evs. split; [by destruct (enable_statistic w)|]. split.
    + intros _ x. by apply Forall_poll_event_not_local.
    + intros t0 [(rd & d & Hin)|Hin].
      * apply Hone in Hin. by injection Hin as ->.
      * by apply (Forall_poll_event_not_local _ _ Hp) in Hin.
  - destruct H as (Hi & Hr & Hn & Hri).
    destruct (gather_readnext_events _ (set_funnel_slot None s) _ _ _ Hri Hr E)
      as (evs & Ht & Hp & Hone).
    destruct (stat_world_frame w) as (_ & _ & _ & _ & Ht0). rewrite Ht0 in Ht.
    exists (evs ++ if enable_statistic w
                   then [EvLogStatistic (get_tuples s1) (get_total_time s1)] else []).
    split; [destruct (enable_statistic w); cbn; rewrite Ht, ?app_nil_r, <- ?app_assoc;
            done|].
    split.
    + intros _ x Hin. apply elem_of_app in Hin as [Hin|Hin];
        [by apply (Forall_poll_event_not_local _ _ Hp) in Hin|].
      destruct (enable_statistic w); [|by apply elem_of_nil in Hin].
      apply list_elem_of_singleton in Hin. discriminate.
    + intros t0 [(rd & d & Hin)|Hin]; apply elem_of_app in Hin as [Hin|Hin].
      * apply Hone in Hin. discriminate.
      * destruct (enable_statistic w); [|by apply elem_of_nil in Hin].
        apply list_elem_of_singleton in Hin. discriminate.
      * by apply (Forall_poll_event_not_local _ _ Hp) in Hin.
      * destruct (enable_statistic w); [|by apply elem_of_nil in Hin].
        apply list_elem_of_singleton in Hin. discriminate.
Qed.

(** ** The qual is not read *)

Lemma gather_readnext_body_qual q w s nv :
  gather_readnext_body w (set_ps_qual q s) nv =
    match gather_readnext_body w s nv with
    | Ok (w', s', k) => Ok (w', set_ps_qual q s', k)
    | Fail e => Fail e
    end.
Proof.
  unfold gather_readnext_body, ExecShutdownGatherWorkers, memmove.
  cbn [reader nreaders nextreader need_to_scan_locally pei set_ps_qual
       set_nreaders set_nextreader set_reader].
  repeat (case_match; simplify_eq/=; try done).
Qed.

Lemma gather_readnext_loop_qual q fuel w s nv :
  gather_readnext_loop fuel w (set_ps_qual q s) nv =
    with_qual q (gather_readnext_loop fuel w s nv).
Proof.
  revert w s nv. induction fuel as [|fuel IH]; intros w s nv; [done|].
  cbn [gather_readnext_loop]. rewrite gather_readnext_body_qual.
  destruct (gather_readnext_body w s nv) as [[[w1 s1] [nv1|tup]]|e]; cbn; [|done..].
  apply IH.
Qed.

Lemma gather_readnext_qual q w s :
  gather_readnext w (set_ps_qual q s) = with_qual q (gather_readnext w s).
Proof. apply gather_readnext_loop_qual. Qed.

Lemma gather_getnext_loop_qual q fuel w s :
  gather_getnext_loop fuel w (set_ps_qual q s) =
    with_qual q (gather_getnext_loop fuel w s).
Proof.
  revert w s. induction fuel as [|fuel IH]; intros w s.
  - cbn. by destruct (negb (is_null (reader s)) || need_to_scan_locally s).
  - cbn [gather_getnext_loop reader need_to_scan_locally set_ps_qual].
    destruct (negb (is_null (reader s)) || need_to_scan_locally s); [|done].
    destruct (negb (is_null (reader s))).
    + rewrite gather_readnext_qual.
      destruct (gather_readnext w s) as [[[[t|] w1] s1]|e]; cbn; [done| |done].
      destruct (need_to_scan_locally s1); [|apply IH].
      destruct (ExecProcNode w1) as [[t|] w2]; [done|].
      apply (IH w2 (set_need_to_scan_locally false s1)).
    + cbn. destruct (need_to_scan_locally s); [|apply IH].
      destruct (ExecProcNode w) as [[t|] w2]; [done|].
      apply (IH w2 (set_need_to_scan_locally false s)).
Qed.

Lemma ExecGather_initialize_qual q w s :
  ExecGather_initialize w (set_ps_qual q s) =
    match ExecGather_initialize w s with
    | Ok (w', s', parallel_send, launchedWorkers) =>
        Ok (w', set_ps_qual q s', parallel_send, launchedWorkers)
    | Fail e => Fail e
    end.
Proof.
  unfold ExecGather_initialize, ExecShutdownGatherWorkers, LaunchParallelWorkers,
    create_readers.
  cbn [reader nreaders nextreader need_to_scan_locally pei initialized ps_plan
       set_ps_qual set_nreaders set_nextreader set_reader].
  repeat (case_match; simplify_eq/=; try done).
Qed.

Lemma ExecGather_qual q w s :
  ExecGather w (set_ps_qual q s) = with_qual q (ExecGather w s).
Proof.
  unfold ExecGather. rewrite ExecGather_initialize_qual.
  destruct (ExecGather_initialize w s) as [[[[w1 s1] ps] lw]|e]; [|done].
  destruct ps; [done|].
  cbn [need_to_scan_locally set_funnel_slot set_ps_qual].
  destruct (if enable_statistic w1 && negb (need_to_scan_locally s1)
            then GetCurrentTimestamp w1 else (0, w1)) as [b w2].
  change (set_funnel_slot None (set_ps_qual q s1))
    with (set_ps_qual q (set_funnel_slot None s1)).
  unfold gather_getnext. rewrite gather_getnext_loop_qual.
  destruct (gather_getnext_loop 2 w2 (set_funnel_slot None s1)) as [[[[t|] w3] s3]|e];
    cbn; [|done..].
  destruct (enable_statistic w3 && negb (need_to_scan_locally s3)); [|done].
  destruct (GetCurrentTimestamp w3) as [e3 w4].
  cbn. by destruct (get_total_time s3 =? -1).
Qed.

(** ** The events of the first part of ExecGather *)

Lemma trace_launched_world w s :
  trace (launched_world w s) = trace w ++ launch_events w s.
Proof.
  unfold launched_world, launch_events.
  destruct (0 <? launched_by w s);
    [destruct (parallelWorker_sendTuple (ps_plan s))|].
  - cbn. by rewrite <- app_assoc.
  - rewrite trace_create_readers. cbn. by rewrite <- !app_assoc.
  - cbn. by rewrite <- !app_assoc.
Qed.

Lemma Forall_init_event_launch w s : Forall init_event (launch_events w s).
Proof.
  unfold launch_events. apply Forall_app. split.
  - destruct (pei s); repeat constructor.
  - destruct (0 <? launched_by w s); [|repeat constructor].
    destruct (parallelWorker_sendTuple (ps_plan s)); [constructor|].
    apply Forall_init_event_create.
Qed.

Lemma ExecGather_initialize_trace w s w1 s1 parallel_send launchedWorkers :
  gather_inv s -> initialized s = false ->
  ExecGather_initialize w s = Ok (w1, s1, parallel_send, launchedWorkers) ->
  exists evs, trace w1 = trace w ++ evs /\ Forall init_event evs.
Proof.
  intros Hinv Hi E. destruct (launch_attempted_dec w s) as [Hl|Hl].
  - rewrite (ExecGather_initialize_launch w s Hinv Hi Hl) in E.
    injection E as <- <- <- <-.
    exists (launch_events w s). split; [apply trace_launched_world|].
    apply Forall_init_event_launch.
  - rewrite (ExecGather_initialize_no_launch w s Hinv Hi Hl) in E.
    injection E as <- <- <- <-. exists []. by rewrite app_nil_r.
Qed.

Lemma init_event_not_obtained evs t : Forall init_event evs -> ~ obtained t evs.
Proof.
  intros H [(rd & d & Hin)|Hin]; rewrite Forall_forall in H; by apply H in Hin.
Qed.

Lemma obtained_app t evs evs' :
  obtained t (evs ++ evs') -> obtained t evs \/ obtained t evs'.
Proof.
  intros [(rd & d & Hin)|Hin]; apply elem_of_app in Hin as [Hin|Hin];
    unfold obtained; eauto 6.
Qed.

(** C10: every tuple a call of [ExecGather] reads from a queue or pulls
    from the outer plan is what the call returns, projected; and the qual
    that [ExecInitGather] put in the node is not read: with any other qual
    in the node the call returns the same slot and leaves the same world
    and node. *)
Theorem obtained_tuple_is_returned_projected w s slot w' s' evs :
  gather_inv s ->
  ExecGather w s = Ok (slot, w', s') ->
  trace w' = trace w ++ evs ->
  (forall t, obtained t evs -> slot = Some (ps_ProjInfo s t)) /\
  (forall q, ExecGather w (set_ps_qual q s) = Ok (slot, w', set_ps_qual q s')).
Proof.
  intros Hinv E Ht. split.
  2:{ intros q. rewrite ExecGather_qual, E. reflexivity. }
  intros t Hob. destruct (initialized s) eqn:Hi.
  - pose proof (ExecGather_call_inv _ _ _ _ _ Hinv Hi E) as C.
    destruct (call_trace _ _ _ _ _ Hinv C) as (evs' & Ht' & _ & H).
    rewrite Ht in Ht'. apply app_inv_head in Ht'. subst evs'. by apply H.
  - destruct (ExecGather_initialize_total w s Hinv Hi)
      as (w1 & s1 & ps & lw & E1 & Hinv1 & Hi1 & _ & _ & _ & Hf & _).
    destruct (ExecGather_initialize_trace _ _ _ _ _ _ Hinv Hi E1) as (evs0 & Ht0 & Hev0).
    rewrite (ExecGather_first _ _ _ _ _ _ E1 Hi1) in E.
    assert (Hp : ps_ProjInfo s1 = ps_ProjInfo s)
      by (unfold state_fixed in Hf; by injection Hf).
    destruct ps.
    + injection E as <- <- <-. cbn in Ht. rewrite Ht0, <- app_assoc in Ht.
      apply app_inv_head in Ht. subst evs.
      apply obtained_app in Hob as [Hob|Hob];
        [by apply init_event_not_obtained in Hob|].
      destruct Hob as [(rd & d & Hin)|Hin];
        apply list_elem_of_singleton in Hin; discriminate.
    + pose proof (ExecGather_call_inv _ _ _ _ _ Hinv1 Hi1 E) as C.
      destruct (call_trace _ _ _ _ _ Hinv1 C) as (evs1 & Ht1 & _ & H).
      rewrite Ht1, Ht0, <- app_assoc in Ht. apply app_inv_head in Ht. subst evs.
      apply obtained_app in Hob as [Hob|Hob];
        [by apply init_event_not_obtained in Hob|].
      rewrite <- Hp. by apply H.
Qed.

(** ** Runs of calls *)

Lemma call_need_false w s slot w' s' :
  need_to_scan_locally s = false -> call w s slot w' s' ->
  need_to_scan_locally s' = false.
Proof.
  intros Hn C. destruct C as [H|t rest H E|H E|t w1 s1 H E|w1 s1 H E].
  - done.
  - destruct H as (_ & _ & H). congruence.
  - done.
  - destruct H as (Hi & Hr & _ & Hri).
    destruct (gather_readnext_post _ (set_funnel_slot None s) _ _ _ Hri Hr E)
      as ((_ & Hs & _) & _).
    destruct (state_rest_inv _ _ Hs) as (_ & _ & _ & _ & Hn1 & _). cbn in Hn1.
    destruct (enable_statistic w); [|cbn; congruence].
    unfold count_tuple. destruct (_ =? _); cbn; congruence.
  - destruct H as (Hi & Hr & _ & Hri).
    destruct (gather_readnext_post _ (set_funnel_slot None s) _ _ _ Hri Hr E)
      as ((_ & Hs & _) & _).
    destruct (state_rest_inv _ _ Hs) as (_ & _ & _ & _ & Hn1 & _). cbn in Hn1.
    cbn. congruence.
Qed.

(** Calls on an initialized node that does not scan locally never run the
    outer plan. *)
Lemma ExecGather_n_no_local n w s :
  gather_inv s -> initialized s = true -> need_to_scan_locally s = false ->
  exists slots w' s' evs,
    ExecGather_n n w s = Ok (slots, w', s') /\ trace w' = trace w ++ evs /\
    forall x, EvExecProcNode x ∉ evs.
Proof.
  revert w s. induction n as [|n IH]; intros w s Hinv Hi Hn.
  - exists [], w, s, []. cbn. rewrite app_nil_r. split; [done|]. split; [done|].
    intros x Hin. by apply elem_of_nil in Hin.
  - destruct (ExecGather_call w s Hinv Hi) as (slot & w1 & s1 & E & C).
    destruct (call_post _ _ _ _ _ Hinv C) as (Hinv1 & Hi1 & _).
    pose proof (call_need_false _ _ _ _ _ Hn C) as Hn1.
    destruct (call_trace _ _ _ _ _ Hinv C) as (evs1 & Ht1 & Hno1 & _).
    destruct (IH w1 s1 Hinv1 Hi1 Hn1) as (slots & w' & s' & evs & E' & Ht & Hno).
    exists (slot :: slots), w', s', (evs1 ++ evs).
    cbn. rewrite E. cbn. rewrite E'. cbn. split; [done|].
    split; [by rewrite Ht, Ht1, app_assoc|].
    intros x Hin. apply elem_of_app in Hin as [Hin|Hin];
      [by apply (Hno1 Hn) in Hin|by apply Hno in Hin].
Qed.

Lemma init_event_not_local evs x : Forall init_event evs -> EvExecProcNode x ∉ evs.
Proof. intros H Hin. rewrite Forall_forall in H. by apply H in Hin. Qed.

(** C6: in single-copy mode, when the first call launches at least one
    worker, no call of the scan runs the outer plan in the leader, however
    many calls are made, so also after the workers are exhausted; and
    every call returns. *)
Theorem single_copy_never_scans_locally w s n :
  gather_inv s -> initialized s = false ->
  single_copy (ps_plan s) = true ->
  launch_attempted w s -> 1 <= launched_by w s ->
  exists slots w' s' evs,
    ExecGather_n n w s = Ok (slots, w', s') /\ trace w' = trace w ++ evs /\
    forall slot, EvExecProcNode slot ∉ evs.
Proof.
  intros Hinv Hi _ Hl Hk. destruct n as [|n].
  { exists [], w, s, []. cbn. rewrite app_nil_r. split; [done|]. split; [done|].
    intros x Hin. by apply elem_of_nil in Hin. }
  pose proof (ExecGather_initialize_launch w s Hinv Hi Hl) as E1.
  pose proof (gather_inv_reader_None s Hinv Hi) as Hnone.
  set (s1 := launched_state s (launched_by w s)) in *.
  set (w1 := launched_world w s) in *.
  assert (Hinv1 : gather_inv s1).
  { apply gather_inv_launched_state; [done|].
    apply launched_by_range. apply Hinv. }
  destruct (launched_state_facts s (launched_by w s)) as (_ & Hi1 & Hn1 & Hp1).
  fold s1 in Hi1, Hn1, Hp1.
  assert (Hneed : need_to_scan_locally s1 = false).
  { rewrite Hn1. destruct (parallelWorker_sendTuple (ps_plan s)) eqn:Eps; [done|].
    subst s1. unfold launched_state. rewrite Eps.
    destruct (Z.ltb_spec 0 (launched_by w s)); [done|lia]. }
  pose proof (trace_launched_world w s) as Ht1. fold w1 in Ht1.
  pose proof (Forall_init_event_launch w s) as Hev1.
  cbn [ExecGather_n]. rewrite (ExecGather_first _ _ _ _ _ _ E1 Hi1).
  destruct (parallelWorker_sendTuple (ps_plan s)) eqn:Eps.
  - set (w2 := WaitForParallelWorkerDone _ _ w1).
    assert (Hinv2 : gather_inv (set_funnel_slot None s1))
      by (by apply (gather_inv_fields s1)).
    destruct (ExecGather_n_no_local n w2 (set_funnel_slot None s1) Hinv2 Hi1 Hneed)
      as (slots & w' & s' & evs & E' & Ht & Hno).
    exists (None :: slots), w', s',
      (launch_events w s
       ++ [EvWaitForParallelWorkerDone (launched_by w s) (launched_by w s =? 0)] ++ evs).
    split; [cbn; rewrite E'; done|].
    split; [rewrite Ht; subst w2; cbn [trace WaitForParallelWorkerDone log];
            rewrite Ht1; by rewrite <- !app_assoc|].
    intros x Hin. apply elem_of_app in Hin as [Hin|Hin];
      [by apply (init_event_not_local _ _ Hev1) in Hin|].
    apply elem_of_cons in Hin as [Hin|Hin]; [discriminate|]. by apply Hno in Hin.
  - destruct (ExecGather_n_no_local (S n) w1 s1 Hinv1 Hi1 Hneed)
      as (slots & w' & s' & evs & E' & Ht & Hno).
    cbn [ExecGather_n] in E'.
    exists slots, w', s', (launch_events w s ++ evs).
    split; [exact E'|]. split; [by rewrite Ht, Ht1, app_assoc|].
    intros x Hin. apply elem_of_app in Hin as [Hin|Hin];
      [by apply (init_event_not_local _ _ Hev1) in Hin|by apply Hno in Hin].
Qed.

Lemma single_copy_never_scans_locally_witness :
  exists slots w' s' evs,
    ExecGather_n 4 (example_world [[[Some [1]; None; Some [2]]]] [[9]] false [])
                 (ExecInitGather (example_plan true false)) = Ok (slots, w', s') /\
    trace w' = [] ++ evs /\
    forall slot, EvExecProcNode slot ∉ evs.
Proof.
  apply (single_copy_never_scans_locally
           (example_world [[[Some [1]; None; Some [2]]]] [[9]] false [])
           (ExecInitGather (example_plan true false)) 4).
  - apply gather_inv_example.
  - reflexivity.
  - reflexivity.
  - repeat split.
  - vm_compute. discriminate.
Defined.

(** Calls on a node that scans locally: the rows of the outer plan,
    projected, then the empty slot for ever. *)
Lemma ExecGather_n_local rows : forall w s m,
  gather_inv s -> scan_local s -> outer_rest w = rows ->
  exists w' s',
    ExecGather_n (length rows + S m) w s =
      Ok (map (fun t => Some (ps_ProjInfo s t)) rows ++ replicate (S m) None, w', s').
Proof.
  induction rows as [|t rows IH]; intros w s m Hinv Hl Ho.
  - cbn [length Nat.add ExecGather_n map app replicate].
    rewrite (ExecGather_local w s Hl), Ho. cbn [mbind result_bind].
    destruct Hl as (Hi & Hr & Hn).
    set (s1 := set_funnel_slot None (set_need_to_scan_locally false s)).
    assert (Hover : scan_over s1) by done.
    destruct (ExecGather_n_over m
                ((if enable_statistic w
                  then log (EvLogStatistic (get_tuples s) (get_total_time s))
                  else id) (log (EvExecProcNode None) w)) s1 Hover eq_refl)
      as (w' & -> & _).
    cbn. eauto.
  - cbn [length Nat.add ExecGather_n map app].
    rewrite (ExecGather_local w s Hl), Ho. cbn [mbind result_bind].
    assert (Hl1 : scan_local (set_funnel_slot None s)) by exact Hl.
    assert (Hinv1 : gather_inv (set_funnel_slot None s))
      by (by apply (gather_inv_fields s)).
    destruct (IH (log (EvExecProcNode (Some t)) (set_outer_rest rows w))
                 (set_funnel_slot None s) m Hinv1 Hl1 eq_refl) as (w' & s' & ->).
    cbn. eauto.
Qed.

(** C7 as stated fails: when the workers are to send their tuples
    themselves ([parallelWorker_sendTuple]) and none starts, the first call
    returns the empty slot, not the first row of the outer plan. *)
Lemma leader_returns_no_row_with_parallel_send :
  launch_attempted (example_world [[]] [[1]; [2]; [3]] false [])
                   (ExecInitGather (example_plan false true)) /\
  launched_by (example_world [[]] [[1]; [2]; [3]] false [])
              (ExecInitGather (example_plan false true)) = 0 /\
  exists w' s',
    ExecGather (example_world [[]] [[1]; [2]; [3]] false [])
               (ExecInitGather (example_plan false true)) = Ok (None, w', s').
Proof.
  split; [by repeat split|]. split; [reflexivity|].
  do 2 eexists. vm_compute. reflexivity.
Qed.

(** C7, amended: when the leader tries to launch workers, none starts, and
    the workers are not to send their tuples themselves, the calls return
    the rows of the outer plan in the leader, projected and in order, and
    then the empty slot. *)
Theorem leader_produces_all_rows_when_no_worker_starts w s rows m :
  gather_inv s -> initialized s = false ->
  launch_attempted w s -> launched_by w s = 0 ->
  parallelWorker_sendTuple (ps_plan s) = false ->
  outer_rest w = rows ->
  exists w' s',
    ExecGather_n (length rows + S m) w s =
      Ok (map (fun t => Some (ps_ProjInfo s t)) rows ++ replicate (S m) None, w', s').
Proof.
  intros Hinv Hi Hl Hk Hps Ho.
  pose proof (ExecGather_initialize_launch w s Hinv Hi Hl) as E1.
  rewrite Hps, Hk in E1.
  pose proof (gather_inv_reader_None s Hinv Hi) as Hnone.
  set (s1 := launched_state s 0) in *. set (w1 := launched_world w s) in *.
  assert (Hinv1 : gather_inv s1).
  { apply gather_inv_launched_state; [done|]. unfold INT_MAX. lia. }
  assert (Hloc : scan_local s1).
  { subst s1. unfold launched_state, scan_local. rewrite Hps. cbn. by rewrite Hnone. }
  assert (Ho1 : outer_rest w1 = rows).
  { unfold w1. destruct (launched_world_frame w s) as (_ & -> & _). done. }
  assert (Hfirst : forall k, ExecGather_n (S k) w s = ExecGather_n (S k) w1 s1).
  { intros k. cbn [ExecGather_n].
    by rewrite (ExecGather_first _ _ _ _ _ _ E1 (proj1 Hloc)). }
  rewrite Nat.add_succ_r, Hfirst, <- Nat.add_succ_r.
  destruct (ExecGather_n_local rows w1 s1 m Hinv1 Hloc Ho1) as (w' & s' & E).
  exists w', s'. rewrite E. reflexivity.
Qed.

Lemma leader_produces_all_rows_when_no_worker_starts_witness :
  exists w' s',
    ExecGather_n 4 (example_world [[]] [[1]; [2]; [3]] false [])
                 (ExecInitGather (example_plan false false)) =
      Ok ([Some [1]; Some [2]; Some [3]; None], w', s').
Proof.
  apply (leader_produces_all_rows_when_no_worker_starts
           (example_world [[]] [[1]; [2]; [3]] false [])
           (ExecInitGather (example_plan false false)) [[1]; [2]; [3]] 0).
  - apply gather_inv_example.
  - reflexivity.
  - by repeat split.
  - reflexivity.
  - reflexivity.
  - reflexivity.
Defined.

(** ** The statistics *)

Lemma wrap_int64_small z : - 2 ^ 63 <= z < 2 ^ 63 -> wrap_int64 z = z.
Proof. unfold wrap_int64. intros H. rewrite Z.mod_small; lia. Qed.


(** One call that returns a tuple from the workers, with the statistics
    on. *)
Lemma ExecGather_workers_statistic w s slot w' s' :
  gather_inv s -> scan_workers s -> enable_statistic w = true ->
  ExecGather w s = Ok (slot, w', s') -> is_Some slot ->
  gather_inv s' /\ scan_workers s' /\ enable_statistic w' = true /\
  clock w' = tl (tl (clock w)) /\
  get_tuples s' = wrap_uint64 (get_tuples s + 1) /\
  get_total_time s' =
    (if get_total_time s =? -1 then 0
     else wrap_int64 (get_total_time s
                      + wrap_int64 (hd 0 (tl (clock w)) - hd 0 (clock w)))).
Proof.
  intros Hinv Hw Hst E [t0 ->].
  pose proof Hw as (Hi & Hr & Hn & Hri).
  pose proof (ExecGather_call_inv _ _ _ _ _ Hinv Hi E) as C.
  destruct (call_post _ _ _ _ _ Hinv C) as (Hinv' & Hi' & Hws & _).
  pose proof (call_need_false _ _ _ _ _ Hn C) as Hn'.
  remember (Some t0) as slot eqn:Es.
  destruct C as [H|t rest H E1|H E1|t w1 s1 H E1|w1 s1 H E1]; try discriminate Es.
  - destruct H as (_ & H & _). congruence.
  - revert Hinv' Hi' Hws Hn'. rewrite Hst in *. cbn [set_clock clock] in *.
    intros Hinv' Hi' Hws Hn'.
    destruct (gather_readnext_post _ (set_funnel_slot None s) _ _ _ Hri Hr E1)
      as ((Hwr & Hsr & _) & Hri1 & Hr1).
    destruct (world_rest_inv _ _ Hwr) as (_ & _ & Hes & _ & _ & _ & Hc).
    destruct (state_rest_inv _ _ Hsr) as (_ & _ & _ & _ & _ & _ & _ & _ & Hgt & Hgtt).
    cbn in Hes, Hc, Hgt, Hgtt.
    split; [done|].
    assert (Hrd : reader (count_tuple (hd 0 (clock w)) (hd 0 (clock w1))
                            (set_funnel_slot (Some t) s1)) = reader s1).
    { unfold count_tuple. by destruct (_ =? _). }
    split.
    { split; [done|]. split; [by rewrite Hrd|]. split; [done|]. apply Hinv'. }
    split; [cbn; congruence|]. split; [cbn; by rewrite Hc|].
    unfold count_tuple. cbn [get_total_time get_tuples set_funnel_slot].
    rewrite Hgtt, Hgt, Hc.
    destruct (get_total_time s =? -1); cbn; done.
Qed.

Lemma total_cons x l : total (x :: l) = x + total l.
Proof. reflexivity. Qed.

(** A run of calls that all return tuples from the workers, with the
    statistics on and a clock that does not run backwards. *)
Lemma ExecGather_n_statistic n : forall w s lo slots w' s',
  gather_inv s -> scan_workers s -> enable_statistic w = true ->
  clock_from lo (clock w) -> (2 * n <= length (clock w))%nat ->
  0 <= lo -> get_total_time s = -1 \/ 0 <= get_total_time s <= lo ->
  0 <= get_tuples s < 2 ^ 64 ->
  ExecGather_n n w s = Ok (slots, w', s') -> Forall is_Some slots ->
  get_tuples s' = wrap_uint64 (get_tuples s + Z.of_nat n) /\
  get_total_time s' = accumulated (get_total_time s) (latencies n (clock w)).
Proof.
  induction n as [|n IH];
    intros w s lo slots w' s' Hinv Hw Hst Hck Hlen Hlo Htt Hgt E Hsome.
  - cbn in E. injection E as <- <- <-. cbn. split; [|done].
    unfold wrap_uint64. rewrite Z.add_0_r, Z.mod_small; lia.
  - cbn [ExecGather_n] in E.
    destruct (ExecGather w s) as [[[slot w1] s1]|e] eqn:E1; [|discriminate].
    cbn in E.
    destruct (ExecGather_n n w1 s1) as [[[slots1 w2] s2]|e] eqn:E2; [|discriminate].
    cbn in E. injection E as <- <- <-.
    apply Forall_cons in Hsome as [Hs1 Hsome].
    destruct (ExecGather_workers_statistic _ _ _ _ _ Hinv Hw Hst E1 Hs1)
      as (Hinv1 & Hw1 & Hst1 & Hc1 & Hgt1 & Htt1).
    destruct (clock w) as [|b [|e ticks]] eqn:Ec; cbn in Hlen; try lia.
    cbn in Hc1, Htt1. destruct Hck as (Hb & He & Hck).
    assert (Hlat : wrap_int64 (e - b) = e - b) by (apply wrap_int64_small; lia).
    assert (Hnew : 0 <= get_total_time s1 <= e /\
                   get_total_time s1
                   = (if get_total_time s =? -1 then 0 else get_total_time s + (e - b))).
    { rewrite Htt1, Hlat. destruct (Z.eqb_spec (get_total_time s) (-1)); [lia|].
      rewrite wrap_int64_small by lia. lia. }
    destruct Hnew as (Hrange & Hval).
    assert (Hgt1' : 0 <= get_tuples s1 < 2 ^ 64).
    { rewrite Hgt1. unfold wrap_uint64. apply Z.mod_pos_bound. lia. }
    destruct (IH w1 s1 e slots1 w2 s2 Hinv1 Hw1 Hst1) as (Hgt2 & Htt2); try done.
    + by rewrite Hc1.
    + rewrite Hc1. lia.
    + lia.
    + by right.
    + split.
      * rewrite Hgt2, Hgt1, wrap_uint64_idem. f_equal. lia.
      * rewrite Htt2, Hc1. cbn [latencies hd tl accumulated].
        destruct (latencies n ticks) as [|l rest] eqn:El.
        -- cbn. rewrite Hval. lia.
        -- cbn [accumulated]. rewrite total_cons, <- Hval.
           destruct (Z.eqb_spec (get_total_time s1) (-1)); lia.
Qed.

(** C9 as stated fails: with the statistics on, after one tuple whose read
    took from 10 to 25 on the clock, [get_tuples] is 1 but
    [get_total_time] is 0, not the latency 15. *)
Lemma get_total_time_drops_first_latency :
  latencies 1 [10; 25] = [15] /\
  exists w' s',
    ExecGather (example_world [[[Some [1]]]] [] true [10; 25])
               (ExecInitGather (example_plan false false)) = Ok (Some [1], w', s') /\
    get_tuples s' = 1 /\ get_total_time s' = 0.
Proof.
  split; [reflexivity|]. do 2 eexists. split; [vm_compute; reflexivity|].
  split; reflexivity.
Qed.

(** C9, amended: with the statistics on, a node fresh from
    [ExecInitGather] whose first call launches at least one worker that
    sends its tuples through the leader, and a clock that does not run
    backwards: after [n] calls that each returned a tuple, [get_tuples] is
    [n] (modulo 2^64) and [get_total_time] is the sum of the read latencies
    of the second to the [n]th tuple; the first tuple only sets
    [get_total_time] from -1 to 0, and with no tuple it stays -1. *)
Theorem get_tuples_and_get_total_time_after_n_tuples node w n slots w' s' :
  num_workers node <= INT_MAX -> parallelWorker_sendTuple node = false ->
  launch_attempted w (ExecInitGather node) ->
  1 <= launched_by w (ExecInitGather node) ->
  enable_statistic w = true ->
  clock_from 0 (clock w) -> (2 * n <= length (clock w))%nat ->
  ExecGather_n n w (ExecInitGather node) = Ok (slots, w', s') ->
  Forall is_Some slots ->
  get_tuples s' = wrap_uint64 (Z.of_nat n) /\
  get_total_time s' =
    match latencies n (clock w) with
    | [] => -1
    | _ :: rest => total rest
    end.
Proof.
  intros Hnw Hps Hl Hk Hst Hck Hlen E Hsome.
  set (s := ExecInitGather node) in *.
  pose proof (gather_inv_ExecInitGather node Hnw) as Hinv. fold s in Hinv.
  destruct n as [|n].
  { cbn in E. injection E as <- <- <-. done. }
  pose proof (ExecGather_initialize_launch w s Hinv eq_refl Hl) as E1.
  change (parallelWorker_sendTuple (ps_plan s)) with (parallelWorker_sendTuple node) in E1.
  rewrite Hps in E1.
  set (s1 := launched_state s (launched_by w s)) in *.
  set (w1 := launched_world w s) in *.
  assert (Hinv1 : gather_inv s1).
  { apply gather_inv_launched_state; [done|]. by apply launched_by_range. }
  assert (Hw1 : scan_workers s1).
  { unfold s1, launched_state.
    change (parallelWorker_sendTuple (ps_plan s)) with (parallelWorker_sendTuple node).
    rewrite Hps. destruct (Z.ltb_spec 0 (launched_by w s)); [|lia].
    split; [done|]. split; [done|]. split; [done|].
    intros arr [= <-]. cbn. rewrite length_seq.
    pose proof (launched_by_range w s Hnw). lia. }
  destruct (launched_world_frame w s) as (Hws & _ & Hc). fold w1 in Hws, Hc.
  assert (Hst1 : enable_statistic w1 = true).
  { unfold world_setting in Hws. injection Hws. congruence. }
  assert (Hfirst : ExecGather_n (S n) w s = ExecGather_n (S n) w1 s1).
  { cbn [ExecGather_n]. by rewrite (ExecGather_first _ _ _ _ _ _ E1 (proj1 Hw1)). }
  rewrite Hfirst in E.
  assert (Hfresh : get_tuples s1 = 0 /\ get_total_time s1 = -1).
  { unfold s1, launched_state.
    destruct (0 <? launched_by w s); [|done].
    by destruct (parallelWorker_sendTuple (ps_plan s)). }
  destruct Hfresh as (Hgt0 & Htt0).
  destruct (ExecGather_n_statistic (S n) w1 s1 0 slots w' s' Hinv1 Hw1 Hst1)
    as (Hgt & Htt); try done.
  - by rewrite Hc.
  - by rewrite Hc.
  - by left.
  - rewrite Hgt0. lia.
  - rewrite Hgt, Htt, Hc, Hgt0, Htt0. split; [done|].
    destruct (latencies (S n) (clock w)); cbn; lia.
Qed.

Lemma get_tuples_and_get_total_time_after_n_tuples_witness :
  exists slots w' s',
    ExecGather_n 3 (example_world [[[Some [1]; None; Some [2]; Some [3]]]] []
                                  true [10; 25; 30; 37; 40; 41])
                 (ExecInitGather (example_plan false false)) = Ok (slots, w', s') /\
    get_tuples s' = 3 /\ get_total_time s' = 8.
Proof.
  do 3 eexists.
  assert (E : ExecGather_n 3
                (example_world [[[Some [1]; None; Some [2]; Some [3]]]] []
                               true [10; 25; 30; 37; 40; 41])
                (ExecInitGather (example_plan false false))
              = Ok ([Some [1]; Some [2]; Some [3]],
                    ltac:(let r := eval vm_compute in
                      (match ExecGather_n 3
                         (example_world [[[Some [1]; None; Some [2]; Some [3]]]] []
                                        true [10; 25; 30; 37; 40; 41])
                         (ExecInitGather (example_plan false false)) with
                       | Ok (_, w', _) => w'
                       | Fail _ => example_world [] [] false []
                       end) in exact r),
                    ltac:(let r := eval vm_compute in
                      (match ExecGather_n 3
                         (example_world [[[Some [1]; None; Some [2]; Some [3]]]] []
                                        true [10; 25; 30; 37; 40; 41])
                         (ExecInitGather (example_plan false false)) with
                       | Ok (_, _, s') => s'
                       | Fail _ => ExecInitGather (example_plan false false)
                       end) in exact r)))
    by (vm_compute; reflexivity).
  split; [exact E|].
  apply (get_tuples_and_get_total_time_after_n_tuples
           (example_plan false false) _ 3 _ _ _) in E.
  - exact E.
  - cbn. unfold INT_MAX. lia.
  - reflexivity.
  - by repeat split.
  - vm_compute. discriminate.
  - reflexivity.
  - cbn. lia.
  - cbn. lia.
  - repeat constructor; eauto.
Defined.

(** ** The cursor, the waits and the projection on examples *)

Lemma reader_inv_example_started q1 q2 :
  reader_inv (example_started_state [q1; q2]).
Proof. intros arr [= <-]. vm_compute. repeat split; discriminate. Qed.

Lemma nextreader_sticky_on_tuple_witness :
  exists w' s',
    gather_readnext_loop 5 (example_started_world [[None]; [Some [7]; Some [8]]])
                         (example_started_state [[None]; [Some [7]; Some [8]]]) 0
      = Ok (Some [7], w', s') /\
    nextreader s' = 1 /\
    exists arr rd,
      reader s' = Some arr /\ arr !! Z.to_nat (nextreader s') = Some rd /\
      last (trace w') = Some (EvTupleQueueReaderNext rd (Some [7]) false).
Proof.
  do 2 eexists. split; [vm_compute; reflexivity|]. split; [reflexivity|].
  apply (proj2 (nextreader_sticky_on_tuple 5
                  (example_started_world [[None]; [Some [7]; Some [8]]])
                  (example_started_state [[None]; [Some [7]; Some [8]]]) 0
                  (reader_inv_example_started _ _)
                  ltac:(discriminate)
                  ltac:(vm_compute; split; [discriminate|reflexivity]))
               [7]).
  vm_compute. reflexivity.
Defined.

Lemma every_survivor_polled_between_waits_witness :
  exists tup done,
    EvTupleQueueReaderNext 1 tup done
    ∈ [EvTupleQueueReaderNext 0 None false; EvTupleQueueReaderNext 1 None false].
Proof.
  eapply (every_survivor_polled_between_waits
            (example_started_world [[None; Some [1]]; [None]])
            (example_started_state [[None; Some [1]]; [None]])
            _ _ _
            [EvTupleQueueReaderNext 0 None false; EvTupleQueueReaderNext 1 None false;
             EvWaitLatch; EvTupleQueueReaderNext 0 (Some [1]) false]
            []
            [EvTupleQueueReaderNext 0 None false; EvTupleQueueReaderNext 1 None false]
            [EvTupleQueueReaderNext 0 (Some [1]) false]
            1%nat).
  - apply reader_inv_example_started.
  - discriminate.
  - vm_compute. reflexivity.
  - vm_compute. reflexivity.
  - reflexivity.
  - intros H. repeat (apply elem_of_cons in H as [H|H]; [discriminate H|]).
    by apply elem_of_nil in H.
  - by left.
  - vm_compute. apply list_elem_of_further, list_elem_of_here.
  - intros H. repeat (apply elem_of_cons in H as [H|H]; [discriminate H|]).
    by apply elem_of_nil in H.
Defined.

Lemma obtained_tuple_is_returned_projected_witness :
  exists w' s',
    ExecGather (example_world [[]] [[1]] false [])
               (ExecInitGather (example_plan false false)) = Ok (Some [1], w', s') /\
    (forall t, obtained t [EvInitParallelPlan 2; EvLaunchParallelWorkers 0;
                           EvParallelFinish; EvExecProcNode (Some [1])] ->
               Some [1] = Some (ps_ProjInfo (ExecInitGather (example_plan false false)) t)) /\
    (forall q, ExecGather (example_world [[]] [[1]] false [])
                 (set_ps_qual q (ExecInitGather (example_plan false false)))
               = Ok (Some [1], w', set_ps_qual q s')).
Proof.
  do 2 eexists.
  assert (E : ExecGather (example_world [[]] [[1]] false [])
                         (ExecInitGather (example_plan false false))
              = Ok (Some [1],
                    log (EvExecProcNode (Some [1]))
                      (set_outer_rest []
                        (launched_world (example_world [[]] [[1]] false [])
                                        (ExecInitGather (example_plan false false)))),
                    set_funnel_slot None
                      (launched_state (ExecInitGather (example_plan false false)) 0)))
    by (vm_compute; reflexivity).
  split; [exact E|].
  apply (obtained_tuple_is_returned_projected _ _ _ _ _ _
           (gather_inv_example false false) E).
  vm_compute. reflexivity.
Defined.

(** ** ExecReScanGather and ExecShutdownGather *)

Lemma ExecReScanGather_ok w s :
  gather_inv s ->
  ExecReScanGather w s =
    Ok (ExecReScan (match pei s with
                    | Some _ => log (EvParallelReinitialize GatherNode)
                                    (shutdown_world w s)
                    | None => shutdown_world w s
                    end),
        set_initialized false (set_reader None s)).
Proof.
  intros (Hri & _). unfold ExecReScanGather.
  rewrite ExecShutdownGatherWorkers_ok by (intros arr Ha; apply (Hri arr Ha)).
  reflexivity.
Qed.

Lemma gather_inv_ExecReScanGather w s w' s' :
  gather_inv s -> ExecReScanGather w s = Ok (w', s') ->
  gather_inv s' /\ initialized s' = false.
Proof.
  intros Hinv E. rewrite (ExecReScanGather_ok w s Hinv) in E.
  injection E as <- <-. destruct Hinv as (Hri & Hr & Hnw & Hpei).
  unfold gather_inv, reader_inv. cbn. done.
Qed.

Lemma gather_inv_ExecShutdownGather w s w' s' :
  gather_inv s -> ExecShutdownGather w s = Ok (w', s') -> gather_inv s'.
Proof.
  intros (Hri & Hr & Hnw & Hpei) E. unfold ExecShutdownGather in E.
  rewrite ExecShutdownGatherWorkers_ok in E by (intros arr Ha; apply (Hri arr Ha)).
  cbn in E. destruct (pei s) eqn:Ep; injection E as <- <-;
    unfold gather_inv, reader_inv; cbn; rewrite ?Ep; done.
Qed.

Lemma gather_inv_ExecGather w s slot w' s' :
  gather_inv s -> ExecGather w s = Ok (slot, w', s') -> gather_inv s'.
Proof.
  intros Hinv E.
  destruct (ExecGather_total w s Hinv) as (slot1 & w1 & s1 & E1 & Hinv1 & _).
  rewrite E in E1. by injection E1 as <- <- <-.
Qed.

Lemma reinitializations_app evs evs' :
  reinitializations (evs ++ evs') = reinitializations evs ++ reinitializations evs'.
Proof.
  induction evs as [|e evs IH]; [done|]. destruct e; cbn; by rewrite ?IH.
Qed.

Lemma poll_event_call_event evs : Forall poll_event evs -> Forall call_event evs.
Proof. intros H. eapply Forall_impl; [exact H|]. by intros []. Qed.

Lemma call_events w s slot w' s' :
  gather_inv s -> call w s slot w' s' ->
  exists evs, trace w' = trace w ++ evs /\ Forall call_event evs.
Proof.
  intros Hinv C. destruct C as [H|t rest H E|H E|t w1 s1 H E|w1 s1 H E].
  - exists (if enable_statistic w
            then [EvLogStatistic (get_tuples s) (get_total_time s)] else []).
    unfold over_world. destruct (enable_statistic w); cbn; rewrite ?app_nil_r;
      split; try done; repeat constructor.
  - exists [EvExecProcNode (Some t)]. split; [done|]. repeat constructor.
  - exists (EvExecProcNode None ::
            if enable_statistic w
            then [EvLogStatistic (get_tuples s) (get_total_time s)] else []).
    split; [destruct (enable_statistic w); cbn; by rewrite <- ?app_assoc|].
    destruct (enable_statistic w); repeat constructor.
  - destruct H as (Hi & Hr & Hn & Hri).
    destruct (gather_readnext_events _ (set_funnel_slot None s) _ _ _ Hri Hr E)
      as (evs & Ht & Hp & _).
    destruct (stat_world_frame w) as (_ & _ & _ & _ & Ht0). rewrite Ht0 in Ht.
    exists evs. split; [by destruct (enable_statistic w)|].
    by apply poll_event_call_event.
  - destruct H as (Hi & Hr & Hn & Hri).
    destruct (gather_readnext_events _ (set_funnel_slot None s) _ _ _ Hri Hr E)
      as (evs & Ht & Hp & _).
    destruct (stat_world_frame w) as (_ & _ & _ & _ & Ht0). rewrite Ht0 in Ht.
    exists (evs ++ if enable_statistic w
                   then [EvLogStatistic (get_tuples s1) (get_total_time s1)] else []).
    split; [destruct (enable_statistic w); cbn; rewrite Ht, ?app_nil_r, <- ?app_assoc;
            done|].
    apply Forall_app. split; [by apply poll_event_call_event|].
    destruct (enable_statistic w); repeat constructor.
Qed.

Lemma reinitializations_call_event evs :
  Forall call_event evs -> reinitializations evs = [].
Proof.
  induction 1 as [|e evs He _ IH]; [done|]. by destruct e.
Qed.

Lemma reinitializations_destroy rs :
  reinitializations (map EvDestroyTupleQueueReader rs) = [].
Proof. induction rs; done. Qed.

Lemma reinitializations_create rs :
  reinitializations (map EvCreateTupleQueueReader rs) = [].
Proof. induction rs; done. Qed.

(** From a rescan to the end of the next call: with a parallel context at
    hand, [ExecReScanGather] calls [ExecParallelReinitialize] on the node,
    and the next [ExecGather], before it launches the workers again, calls
    it once more on the outer plan. *)
Theorem ExecParallelReinitialize_twice_per_rescan w s w1 s1 slot w2 s2 evs :
  gather_inv s -> pei s <> None ->
  ExecReScanGather w s = Ok (w1, s1) ->
  launch_attempted w1 s1 ->
  ExecGather w1 s1 = Ok (slot, w2, s2) ->
  trace w2 = trace w ++ evs ->
  reinitializations evs = [GatherNode; OuterPlan].
Proof.
  intros Hinv Hpei E1 Hl E2 Ht.
  destruct (gather_inv_ExecReScanGather _ _ _ _ Hinv E1) as (Hinv1 & Hi1).
  rewrite (ExecReScanGather_ok w s Hinv) in E1.
  destruct (pei s) as [p|] eqn:Ep; [clear Hpei|done].
  injection E1 as <- <-.
  set (s1 := set_initialized false (set_reader None s)) in *.
  set (w1 := ExecReScan _) in *.
  assert (Ht1 : trace w1 = trace w ++ map EvDestroyTupleQueueReader (survivors s)
                             ++ [EvParallelFinish; EvParallelReinitialize GatherNode;
                                 EvExecReScan]).
  { unfold w1. cbn. rewrite trace_shutdown_world, Ep. cbn.
    by rewrite <- !app_assoc. }
  pose proof (ExecGather_initialize_launch w1 s1 Hinv1 Hi1 Hl) as Ei.
  assert (Hi2 : initialized (launched_state s1 (launched_by w1 s1)) = true)
    by apply launched_state_facts.
  assert (Hinv2 : gather_inv (launched_state s1 (launched_by w1 s1))).
  { apply gather_inv_launched_state; [done|]. apply launched_by_range, Hinv1. }
  rewrite (ExecGather_first _ _ _ _ _ _ Ei Hi2) in E2.
  assert (Hle : reinitializations (launch_events w1 s1) = [OuterPlan]).
  { unfold launch_events. change (pei s1) with (pei s). rewrite Ep.
    cbn [reinitializations app]. destruct (0 <? launched_by w1 s1); [|done].
    destruct (parallelWorker_sendTuple (ps_plan s1)); [done|].
    by rewrite reinitializations_create. }
  assert (Hall : exists evs2, trace w2 = trace (launched_world w1 s1) ++ evs2
                              /\ reinitializations evs2 = []).
  { destruct (parallelWorker_sendTuple (ps_plan s1)).
    - injection E2 as <- <- <-. eexists. split; [reflexivity|done].
    - pose proof (ExecGather_call_inv _ _ _ _ _ Hinv2 Hi2 E2) as C.
      destruct (call_events _ _ _ _ _ Hinv2 C) as (evs2 & Ht2 & Hev).
      exists evs2. split; [done|]. by apply reinitializations_call_event. }
  destruct Hall as (evs2 & Ht2 & Hr2).
  rewrite Ht2, trace_launched_world, Ht1, <- !app_assoc in Ht.
  apply app_inv_head in Ht. subst evs.
  rewrite !reinitializations_app, reinitializations_destroy, Hle, Hr2. done.
Qed.

(** ** Every tuple of the scan is returned once *)

Lemma queue_tuples_insert (qs : list TupleQueue) (r : nat) x q :
  qs !! r = Some (x :: q) ->
  queue_tuples qs ≡ₚ tuple_list x ++ queue_tuples (<[r := q]> qs).
Proof.
  revert r. induction qs as [|q0 qs IH]; intros [|r] H; try discriminate.
  - injection H as ->. cbn [queue_tuples].
    change (<[0%nat := q]> ((x :: q) :: qs)) with (q :: qs). cbn [queue_tuples].
    destruct x; cbn; done.
  - change (<[S r := q]> (q0 :: qs)) with (q0 :: <[r := q]> qs).
    cbn [queue_tuples]. rewrite (IH r H).
    rewrite !app_assoc. f_equiv. apply Permutation_app_comm.
Qed.

Lemma TupleQueueReaderNext_tuples r w tup done w1 :
  TupleQueueReaderNext r w = (tup, done, w1) ->
  queue_tuples (tqueue w) ≡ₚ tuple_list tup ++ queue_tuples (tqueue w1).
Proof.
  intros H.
  destruct (TupleQueueReaderNext_cases r w)
    as [(t & q & Hq & E)|[(q & Hq & E)|(_ & E)]];
    rewrite E in H; injection H as <- <- <-; cbn [tqueue log set_queues].
  - apply (queue_tuples_insert _ _ (Some t) _ Hq).
  - apply (queue_tuples_insert _ _ None _ Hq).
  - done.
Qed.

Lemma TupleQueueReaderNext_drain r w tup done w1 :
  TupleQueueReaderNext r w = (tup, done, w1) ->
  (done = true -> tqueue w1 = tqueue w /\ forall q, tqueue w !! r = Some q -> q = []) /\
  (forall (i : nat) q, tqueue w1 !! i = Some q -> i <> r -> tqueue w !! i = Some q).
Proof.
  intros H.
  destruct (TupleQueueReaderNext_cases r w)
    as [(t & q & Hq & E)|[(q & Hq & E)|(Hq & E)]];
    rewrite E in H; injection H as <- <- <-; cbn [tqueue log set_queues].
  - split; [done|]. intros i q' Hi Hne. by rewrite list_lookup_insert_ne in Hi.
  - split; [done|]. intros i q' Hi Hne. by rewrite list_lookup_insert_ne in Hi.
  - split; [|done]. intros _. split; [done|]. intros q Hq'.
    destruct Hq as [Hq|Hq]; congruence.
Qed.

Lemma survivors_advance s : survivors (advance s) = survivors s.
Proof. unfold survivors. by rewrite reader_advance, nreaders_advance. Qed.

Lemma elem_of_survivors s arr rd :
  reader_inv s -> reader s = Some arr ->
  arr !! Z.to_nat (nextreader s) = Some rd -> rd ∈ survivors s.
Proof.
  intros Hinv Ha Hrd. destruct (Hinv arr Ha) as (Hc & _).
  eapply list_elem_of_lookup_2, survivors_lookup; eauto.
Qed.

(** A turn takes at most the tuple it returns out of the queues, and
    leaves the queues without a reader empty. *)
Lemma turn_tuples w s nv w' s' k :
  reader_inv s -> drained w s -> turn w s nv w' s' k ->
  drained w' s' /\
  queue_tuples (tqueue w) ≡ₚ
    tuple_list (match k with Return r => r | Continue _ => None end)
    ++ queue_tuples (tqueue w').
Proof.
  intros Hinv Hd T.
  turn_cases T;
    pose proof (TupleQueueReaderNext_tuples _ _ _ _ _ Hread) as Hp;
    destruct (TupleQueueReaderNext_drain _ _ _ _ _ Hread) as (Hdone & Hother);
    pose proof (elem_of_survivors _ _ _ Hinv Ha Hrd) as Hin.
  - split; [|by rewrite ?tqueue_shutdown_world]. intros i q Hi Hni. apply (Hd i q); [|done].
    apply Hother; [done|]. intros ->. done.
  - destruct (Hdone eq_refl) as (Hq & Hempty). split; [|by rewrite ?tqueue_shutdown_world].
    intros i q Hi _. rewrite tqueue_shutdown_world in Hi.
    change (tqueue (DestroyTupleQueueReader rd w1)) with (tqueue w1) in Hi.
    rewrite Hq in Hi. destruct (decide (i = rd)) as [->|Hne]; [by apply Hempty|].
    apply (Hd i q Hi). intros Hi'. unfold survivors in Hi'. rewrite Ha, Hn in Hi'.
    destruct (Hinv arr Ha) as (Hc & _).
    replace (Z.to_nat (nextreader s)) with 0%nat in Hrd by lia.
    change (Z.to_nat 1) with 1%nat in Hi'.
    destruct arr as [|r0 arr]; [done|]. cbn in Hrd, Hi'. injection Hrd as ->.
    apply list_elem_of_singleton in Hi'. done.
  - destruct (Hdone eq_refl) as (Hq & Hempty). split; [|by rewrite ?tqueue_shutdown_world].
    intros i q Hi Hni.
    change (tqueue (DestroyTupleQueueReader rd w1)) with (tqueue w1) in Hi.
    rewrite Hq in Hi. destruct (decide (i = rd)) as [->|Hne]; [by apply Hempty|].
    apply (Hd i q Hi). intros Hi'. apply Hni.
    destruct (Hinv arr Ha) as (Hc & Hlen & _).
    rewrite (survivors_after_done arr s Ha Hc Hlen).
    apply (elem_of_delete_ne _ _ _ rd Hi'); [|done].
    by apply (survivors_lookup s arr).
  - split; [|by rewrite ?tqueue_shutdown_world]. intros i q Hi Hni. rewrite survivors_advance in Hni.
    apply (Hd i q); [|done]. apply Hother; [done|]. intros ->. done.
  - split; [|by rewrite ?tqueue_shutdown_world]. intros i q Hi Hni. rewrite survivors_advance in Hni.
    apply (Hd i q); [|done]. apply Hother; [done|]. intros ->. done.
  - split; [|by rewrite ?tqueue_shutdown_world]. intros i q Hi Hni. rewrite survivors_advance in Hni.
    change (tqueue (WaitLatch w1)) with (tqueue w1) in Hi.
    apply (Hd i q); [|done]. apply Hother; [done|]. intros ->. done.
Qed.

Lemma gather_readnext_tuples w s r w' s' :
  reader_inv s -> reader s <> None -> drained w s ->
  gather_readnext w s = Ok (r, w', s') ->
  drained w' s' /\
  queue_tuples (tqueue w) ≡ₚ tuple_list r ++ queue_tuples (tqueue w').
Proof.
  intros Hinv Hr Hd.
  apply (gather_readnext_loop_rule
    (fun wa sa nva => (reader_inv sa /\ reader sa <> None /\ 0 <= nva < INT_MAX) /\
       drained wa sa /\ queue_tuples (tqueue w) ≡ₚ queue_tuples (tqueue wa))
    (fun r0 wb sb => drained wb sb /\
       queue_tuples (tqueue w) ≡ₚ tuple_list r0 ++ queue_tuples (tqueue wb))).
  - tauto.
  - intros wa sa nva wb sb nvb ((I & R & N) & D & P) T.
    split; [eapply turn_continue_inv; eauto|].
    destruct (turn_tuples _ _ _ _ _ _ I D T) as (D' & P').
    split; [done|]. by rewrite P, P'.
  - intros wa sa nva wb sb r0 ((I & R & N) & D & P) T.
    destruct (turn_tuples _ _ _ _ _ _ I D T) as (D' & P').
    split; [done|]. by rewrite P, P'.
  - split; [|done]. split; [done|]. split; [done|]. unfold INT_MAX. lia.
Qed.

Lemma queue_tuples_empty (qs : list TupleQueue) :
  (forall (i : nat) q, qs !! i = Some q -> q = []) -> queue_tuples qs = [].
Proof.
  induction qs as [|q qs IH]; intros H; [done|].
  cbn [queue_tuples]. rewrite (H 0%nat q eq_refl). cbn.
  apply IH. intros i q' Hi. by apply (H (S i)).
Qed.

(** With no reader left, the queues hold no tuple. *)
Lemma drained_over w s : drained w s -> reader s = None -> queue_tuples (tqueue w) = [].
Proof.
  intros Hd Hr. apply queue_tuples_empty. intros i q Hi. apply (Hd i q Hi).
  unfold survivors. rewrite Hr. apply not_elem_of_nil.
Qed.

Lemma survivors_fields s s' :
  reader s' = reader s -> nreaders s' = nreaders s -> survivors s' = survivors s.
Proof. unfold survivors. by intros -> ->. Qed.

Lemma drained_fields w s w' s' :
  tqueue w' = tqueue w -> reader s' = reader s -> nreaders s' = nreaders s ->
  drained w s -> drained w' s'.
Proof.
  intros Hq Hr Hn Hd i q Hi Hni. rewrite Hq in Hi.
  rewrite (survivors_fields s s' Hr Hn) in Hni. by apply (Hd i q).
Qed.

Lemma reader_count_tuple b e s : reader (count_tuple b e s) = reader s.
Proof. unfold count_tuple. by destruct (_ =? _). Qed.

Lemma nreaders_count_tuple b e s : nreaders (count_tuple b e s) = nreaders s.
Proof. unfold count_tuple. by destruct (_ =? _). Qed.

(** A call on a node that reads from workers returns a tuple of the
    queues, projected, and takes it out; when it returns the empty slot,
    the queues hold no tuple any more. *)
Lemma call_tuples w s slot w' s' :
  scan_workers s -> drained w s -> call w s slot w' s' ->
  exists r, slot = ps_ProjInfo s <$> r /\
    queue_tuples (tqueue w) ≡ₚ tuple_list r ++ queue_tuples (tqueue w') /\
    match r with
    | Some _ => scan_workers s' /\ drained w' s'
    | None => queue_tuples (tqueue w') = []
    end.
Proof.
  intros Hw Hd C. pose proof Hw as (Hi & Hr & Hn & Hri).
  destruct C as [H|t rest H E|H E|t w1 s1 H E|w1 s1 H E];
    try (destruct H as (_ & H & _); congruence).
  - assert (Hd0 : drained (if enable_statistic w then set_clock (tl (clock w)) w else w)
                          (set_funnel_slot None s)).
    { apply (drained_fields w s); [by destruct (enable_statistic w)|done|done|done]. }
    destruct (gather_readnext_tuples _ (set_funnel_slot None s) _ _ _ Hri Hr Hd0 E)
      as (Hd1 & Hp).
    destruct (gather_readnext_post _ (set_funnel_slot None s) _ _ _ Hri Hr E)
      as ((_ & Hs & _) & Hri1 & Hr1).
    destruct (state_rest_inv _ _ Hs) as (_ & _ & _ & Hi1 & Hn1 & _).
    cbn in Hi1, Hn1.
    exists (Some t). split; [done|].
    split; [by destruct (enable_statistic w)|].
    split.
    + unfold scan_workers, reader_inv.
      destruct (enable_statistic w); rewrite ?reader_count_tuple; cbn.
      * unfold count_tuple. destruct (_ =? _); cbn; split_and!; try congruence;
          exact Hri1.
      * split_and!; try congruence. exact Hri1.
    + destruct (enable_statistic w).
      * apply (drained_fields w1 s1); try done;
          [by rewrite reader_count_tuple|by rewrite nreaders_count_tuple].
      * by apply (drained_fields w1 s1).
  - assert (Hd0 : drained (if enable_statistic w then set_clock (tl (clock w)) w else w)
                          (set_funnel_slot None s)).
    { apply (drained_fields w s); [by destruct (enable_statistic w)|done|done|done]. }
    destruct (gather_readnext_tuples _ (set_funnel_slot None s) _ _ _ Hri Hr Hd0 E)
      as (Hd1 & Hp).
    destruct (gather_readnext_post _ (set_funnel_slot None s) _ _ _ Hri Hr E)
      as ((_ & Hs & _) & Hri1 & Hr1).
    destruct (state_rest_inv _ _ Hs) as (_ & _ & _ & Hi1 & Hn1 & _).
    cbn in Hi1, Hn1.
    destruct Hr1 as [Hr1|Hr1]; [|congruence].
    exists None. split; [done|].
    split; [by destruct (enable_statistic w)|].
    destruct (enable_statistic w); cbn [tqueue log]; by apply (drained_over w1 s1).
Qed.

Lemma ExecGather_n_S n w s slots w' s' :
  ExecGather_n (S n) w s = Ok (slots, w', s') ->
  exists slot w1 s1 rest,
    ExecGather w s = Ok (slot, w1, s1) /\ ExecGather_n n w1 s1 = Ok (rest, w', s') /\
    slots = slot :: rest.
Proof.
  cbn [ExecGather_n]. intros E.
  destruct (ExecGather w s) as [[[slot w1] s1]|] eqn:E1; [|discriminate].
  cbn in E. destruct (ExecGather_n n w1 s1) as [[[rest wr] sr]|] eqn:E2; [|discriminate].
  cbn in E. injection E as <- <- <-. by exists slot, w1, s1, rest.
Qed.

(** A run that ends with the empty slot: tuples, then the empty slot. *)
Lemma run_first (slot : option HeapTuple) rest slots :
  slot :: rest = slots ++ [None] -> Forall is_Some slots ->
  match slot with
  | None => slots = []
  | Some _ => exists slots', slots = slot :: slots' /\ rest = slots' ++ [None] /\
                             Forall is_Some slots'
  end.
Proof.
  intros E H. destruct slots as [|x slots]; cbn in E; injection E as -> ->.
  - done.
  - apply Forall_cons in H as (Hx & H). destruct x; [eauto|by destruct Hx].
Qed.

(** A run on workers returns every tuple of the queues once. *)
Lemma ExecGather_n_workers_tuples n : forall w s slots w' s',
  gather_inv s -> scan_workers s -> drained w s ->
  ExecGather_n (S n) w s = Ok (slots ++ [None], w', s') -> Forall is_Some slots ->
  slots ≡ₚ map (fun t => Some (ps_ProjInfo s t)) (queue_tuples (tqueue w)).
Proof.
  induction n as [|n IH]; intros w s slots w' s' Hinv Hw Hd E Hs;
    apply ExecGather_n_S in E as (slot & w1 & s1 & rest & E1 & E2 & Hsl);
    pose proof (ExecGather_call_inv _ _ _ _ _ Hinv (proj1 Hw) E1) as C;
    destruct (call_tuples _ _ _ _ _ Hw Hd C) as (r & -> & Hp & Hr);
    destruct (call_post _ _ _ _ _ Hinv C) as (Hinv1 & _ & _ & Hset & _);
    symmetry in Hsl; pose proof (run_first _ _ _ Hsl Hs) as Hf;
    destruct r as [t|]; cbn in Hf.
  - destruct Hf as (slots' & -> & -> & _). cbn in E2. by destruct slots'.
  - subst slots. rewrite Hr, app_nil_r in Hp. apply Permutation_nil_r in Hp.
    by rewrite Hp.
  - destruct Hf as (slots' & -> & -> & Hs'). destruct Hr as (Hw1 & Hd1).
    rewrite Hp. cbn. constructor.
    rewrite (IH _ _ _ _ _ Hinv1 Hw1 Hd1 E2 Hs').
    injection Hset as _ _ -> _ _. done.
  - subst slots. rewrite Hr, app_nil_r in Hp. apply Permutation_nil_r in Hp.
    by rewrite Hp.
Qed.

(** A run of the leader alone returns the rows of the outer plan in
    order. *)
Lemma ExecGather_n_local_rows n : forall w s slots w' s',
  gather_inv s -> scan_local s ->
  ExecGather_n (S n) w s = Ok (slots ++ [None], w', s') -> Forall is_Some slots ->
  slots = map (fun t => Some (ps_ProjInfo s t)) (outer_rest w).
Proof.
  induction n as [|n IH]; intros w s slots w' s' Hinv Hl E Hs;
    apply ExecGather_n_S in E as (slot & w1 & s1 & rest & E1 & E2 & Hsl);
    rewrite (ExecGather_local w s Hl) in E1;
    symmetry in Hsl;
    destruct (outer_rest w) as [|t rows] eqn:Ho; injection E1 as <- <- <-;
    pose proof (run_first _ _ _ Hsl Hs) as Hf; cbn in Hf; try done.
  - destruct Hf as (slots' & -> & -> & _). cbn in E2. by destruct slots'.
  - destruct Hf as (slots' & -> & -> & Hs'). cbn. f_equal.
    assert (Hinv1 : gather_inv (set_funnel_slot None s))
      by (by apply (gather_inv_fields s)).
    by rewrite (IH _ (set_funnel_slot None s) _ _ _ Hinv1 Hl E2 Hs').
Qed.

Lemma tqueue_launched_world w s :
  tqueue (launched_world w s) = launch_queues w s.
Proof.
  unfold launched_world. destruct (0 <? launched_by w s); [|done].
  destruct (parallelWorker_sendTuple (ps_plan s)); [done|].
  match goal with |- context [create_readers ?k ?w0] =>
    destruct (world_rest_create_readers k w0) as [_ ->] end.
  done.
Qed.

Lemma launched_state_workers w s :
  gather_inv s -> parallelWorker_sendTuple (ps_plan s) = false ->
  0 < launched_by w s ->
  scan_workers (launched_state s (launched_by w s)) /\
  drained (launched_world w s) (launched_state s (launched_by w s)).
Proof.
  intros Hinv Hps Hk.
  assert (Hinv1 : gather_inv (launched_state s (launched_by w s))).
  { apply gather_inv_launched_state; [done|]. apply launched_by_range, Hinv. }
  destruct Hinv1 as (Hri1 & _). revert Hri1.
  unfold drained, survivors, scan_workers. rewrite tqueue_launched_world.
  unfold launched_state. rewrite Hps.
  destruct (Z.ltb_spec 0 (launched_by w s)); [|lia]. cbn. intros Hri1.
  split; [done|]. intros i q Hi Hni. exfalso. apply Hni.
  apply lookup_lt_Some in Hi. unfold launched_by.
  rewrite Nat2Z.id, take_ge by (rewrite length_seq; lia).
  apply elem_of_seq. lia.
Qed.

Lemma ExecGather_n_first n w s w1 s1 launchedWorkers :
  ExecGather_initialize w s = Ok (w1, s1, false, launchedWorkers) ->
  initialized s1 = true ->
  ExecGather_n (S n) w s = ExecGather_n (S n) w1 s1.
Proof.
  intros E Hi. cbn [ExecGather_n]. by rewrite (ExecGather_first _ _ _ _ _ _ E Hi).
Qed.

(** A run of a node not yet initialized, up to the first empty slot,
    returns the tuples of the scan, each once, projected. *)
Theorem ExecGather_n_returns_scan_source n w s slots w' s' :
  gather_inv s -> initialized s = false ->
  ExecGather_n (S n) w s = Ok (slots ++ [None], w', s') -> Forall is_Some slots ->
  slots ≡ₚ map (fun t => Some (ps_ProjInfo s t)) (scan_source w s).
Proof.
  intros Hinv Hi E Hs.
  pose proof (gather_inv_reader_None s Hinv Hi) as Hnone.
  assert (Hsend : forall w1 s1 lw,
            ExecGather_initialize w s = Ok (w1, s1, true, lw) ->
            initialized s1 = true -> slots = []).
  { intros w1 s1 lw E1 Hi1.
    apply ExecGather_n_S in E as (slot & w2 & s2 & rest & E2 & _ & Hsl).
    rewrite (ExecGather_first _ _ _ _ _ _ E1 Hi1) in E2. injection E2 as <- <- <-.
    symmetry in Hsl. exact (run_first _ _ _ Hsl Hs). }
  destruct (launch_attempted_dec w s) as [Hl|Hl].
  - pose proof (ExecGather_initialize_launch w s Hinv Hi Hl) as E1.
    destruct (launched_state_facts s (launched_by w s)) as (Hf & Hi1 & Hn1 & _).
    assert (Hinv1 : gather_inv (launched_state s (launched_by w s))).
    { apply gather_inv_launched_state; [done|]. apply launched_by_range, Hinv. }
    assert (Hproj : ps_ProjInfo (launched_state s (launched_by w s)) = ps_ProjInfo s).
    { unfold state_fixed in Hf. by injection Hf. }
    destruct Hl as (Hpw & Hnw & Hpm). unfold scan_source. rewrite Hpw, Hpm.
    destruct (Z.ltb_spec 0 (num_workers (ps_plan s))); [|lia]. cbn [andb].
    destruct (parallelWorker_sendTuple (ps_plan s)) eqn:Eps.
    { by rewrite (Hsend _ _ _ E1 Hi1). }
    rewrite (ExecGather_n_first _ _ _ _ _ _ E1 Hi1) in E.
    destruct (Z.ltb_spec 0 (launched_by w s)) as [Hk|Hk].
    + destruct (launched_state_workers w s Hinv Eps Hk) as (Hw1 & Hd1).
      rewrite (ExecGather_n_workers_tuples _ _ _ _ _ _ Hinv1 Hw1 Hd1 E Hs).
      by rewrite tqueue_launched_world, Hproj.
    + assert (Hloc : scan_local (launched_state s (launched_by w s))).
      { unfold launched_state, scan_local. rewrite Eps.
        destruct (Z.ltb_spec 0 (launched_by w s)); [lia|]. cbn. by rewrite Hnone. }
      rewrite (ExecGather_n_local_rows _ _ _ _ _ _ Hinv1 Hloc E Hs).
      destruct (launched_world_frame w s) as (_ & -> & _). by rewrite Hproj.
  - pose proof (ExecGather_initialize_no_launch w s Hinv Hi Hl) as E1.
    set (s1 := set_initialized true _) in E1.
    assert (Hinv1 : gather_inv s1).
    { destruct Hinv as (Hri & Hr & Hnw & Hpei). unfold gather_inv, reader_inv.
      cbn. rewrite Hnone. done. }
    unfold scan_source.
    destruct (IsParallelWorker w) eqn:Hpw; cbn [negb andb] in E1.
    + rewrite (ExecGather_n_first _ _ _ _ _ _ E1 eq_refl) in E.
      assert (Hloc : scan_local s1) by (unfold scan_local; subst s1; cbn; by rewrite ?Hpw).
      by rewrite (ExecGather_n_local_rows _ _ _ _ _ _ Hinv1 Hloc E Hs).
    + destruct (parallelWorker_sendTuple (ps_plan s)) eqn:Eps.
      { by rewrite (Hsend _ _ _ E1 eq_refl). }
      rewrite (ExecGather_n_first _ _ _ _ _ _ E1 eq_refl) in E.
      assert (Hloc : scan_local s1)
        by (unfold scan_local; subst s1; cbn; by rewrite ?Hpw, ?Eps).
      rewrite (ExecGather_n_local_rows _ _ _ _ _ _ Hinv1 Hloc E Hs).
      replace ((0 <? num_workers (ps_plan s)) && IsInParallelMode w) with false; [done|].
      destruct (Z.ltb_spec 0 (num_workers (ps_plan s))); [|done].
      destruct (IsInParallelMode w) eqn:Hpm; [|done].
      exfalso. apply Hl. by repeat split.
Qed.

(** ** A rescan between two runs *)

Lemma ExecGather_n_setting n : forall w s slots w' s',
  gather_inv s -> initialized s = true ->
  ExecGather_n n w s = Ok (slots, w', s') ->
  gather_inv s' /\ state_setting s' = state_setting s.
Proof.
  induction n as [|n IH]; intros w s slots w' s' Hinv Hi E.
  - injection E as _ _ <-. done.
  - apply ExecGather_n_S in E as (slot & w1 & s1 & rest & E1 & E2 & _).
    pose proof (ExecGather_call_inv _ _ _ _ _ Hinv Hi E1) as C.
    destruct (call_post _ _ _ _ _ Hinv C) as (Hinv1 & Hi1 & _ & Hset & _).
    destruct (IH _ _ _ _ _ Hinv1 Hi1 E2) as (Hinv' & Hset'). split; [done|].
    congruence.
Qed.

Lemma state_setting_launched_state s k :
  ps_ProjInfo (launched_state s k) = ps_ProjInfo s /\
  pei (launched_state s k) <> None.
Proof.
  unfold launched_state.
  destruct (0 <? k); [destruct (parallelWorker_sendTuple (ps_plan s))|]; done.
Qed.

(** After a run in which the leader tried to launch workers, the parallel
    context is there. *)
Lemma ExecGather_n_launch n w s slots w' s' :
  gather_inv s -> initialized s = false -> launch_attempted w s ->
  ExecGather_n (S n) w s = Ok (slots, w', s') ->
  gather_inv s' /\ pei s' <> None /\ ps_ProjInfo s' = ps_ProjInfo s.
Proof.
  intros Hinv Hi Hl E.
  pose proof (ExecGather_initialize_launch w s Hinv Hi Hl) as E1.
  destruct (launched_state_facts s (launched_by w s)) as (_ & Hi1 & _).
  destruct (state_setting_launched_state s (launched_by w s)) as (Hproj & Hpei).
  assert (Hinv1 : gather_inv (launched_state s (launched_by w s))).
  { apply gather_inv_launched_state; [done|]. apply launched_by_range, Hinv. }
  destruct (parallelWorker_sendTuple (ps_plan s)).
  - apply ExecGather_n_S in E as (slot & w2 & s2 & rest & E2 & E3 & _).
    rewrite (ExecGather_first _ _ _ _ _ _ E1 Hi1) in E2. injection E2 as <- <- <-.
    assert (Hinv2 : gather_inv (set_funnel_slot None (launched_state s (launched_by w s))))
      by (by apply (gather_inv_fields (launched_state s (launched_by w s)))).
    destruct (ExecGather_n_setting _ _ _ _ _ _ Hinv2 Hi1 E3) as (Hinv' & Hset).
    split; [done|]. unfold state_setting in Hset. cbn in Hset.
    injection Hset as _ _ -> _ ->. done.
  - rewrite (ExecGather_n_first _ _ _ _ _ _ E1 Hi1) in E.
    destruct (ExecGather_n_setting _ _ _ _ _ _ Hinv1 Hi1 E) as (Hinv' & Hset).
    split; [done|]. unfold state_setting in Hset.
    injection Hset as _ _ -> _ ->. done.
Qed.

Lemma ExecReScanGather_reinitializations w s w' s' :
  gather_inv s -> ExecReScanGather w s = Ok (w', s') ->
  exists evs, trace w' = trace w ++ evs /\
    reinitializations evs = if is_null (pei s) then [] else [GatherNode].
Proof.
  intros Hinv E. rewrite (ExecReScanGather_ok w s Hinv) in E. injection E as <- _.
  exists (map EvDestroyTupleQueueReader (survivors s)
          ++ (if is_null (pei s) then []
              else [EvParallelFinish; EvParallelReinitialize GatherNode])
          ++ [EvExecReScan]).
  split.
  - destruct (pei s) eqn:Ep; cbn; rewrite trace_shutdown_world, Ep; cbn;
      by rewrite <- ?app_assoc.
  - rewrite !reinitializations_app, reinitializations_destroy.
    by destruct (pei s).
Qed.

(** A run up to the empty slot in which the leader tries to launch workers,
    then [ExecReScanGather], then a second run up to the empty slot: when the
    second scan is given the tuples of the first, the two runs return the
    same tuples, each as often. *)
Lemma runs_agree_across_rescan
    w0 s0 n1 slots1 w1 s1 w2 s2 n2 slots2 w3 s3 :
  gather_inv s0 -> initialized s0 = false -> launch_attempted w0 s0 ->
  ExecGather_n (S n1) w0 s0 = Ok (slots1 ++ [None], w1, s1) ->
  Forall is_Some slots1 ->
  ExecReScanGather w1 s1 = Ok (w2, s2) ->
  ExecGather_n (S n2) w2 s2 = Ok (slots2 ++ [None], w3, s3) ->
  Forall is_Some slots2 ->
  scan_source w2 s2 ≡ₚ scan_source w0 s0 ->
  slots2 ≡ₚ slots1.
Proof.
  intros Hinv0 Hi0 Hl E1 Hs1 E2 E3 Hs2 Hsrc.
  destruct (ExecGather_n_launch _ _ _ _ _ _ Hinv0 Hi0 Hl E1) as (Hinv1 & Hpei & Hproj).
  destruct (gather_inv_ExecReScanGather _ _ _ _ Hinv1 E2) as (Hinv2 & Hi2).
  rewrite (ExecGather_n_returns_scan_source _ _ _ _ _ _ Hinv0 Hi0 E1 Hs1).
  rewrite (ExecGather_n_returns_scan_source _ _ _ _ _ _ Hinv2 Hi2 E3 Hs2).
  rewrite (ExecReScanGather_ok w1 s1 Hinv1) in E2. injection E2 as _ <-.
  cbn [ps_ProjInfo set_initialized set_reader]. rewrite Hproj. by rewrite Hsrc.
Qed.


(** ** How many tuples a scan has still to return *)

Lemma turn_tqueue_count w s nv w' s' k :
  turn w s nv w' s' k ->
  length (queue_tuples (tqueue w))
  = (length (tuple_list (match k with Return r => r | Continue _ => None end))
     + length (queue_tuples (tqueue w')))%nat.
Proof.
  intros T.
  turn_cases T;
    pose proof (TupleQueueReaderNext_tuples _ _ _ _ _ Hread) as Hp;
    apply Permutation_length in Hp; rewrite length_app in Hp;
    rewrite ?tqueue_shutdown_world; exact Hp.
Qed.

Lemma gather_readnext_count w s r w' s' :
  reader_inv s -> reader s <> None ->
  gather_readnext w s = Ok (r, w', s') ->
  length (queue_tuples (tqueue w))
  = (length (tuple_list r) + length (queue_tuples (tqueue w')))%nat.
Proof.
  intros Hinv Hr.
  apply (gather_readnext_loop_rule
    (fun wa sa nva => (reader_inv sa /\ reader sa <> None /\ 0 <= nva < INT_MAX) /\
       length (queue_tuples (tqueue w)) = length (queue_tuples (tqueue wa)))
    (fun r0 wb sb => length (queue_tuples (tqueue w))
       = (length (tuple_list r0) + length (queue_tuples (tqueue wb)))%nat)).
  - tauto.
  - intros wa sa nva wb sb nvb ((I & R & N) & P) T.
    split; [eapply turn_continue_inv; eauto|].
    rewrite P. by rewrite (turn_tqueue_count _ _ _ _ _ _ T).
  - intros wa sa nva wb sb r0 ((I & R & N) & P) T.
    rewrite P. by rewrite (turn_tqueue_count _ _ _ _ _ _ T).
  - split; [|done]. split; [done|]. split; [done|]. unfold INT_MAX. lia.
Qed.

(** A call on an initialized node that returns a tuple leaves one tuple
    less to return. *)
Lemma call_remaining w s x w' s' :
  initialized s = true -> call w s (Some x) w' s' ->
  S (remaining w' s') = remaining w s.
Proof.
  intros Hi C. remember (Some x) as slot eqn:Es.
  destruct C as [H|t rest H E|H E|t w1 s1 H E|w1 s1 H E]; try discriminate Es.
  - destruct H as (_ & Hr & Hn). unfold remaining. cbn.
    rewrite Hi, Hr, Hn, E. done.
  - destruct H as (_ & Hr & Hn & Hri).
    destruct (gather_readnext_post _ (set_funnel_slot None s) _ _ _ Hri Hr E)
      as ((_ & Hs & _) & Hri1 & Hr1).
    destruct (state_rest_inv _ _ Hs) as (_ & _ & _ & Hi1 & _). cbn in Hi1.
    pose proof (gather_readnext_count _ (set_funnel_slot None s) _ _ _ Hri Hr E) as Hc.
    destruct (stat_world_frame w) as (_ & _ & Hq & _). rewrite Hq in Hc. cbn in Hc.
    unfold remaining. rewrite Hi.
    destruct (reader s) as [arr|] eqn:Ea; [|done].
    assert (Hi' : initialized (if enable_statistic w
                               then count_tuple (hd 0 (clock w)) (hd 0 (clock w1))
                                                (set_funnel_slot (Some t) s1)
                               else set_funnel_slot (Some t) s1) = true).
    { destruct (enable_statistic w); [unfold count_tuple; destruct (_ =? _)|];
        cbn; congruence. }
    assert (Hr' : reader (if enable_statistic w
                          then count_tuple (hd 0 (clock w)) (hd 0 (clock w1))
                                           (set_funnel_slot (Some t) s1)
                          else set_funnel_slot (Some t) s1) = reader s1).
    { destruct (enable_statistic w); [by rewrite reader_count_tuple|done]. }
    rewrite Hi', Hr'. destruct (reader s1) as [arr1|] eqn:Ea1; [|done].
    rewrite Hc. by destruct (enable_statistic w).
Qed.

Lemma length_tuples_of_le (q : TupleQueue) : (length (tuples_of q) <= length q)%nat.
Proof. induction q as [|[t|] q IH]; cbn; lia. Qed.

Lemma length_queue_tuples_le (qs : list TupleQueue) :
  (length (queue_tuples qs) <= queue_total qs)%nat.
Proof.
  induction qs as [|q qs IH]; cbn; [lia|].
  rewrite length_app. pose proof (length_tuples_of_le q). lia.
Qed.

Lemma queue_total_take n (qs : list TupleQueue) :
  (queue_total (take n qs) <= queue_total qs)%nat.
Proof.
  revert n. induction qs as [|q qs IH]; intros [|n]; cbn; try lia.
  specialize (IH n). lia.
Qed.

(** The first part of [ExecGather] leaves as many tuples to return. *)
Lemma remaining_initialize w s w1 s1 launchedWorkers :
  gather_inv s -> initialized s = false ->
  ExecGather_initialize w s = Ok (w1, s1, false, launchedWorkers) ->
  remaining w1 s1 = remaining w s.
Proof.
  intros Hinv Hi E.
  pose proof (gather_inv_reader_None s Hinv Hi) as Hnone.
  unfold remaining at 2. rewrite Hi. unfold scan_source.
  destruct (launch_attempted_dec w s) as [Hl|Hl].
  - rewrite (ExecGather_initialize_launch w s Hinv Hi Hl) in E.
    injection E as <- <- Eps _.
    destruct Hl as (Hpw & Hnw & Hpm). rewrite Hpw, Hpm, Eps.
    destruct (Z.ltb_spec 0 (num_workers (ps_plan s))); [|lia]. cbn [andb].
    unfold remaining.
    destruct (launched_state_facts s (launched_by w s)) as (_ & -> & _).
    destruct (Z.ltb_spec 0 (launched_by w s)) as [Hk|Hk].
    + destruct (launched_state_workers w s Hinv Eps Hk) as ((_ & Hr & _) & _).
      destruct (reader (launched_state s (launched_by w s))); [|done].
      by rewrite tqueue_launched_world.
    + unfold launched_state. rewrite Eps.
      destruct (Z.ltb_spec 0 (launched_by w s)); [lia|]. cbn. rewrite Hnone. cbn.
      by destruct (launched_world_frame w s) as (_ & -> & _).
  - rewrite (ExecGather_initialize_no_launch w s Hinv Hi Hl) in E.
    injection E as <- <- Eps _. unfold remaining. cbn. rewrite Hnone.
    destruct (IsParallelWorker w) eqn:Hpw; cbn in *; [done|].
    rewrite Eps. cbn.
    replace ((0 <? num_workers (ps_plan s)) && IsInParallelMode w) with false; [done|].
    destruct (Z.ltb_spec 0 (num_workers (ps_plan s))); [|done].
    destruct (IsInParallelMode w) eqn:Hpm; [|done].
    exfalso. apply Hl. by repeat split.
Qed.

(** Every call that returns a tuple leaves one tuple less to return. *)
Lemma ExecGather_remaining w s x w' s' :
  gather_inv s -> ExecGather w s = Ok (Some x, w', s') ->
  S (remaining w' s') = remaining w s.
Proof.
  intros Hinv E. destruct (initialized s) eqn:Hi.
  - apply (call_remaining _ _ x); [done|]. by apply ExecGather_call_inv.
  - destruct (ExecGather_initialize_total w s Hinv Hi)
      as (w1 & s1 & ps & lw & E1 & Hinv1 & Hi1 & _).
    rewrite (ExecGather_first _ _ _ _ _ _ E1 Hi1) in E.
    destruct ps; [discriminate|].
    rewrite <- (remaining_initialize _ _ _ _ _ Hinv Hi E1).
    apply (call_remaining _ _ x); [done|]. by apply ExecGather_call_inv.
Qed.

Lemma remaining_fuel w s : gather_inv s -> (remaining w s < ExecFinishGather_fuel w)%nat.
Proof.
  intros Hinv. unfold remaining, ExecFinishGather_fuel.
  pose proof (length_queue_tuples_le (tqueue w)).
  destruct (initialized s).
  - destruct (reader s); [lia|]. destruct (need_to_scan_locally s); lia.
  - unfold scan_source.
    pose proof (length_queue_tuples_le (launch_queues w s)).
    pose proof (queue_total_take (Z.to_nat (num_workers (ps_plan s))) (hd [] (launches w))).
    unfold launch_queues in *.
    destruct (IsParallelWorker w); [lia|].
    destruct (parallelWorker_sendTuple (ps_plan s)); [cbn; lia|].
    destruct (_ && _); lia.
Qed.

(** ** ExecFinishGather *)

Lemma ExecFinishGather_loop_total fuel : forall w s,
  gather_inv s -> (remaining w s < fuel)%nat ->
  exists w' s',
    ExecFinishGather_loop fuel w s = Ok (w', s') /\
    gather_inv s' /\ scan_over s' /\ funnel_slot s' = None.
Proof.
  induction fuel as [|fuel IH]; intros w s Hinv Hf; [lia|].
  cbn [ExecFinishGather_loop].
  destruct (ExecGather_total w s Hinv) as (slot & w1 & s1 & E & Hinv1 & _ & Hnone).
  rewrite E. cbn. destruct slot as [x|].
  - apply IH; [done|]. pose proof (ExecGather_remaining _ _ _ _ _ Hinv E). lia.
  - destruct (Hnone eq_refl) as (Ho & Hfs). by exists w1, s1.
Qed.

(** X1: on a node that has a parallel context, [ExecFinishGather] sets
    [executor_done], returns, and leaves the scan over: every later
    [ExecGather] returns the empty slot and changes the node no more. *)
Theorem ExecFinishGather_ends_the_scan w s :
  gather_inv s -> pei s <> None ->
  exists w' s',
    ExecFinishGather w s = Ok (true, w', s') /\
    gather_inv s' /\ scan_over s' /\
    forall n, exists w2, ExecGather_n n w' s' = Ok (replicate n None, w2, s').
Proof.
  intros Hinv Hpei. unfold ExecFinishGather.
  destruct (pei s) as [p|]; [|done].
  destruct (ExecFinishGather_loop_total (ExecFinishGather_fuel w) w s Hinv
              (remaining_fuel w s Hinv)) as (w' & s' & E & Hinv' & Ho & Hfs).
  rewrite E. exists w', s'. split; [done|]. split; [done|]. split; [done|].
  intros n. destruct (ExecGather_n_over n w' s' Ho Hfs) as (w2 & E2 & _). eauto.
Qed.

Lemma ExecFinishGather_ends_the_scan_witness :
  exists w' s',
    ExecFinishGather (example_started_world [[Some [1]; None; Some [2]]; [Some [3]]])
                     (example_started_state [[Some [1]; None; Some [2]]; [Some [3]]])
    = Ok (true, w', s') /\
    gather_inv s' /\ scan_over s' /\
    forall n, exists w2, ExecGather_n n w' s' = Ok (replicate n None, w2, s').
Proof.
  apply (ExecFinishGather_ends_the_scan
           (example_started_world [[Some [1]; None; Some [2]]; [Some [3]]])
           (example_started_state [[Some [1]; None; Some [2]]; [Some [3]]])).
  - apply gather_inv_launched_state; [apply gather_inv_example|].
    vm_compute. split; discriminate.
  - vm_compute. discriminate.
Defined.

Lemma ExecShutdownGather_ok w s :
  gather_inv s ->
  ExecShutdownGather w s =
    Ok (match pei s with
        | Some _ => log EvParallelCleanup (shutdown_world w s)
        | None => shutdown_world w s
        end,
        set_pei None (set_reader None s)).
Proof.
  intros (Hri & _). unfold ExecShutdownGather.
  rewrite ExecShutdownGatherWorkers_ok by (intros arr Ha; apply (Hri arr Ha)).
  cbn. destruct (pei s) eqn:Ep; [done|]. do 2 f_equal.
  destruct s; cbn in *; by subst.
Qed.

(** X2: [ExecFinishGather] on a node that has no parallel context reads
    through [node->pei == NULL]: so it is after [ExecShutdownGather],
    whatever the node was doing before. *)
Theorem ExecFinishGather_after_ExecShutdownGather w s w' s' :
  gather_inv s -> ExecShutdownGather w s = Ok (w', s') ->
  ExecFinishGather w' s' = Fail OutOfBounds.
Proof.
  intros Hinv E. rewrite (ExecShutdownGather_ok w s Hinv) in E.
  by injection E as <- <-.
Qed.

Lemma ExecFinishGather_after_ExecShutdownGather_witness :
  exists w' s',
    ExecShutdownGather (example_started_world [[Some [1]]; [Some [3]]])
                       (example_started_state [[Some [1]]; [Some [3]]]) = Ok (w', s') /\
    ExecFinishGather w' s' = Fail OutOfBounds.
Proof.
  do 2 eexists. split; [vm_compute; reflexivity|].
  eapply (ExecFinishGather_after_ExecShutdownGather
            (example_started_world [[Some [1]]; [Some [3]]])
            (example_started_state [[Some [1]]; [Some [3]]])).
  - apply gather_inv_launched_state; [apply gather_inv_example|].
    vm_compute. split; discriminate.
  - vm_compute. reflexivity.
Defined.

(** ** ExecShutdownGather *)

(** X3: after [ExecShutdownGather] the node has no reader and no parallel
    context, and a second [ExecShutdownGather] does nothing: no reader is
    destroyed again, the context is not finished or cleaned up again. *)
Theorem ExecShutdownGather_twice w s w1 s1 :
  gather_inv s -> ExecShutdownGather w s = Ok (w1, s1) ->
  reader s1 = None /\ pei s1 = None /\
  ExecShutdownGather w1 s1 = Ok (w1, s1).
Proof.
  intros Hinv E. pose proof (gather_inv_ExecShutdownGather _ _ _ _ Hinv E) as Hinv1.
  rewrite (ExecShutdownGather_ok w s Hinv) in E. injection E as <- <-.
  split; [done|]. split; [done|].
  rewrite (ExecShutdownGather_ok _ _ Hinv1). cbn [pei set_pei set_reader].
  unfold shutdown_world, survivors. cbn. reflexivity.
Qed.

Lemma ExecShutdownGather_twice_witness :
  exists w1 s1,
    ExecShutdownGather (example_started_world [[Some [1]]; [Some [3]]])
                       (example_started_state [[Some [1]]; [Some [3]]]) = Ok (w1, s1) /\
    reader s1 = None /\ pei s1 = None /\
    ExecShutdownGather w1 s1 = Ok (w1, s1).
Proof.
  do 2 eexists. split; [vm_compute; reflexivity|].
  eapply (ExecShutdownGather_twice
            (example_started_world [[Some [1]]; [Some [3]]])
            (example_started_state [[Some [1]]; [Some [3]]])).
  - apply gather_inv_launched_state; [apply gather_inv_example|].
    vm_compute. split; discriminate.
  - vm_compute. reflexivity.
Defined.

(** ** A scan comes to its end *)

Lemma call_drained w s slot w' s' :
  gather_inv s -> initialized s = true -> (reader s <> None -> drained w s) ->
  call w s slot w' s' ->
  (reader s' <> None -> drained w' s') /\ (slot = None -> remaining w s = 0%nat).
Proof.
  intros Hinv Hi Hd C. unfold remaining. rewrite Hi.
  destruct (call_post _ _ _ _ _ Hinv C) as (_ & _ & _ & _ & _ & Hover).
  destruct C as [H|t rest H E|H E|t w1 s1 H E|w1 s1 H E].
  - destruct H as (_ & Hr & Hn). cbn. rewrite Hr, Hn. done.
  - destruct H as (_ & Hr & Hn). cbn. rewrite Hr. done.
  - destruct H as (_ & Hr & Hn). cbn. rewrite Hr, Hn, E. done.
  - destruct (call_tuples w s _ _ _ H (Hd (proj1 (proj2 H)))
                (call_workers_tuple w s t w1 s1 H E)) as ([r|] & Er & _ & Hr);
      [|discriminate]. split; [intros _; exact (proj2 Hr)|done].
  - destruct (call_tuples w s _ _ _ H (Hd (proj1 (proj2 H)))
                (call_workers_end w s w1 s1 H E)) as ([r|] & Er & Hp & Hr);
      [discriminate|].
    destruct (Hover eq_refl) as ((_ & Hr1 & _) & _).
    split; [by intros Hne|].
    intros _. destruct H as (_ & Hr0 & _). destruct (reader s); [|done].
    rewrite Hr, app_nil_r in Hp. apply Permutation_nil_r in Hp. by rewrite Hp.
Qed.

Lemma ExecGather_n_step n w s slot w1 s1 :
  ExecGather w s = Ok (slot, w1, s1) ->
  ExecGather_n (S n) w s =
    match ExecGather_n n w1 s1 with
    | Ok (slots, w', s') => Ok (slot :: slots, w', s')
    | Fail e => Fail e
    end.
Proof.
  intros E. cbn [ExecGather_n]. rewrite E. cbn.
  by destruct (ExecGather_n n w1 s1) as [[[??]?]|].
Qed.

Lemma ExecGather_n_remaining n : forall w s,
  gather_inv s -> initialized s = true -> (reader s <> None -> drained w s) ->
  remaining w s = n ->
  exists slots w' s',
    ExecGather_n (S n) w s = Ok (slots ++ [None], w', s') /\ Forall is_Some slots.
Proof.
  induction n as [|n IH]; intros w s Hinv Hi Hd Hn;
    destruct (ExecGather_call w s Hinv Hi) as (slot & w1 & s1 & E & C);
    destruct (call_post _ _ _ _ _ Hinv C) as (Hinv1 & Hi1 & _);
    destruct (call_drained _ _ _ _ _ Hinv Hi Hd C) as (Hd1 & Hz);
    rewrite (ExecGather_n_step _ _ _ _ _ _ E);
    destruct slot as [x|].
  - pose proof (call_remaining _ _ _ _ _ Hi C). lia.
  - exists [], w1, s1. done.
  - pose proof (call_remaining _ _ _ _ _ Hi C) as Hrem.
    destruct (IH w1 s1 Hinv1 Hi1 Hd1 ltac:(lia)) as (slots & w' & s' & E' & Hs).
    rewrite E'. exists (Some x :: slots), w', s'. split; [done|].
    constructor; [by eexists|done].
  - specialize (Hz eq_refl). lia.
Qed.

Lemma ExecGather_initialize_drained w s w1 s1 parallel_send launchedWorkers :
  gather_inv s -> initialized s = false ->
  ExecGather_initialize w s = Ok (w1, s1, parallel_send, launchedWorkers) ->
  reader s1 <> None -> drained w1 s1.
Proof.
  intros Hinv Hi E Hr.
  pose proof (gather_inv_reader_None s Hinv Hi) as Hnone.
  destruct (launch_attempted_dec w s) as [Hl|Hl].
  - rewrite (ExecGather_initialize_launch w s Hinv Hi Hl) in E.
    injection E as <- <- Eps _.
    destruct (parallelWorker_sendTuple (ps_plan s)) eqn:Eps'.
    { destruct (launched_state_facts s (launched_by w s)) as (_ & _ & _ & H).
      by rewrite H in Hr. }
    destruct (Z.ltb_spec 0 (launched_by w s)) as [Hk|Hk].
    + by apply launched_state_workers.
    + exfalso. apply Hr. unfold launched_state. rewrite Eps'.
      destruct (Z.ltb_spec 0 (launched_by w s)); [lia|]. done.
  - rewrite (ExecGather_initialize_no_launch w s Hinv Hi Hl) in E.
    injection E as <- <- _ _. by cbn in Hr.
Qed.

(** On a node not yet initialized, as many calls as the scan has tuples
    return a tuple each, and the next returns the empty slot. *)
Lemma ExecGather_n_ends w s :
  gather_inv s -> initialized s = false ->
  exists slots w' s',
    ExecGather_n (S (length (scan_source w s))) w s = Ok (slots ++ [None], w', s') /\
    Forall is_Some slots.
Proof.
  intros Hinv Hi.
  destruct (ExecGather_initialize_total w s Hinv Hi)
    as (w1 & s1 & ps & lw & E1 & Hinv1 & Hi1 & _ & _ & _ & _ & Hps & _).
  destruct ps.
  - symmetry in Hps. apply andb_true_iff in Hps as (Hpw & Hsend).
    apply negb_true_iff in Hpw.
    assert (Hsrc : scan_source w s = []) by (unfold scan_source; by rewrite Hpw, Hsend).
    rewrite Hsrc. cbn [length ExecGather_n].
    rewrite (ExecGather_first _ _ _ _ _ _ E1 Hi1). cbn.
    do 3 eexists. split; [by rewrite app_nil_l|done].
  - rewrite (ExecGather_n_first _ _ _ _ _ _ E1 Hi1).
    apply ExecGather_n_remaining; [done|done| |].
    + by apply (ExecGather_initialize_drained w s _ _ _ _ Hinv Hi E1).
    + rewrite (remaining_initialize _ _ _ _ _ Hinv Hi E1).
      unfold remaining. by rewrite Hi.
Qed.

(** X4: a scan comes to its end, and returns what it has to return: on a
    node not yet initialized, as many calls as the scan has tuples return
    these tuples, projected, each once, and the next call returns the
    empty slot. *)
Theorem scan_returns_every_tuple_once_and_ends w s :
  gather_inv s -> initialized s = false ->
  exists slots w' s',
    ExecGather_n (S (length (scan_source w s))) w s = Ok (slots ++ [None], w', s') /\
    slots ≡ₚ map (fun t => Some (ps_ProjInfo s t)) (scan_source w s).
Proof.
  intros Hinv Hi.
  destruct (ExecGather_n_ends w s Hinv Hi) as (slots & w' & s' & E & Hs).
  exists slots, w', s'. split; [done|].
  by apply (ExecGather_n_returns_scan_source _ _ _ _ _ _ Hinv Hi E Hs).
Qed.

Lemma scan_returns_every_tuple_once_and_ends_witness :
  exists slots w' s',
    ExecGather_n 5
      (example_world [[[None; Some [11]; Some [12]]; [Some [21]; None; Some [22]]]]
                     [[9]] false [])
      (ExecInitGather (example_plan false false)) = Ok (slots ++ [None], w', s') /\
    slots ≡ₚ [Some [11]; Some [12]; Some [21]; Some [22]].
Proof.
  apply (scan_returns_every_tuple_once_and_ends
           (example_world [[[None; Some [11]; Some [12]]; [Some [21]; None; Some [22]]]]
                          [[9]] false [])
           (ExecInitGather (example_plan false false))).
  - apply gather_inv_example.
  - reflexivity.
Defined.

(** ** The ledger of the readers and of the parallel context *)

Lemma ledger_from_app l evs evs' :
  ledger_from l (evs ++ evs') = ledger_from (ledger_from l evs) evs'.
Proof. apply foldl_app. Qed.

Lemma ledger_app evs evs' : ledger (evs ++ evs') = ledger_from (ledger evs) evs'.
Proof. apply ledger_from_app. Qed.

Lemma filter_ne_notin (r : nat) (l : list nat) :
  r ∉ l -> filter (fun x => x <> r) l = l.
Proof.
  induction l as [|x l IH]; intros H; [done|].
  apply not_elem_of_cons in H as (Hne & H).
  rewrite filter_cons_True by done. by rewrite IH.
Qed.

Lemma filter_ne_delete (r : nat) (l : list nat) (c : nat) :
  NoDup l -> l !! c = Some r -> filter (fun x => x <> r) l = delete c l.
Proof.
  revert c. induction l as [|x l IH]; intros c Hnd Hc; [done|].
  apply NoDup_cons in Hnd as (Hx & Hnd). destruct c as [|c]; cbn in Hc.
  - injection Hc as ->. rewrite filter_cons_False by (intros H; by apply H).
    by apply filter_ne_notin.
  - rewrite filter_cons_True.
    + cbn. f_equal. by apply IH.
    + intros ->. apply Hx. by eapply list_elem_of_lookup_2.
Qed.

(** Destroying the live readers, each once, leaves none. *)
Lemma ledger_from_destroy_all rs : forall l,
  NoDup rs -> live l = rs ->
  live (ledger_from l (map EvDestroyTupleQueueReader rs)) = [] /\
  context (ledger_from l (map EvDestroyTupleQueueReader rs)) = context l /\
  sound (ledger_from l (map EvDestroyTupleQueueReader rs)) = sound l.
Proof.
  induction rs as [|r rs IH]; intros l Hnd Hl; [done|].
  apply NoDup_cons in Hnd as (Hr & Hnd). cbn [map ledger_from foldl].
  destruct (IH (ledger_step l (EvDestroyTupleQueueReader r)) Hnd) as (H1 & H2 & H3).
  { cbn. rewrite Hl. rewrite filter_cons_False by (intros H; by apply H).
    by apply filter_ne_notin. }
  unfold ledger_from in *. rewrite H1, H2, H3. cbn. rewrite Hl.
  rewrite bool_decide_eq_true_2 by (apply elem_of_cons; by left).
  by rewrite andb_true_r.
Qed.

(** Creating the readers of the queues [a], [a + 1], ... after those of
    the queues before. *)
Lemma ledger_from_create_all n : forall a l,
  live l = seq 0 a -> context l = true ->
  live (ledger_from l (map EvCreateTupleQueueReader (seq a n))) = seq 0 (a + n) /\
  context (ledger_from l (map EvCreateTupleQueueReader (seq a n))) = true /\
  sound (ledger_from l (map EvCreateTupleQueueReader (seq a n))) = sound l.
Proof.
  induction n as [|n IH]; intros a l Hl Hc.
  - cbn. by rewrite Nat.add_0_r.
  - cbn [seq map ledger_from foldl].
    destruct (IH (S a) (ledger_step l (EvCreateTupleQueueReader a))) as (H1 & H2 & H3).
    { cbn [live ledger_step]. rewrite Hl. by rewrite (seq_S a 0). }
    { done. }
    unfold ledger_from in *. rewrite H1, H2, H3.
    cbn [sound live context ledger_step permitted]. rewrite Hl, Hc.
    rewrite bool_decide_eq_true_2 by (intros H; apply elem_of_seq in H; lia).
    rewrite !andb_true_r. split; [f_equal; lia|done].
Qed.

Lemma ledger_inv_step w s w' s' evs :
  ledger_inv w s -> trace w' = trace w ++ evs ->
  (forall l, sound l = true -> live l = survivors s ->
     context l = negb (is_null (pei s)) ->
     sound (ledger_from l evs) = true /\
     live (ledger_from l evs) = survivors s' /\
     context (ledger_from l evs) = negb (is_null (pei s'))) ->
  NoDup (survivors s') -> ledger_inv w' s'.
Proof.
  intros (Hs & Hl & _ & Hc) Ht H Hnd. unfold ledger_inv.
  rewrite Ht, ledger_app. destruct (H _ Hs Hl Hc) as (? & ? & ?). done.
Qed.

Lemma pei_advance s : pei (advance s) = pei s.
Proof. unfold advance. by destruct (_ >=? _). Qed.

Lemma pei_after_done arr s : pei (after_done arr s) = pei s.
Proof. unfold after_done. by destruct (_ >=? _). Qed.

Lemma NoDup_delete {A} (l : list A) i : NoDup l -> NoDup (delete i l).
Proof. intros H. eapply sublist_NoDup; [exact H|apply sublist_delete]. Qed.

(** A turn of the loop of [gather_readnext] keeps the ledger. *)
Lemma turn_ledger w s nv w' s' k :
  reader_inv s -> ledger_inv w s -> turn w s nv w' s' k -> ledger_inv w' s'.
Proof.
  intros Hinv Hled T. pose proof Hled as (_ & _ & Hnd & _).
  turn_cases T;
    destruct (TupleQueueReaderNext_world _ _ _ _ _ Hread) as (_ & Ht);
    pose proof (elem_of_survivors _ _ _ Hinv Ha Hrd) as Hin;
    destruct (Hinv arr Ha) as (Hc & Hlen & _).
  - apply (ledger_inv_step w s _ _ _ Hled Ht); [|done].
    intros l Hs Hl Hx. cbn. rewrite Hs, Hl, Hx.
    by rewrite bool_decide_eq_true_2.
  - apply (ledger_inv_step w s _ _
             ([EvTupleQueueReaderNext rd None true; EvDestroyTupleQueueReader rd]
              ++ if is_null (pei s) then [] else [EvParallelFinish]) Hled).
    + rewrite trace_shutdown_world. cbn. rewrite Ht. unfold survivors at 1. cbn.
      rewrite Ha. cbn. by rewrite <- !app_assoc.
    + intros l Hs Hl Hx.
      assert (Hsv : survivors s = [rd]).
      { unfold survivors. rewrite Ha, Hn. change (Z.to_nat 1) with 1%nat.
        replace (Z.to_nat (nextreader s)) with 0%nat in Hrd by lia.
        destruct arr; [done|]. cbn in *. by injection Hrd as ->. }
      rewrite Hsv in Hl. rewrite ledger_from_app. cbn [ledger_from foldl].
      destruct (pei s) eqn:Ep; cbn; rewrite Hs, Hl, ?Hx; cbn;
        (destruct (decide (rd <> rd)) as [Hne|_]; [done|]);
        rewrite bool_decide_eq_true_2 by (by apply list_elem_of_singleton);
        rewrite Ep; done.
    + unfold survivors. cbn. constructor.
  - apply (ledger_inv_step w s _ _
             [EvTupleQueueReaderNext rd None true; EvDestroyTupleQueueReader rd] Hled).
    + cbn. rewrite Ht. by rewrite <- app_assoc.
    + intros l Hs Hl Hx. cbn. rewrite Hs, Hl, Hx, pei_after_done.
      rewrite bool_decide_eq_true_2 by done. cbn.
      rewrite (survivors_after_done arr s Ha Hc Hlen).
      split; [done|]. split; [|done].
      apply filter_ne_delete; [done|]. by apply (survivors_lookup s arr).
    + rewrite (survivors_after_done arr s Ha Hc Hlen). by apply NoDup_delete.
  - apply (ledger_inv_step w s _ _ _ Hled Ht); [|by rewrite survivors_advance].
    intros l Hs Hl Hx. cbn. rewrite Hs, Hl, Hx, pei_advance, survivors_advance.
    by rewrite bool_decide_eq_true_2.
  - apply (ledger_inv_step w s _ _ _ Hled Ht); [|by rewrite survivors_advance].
    intros l Hs Hl Hx. cbn. rewrite Hs, Hl, Hx, pei_advance, survivors_advance.
    by rewrite bool_decide_eq_true_2.
  - apply (ledger_inv_step w s _ _
             [EvTupleQueueReaderNext rd None false; EvWaitLatch] Hled).
    + cbn. rewrite Ht. by rewrite <- app_assoc.
    + intros l Hs Hl Hx. cbn. rewrite Hs, Hl, Hx, pei_advance, survivors_advance.
      rewrite bool_decide_eq_true_2 by done.
      rewrite bool_decide_eq_false_2; [done|].
      intros E. rewrite E in Hin. by apply elem_of_nil in Hin.
    + by rewrite survivors_advance.
Qed.

Lemma ledger_inv_frame w s w' s' :
  trace w' = trace w -> reader s' = reader s -> nreaders s' = nreaders s ->
  pei s' = pei s -> ledger_inv w s -> ledger_inv w' s'.
Proof.
  intros Ht Hr Hn Hp. unfold ledger_inv.
  by rewrite Ht, Hp, (survivors_fields s s' Hr Hn).
Qed.

Lemma ledger_inv_LogStatistic w s n t :
  ledger_inv w s -> ledger_inv (log (EvLogStatistic n t) w) s.
Proof.
  intros Hled. pose proof Hled as (_ & _ & Hnd & _).
  apply (ledger_inv_step w s _ _ [EvLogStatistic n t] Hled); [done| |done].
  intros l Hs Hl Hx. cbn. by rewrite Hs, andb_true_r.
Qed.

Lemma pei_count_tuple b e s : pei (count_tuple b e s) = pei s.
Proof. unfold count_tuple. by destruct (_ =? _). Qed.

Lemma gather_readnext_ledger w s r w' s' :
  reader_inv s -> reader s <> None -> ledger_inv w s ->
  gather_readnext w s = Ok (r, w', s') -> ledger_inv w' s'.
Proof.
  intros Hinv Hr Hled.
  apply (gather_readnext_loop_rule
    (fun wa sa nva => (reader_inv sa /\ reader sa <> None /\ 0 <= nva < INT_MAX) /\
       ledger_inv wa sa)
    (fun _ wb sb => ledger_inv wb sb)).
  - tauto.
  - intros wa sa nva wb sb nvb ((I & R & N) & L) T.
    split; [eapply turn_continue_inv; eauto|]. eapply turn_ledger; eauto.
  - intros wa sa nva wb sb r0 ((I & R & N) & L) T. eapply turn_ledger; eauto.
  - split; [|done]. split; [done|]. split; [done|]. unfold INT_MAX. lia.
Qed.

(** A call on an initialized node keeps the ledger. *)
Lemma call_ledger w s slot w' s' :
  ledger_inv w s -> call w s slot w' s' -> ledger_inv w' s'.
Proof.
  intros Hled C. pose proof Hled as (_ & _ & Hnd & _).
  destruct C as [H|t rest H E|H E|t w1 s1 H E|w1 s1 H E].
  - unfold over_world. destruct (enable_statistic w).
    + apply ledger_inv_LogStatistic. by apply (ledger_inv_frame w s).
    + by apply (ledger_inv_frame w s).
  - destruct H as (_ & Hr & _).
    apply (ledger_inv_step w s _ _ [EvExecProcNode (Some t)] Hled); [done| |done].
    intros l Hs Hl Hx. cbn. rewrite Hs, Hl, Hx. unfold survivors. cbn. by rewrite Hr.
  - destruct H as (_ & Hr & _).
    assert (Hled1 : ledger_inv (log (EvExecProcNode None) w)
                      (set_funnel_slot None (set_need_to_scan_locally false s))).
    { apply (ledger_inv_step w s _ _ [EvExecProcNode None] Hled); [done| |done].
      intros l Hs Hl Hx. cbn. rewrite Hs, Hl, Hx. unfold survivors. cbn.
      by rewrite Hr. }
    destruct (enable_statistic w); [by apply ledger_inv_LogStatistic|done].
  - destruct H as (_ & Hr & _ & Hri).
    assert (Hled0 : ledger_inv (if enable_statistic w then set_clock (tl (clock w)) w
                                else w) (set_funnel_slot None s)).
    { apply (ledger_inv_frame w s); try done. by destruct (enable_statistic w). }
    pose proof (gather_readnext_ledger _ (set_funnel_slot None s) _ _ _ Hri Hr Hled0 E)
      as Hled1.
    destruct (enable_statistic w).
    + apply (ledger_inv_frame w1 s1); try done;
        [by rewrite reader_count_tuple|by rewrite nreaders_count_tuple
        |by rewrite pei_count_tuple].
    + by apply (ledger_inv_frame w1 s1).
  - destruct H as (_ & Hr & _ & Hri).
    assert (Hled0 : ledger_inv (if enable_statistic w then set_clock (tl (clock w)) w
                                else w) (set_funnel_slot None s)).
    { apply (ledger_inv_frame w s); try done. by destruct (enable_statistic w). }
    pose proof (gather_readnext_ledger _ (set_funnel_slot None s) _ _ _ Hri Hr Hled0 E)
      as Hled1.
    assert (Hled2 : ledger_inv w1 (set_funnel_slot None s1))
      by (by apply (ledger_inv_frame w1 s1)).
    destruct (enable_statistic w); [by apply ledger_inv_LogStatistic|done].
Qed.

(** The first part of [ExecGather] keeps the ledger. *)
Lemma ExecGather_initialize_ledger w s w1 s1 parallel_send launchedWorkers :
  gather_inv s -> initialized s = false -> ledger_inv w s ->
  ExecGather_initialize w s = Ok (w1, s1, parallel_send, launchedWorkers) ->
  ledger_inv w1 s1.
Proof.
  intros Hinv Hi Hled E.
  pose proof (gather_inv_reader_None s Hinv Hi) as Hnone.
  assert (Hsv : survivors s = []) by (unfold survivors; by rewrite Hnone).
  destruct (launch_attempted_dec w s) as [Hl|Hl].
  - rewrite (ExecGather_initialize_launch w s Hinv Hi Hl) in E.
    injection E as <- <- _ _.
    pose proof (launched_by_range w s (proj1 (proj2 (proj2 Hinv)))) as Hk.
    assert (Hsv1 : survivors (launched_state s (launched_by w s))
                   = if (0 <? launched_by w s)
                        && negb (parallelWorker_sendTuple (ps_plan s))
                     then seq 0 (Z.to_nat (launched_by w s)) else []).
    { unfold survivors, launched_state.
      destruct (0 <? launched_by w s);
        [destruct (parallelWorker_sendTuple (ps_plan s))|]; cbn; rewrite ?Hnone; try done.
      rewrite take_ge; [done|]. rewrite length_seq. lia. }
    apply (ledger_inv_step w s _ _ (launch_events w s) Hled);
      [apply trace_launched_world| |].
    + intros l Hs Hlv Hx. rewrite Hsv in Hlv. rewrite Hsv1.
      destruct (state_setting_launched_state s (launched_by w s)) as (_ & Hpei).
      destruct (pei (launched_state s (launched_by w s))); [clear Hpei|done].
      unfold launch_events. rewrite ledger_from_app.
      set (l1 := ledger_from l _).
      assert (H1 : sound l1 = true /\ live l1 = [] /\ context l1 = true).
      { subst l1. destruct (pei s); cbn in *; rewrite Hs, Hlv, Hx; done. }
      destruct H1 as (Hs1 & Hlv1 & Hx1). clearbody l1.
      destruct (0 <? launched_by w s);
        [destruct (parallelWorker_sendTuple (ps_plan s))|]; cbn [andb negb].
      * done.
      * destruct (ledger_from_create_all (Z.to_nat (launched_by w s)) 0 l1 Hlv1 Hx1)
          as (H1 & H2 & H3).
        rewrite H1, H2, H3. done.
      * cbn. by rewrite Hs1, Hlv1, Hx1.
    + rewrite Hsv1. destruct (_ && _); [apply NoDup_seq|constructor].
  - rewrite (ExecGather_initialize_no_launch w s Hinv Hi Hl) in E.
    injection E as <- <- _ _. by apply (ledger_inv_frame w s).
Qed.

(** [ExecGather] keeps the ledger. *)
Lemma ExecGather_ledger w s slot w' s' :
  gather_inv s -> ledger_inv w s ->
  ExecGather w s = Ok (slot, w', s') -> ledger_inv w' s'.
Proof.
  intros Hinv Hled E. destruct (initialized s) eqn:Hi.
  - eapply call_ledger; [done|]. by apply ExecGather_call_inv.
  - destruct (ExecGather_initialize_total w s Hinv Hi)
      as (w1 & s1 & ps & lw & E1 & Hinv1 & Hi1 & _ & _ & _ & _ & _ & _ & Hp).
    pose proof (ExecGather_initialize_ledger _ _ _ _ _ _ Hinv Hi Hled E1) as Hled1.
    rewrite (ExecGather_first _ _ _ _ _ _ E1 Hi1) in E. destruct ps.
    + injection E as _ <- <-. specialize (Hp eq_refl).
      pose proof Hled1 as (_ & _ & Hnd & _).
      apply (ledger_inv_step w1 s1 _ _ [EvWaitForParallelWorkerDone lw (lw =? 0)] Hled1);
        [done| |done].
      intros l Hs Hl Hx. cbn. rewrite Hs, Hl, Hx. unfold survivors. cbn.
      by rewrite Hp.
    + eapply call_ledger; [exact Hled1|]. by apply ExecGather_call_inv.
Qed.

Lemma ledger_from_shutdown_world w s :
  ledger_inv w s ->
  let l := ledger (trace (shutdown_world w s)) in
  sound l = true /\ live l = [] /\ context l = negb (is_null (pei s)).
Proof.
  intros (Hs & Hl & Hnd & Hx). cbn zeta.
  rewrite trace_shutdown_world, ledger_app, ledger_from_app.
  destruct (ledger_from_destroy_all (survivors s) (ledger (trace w)) Hnd Hl)
    as (H1 & H2 & H3).
  destruct (pei s); cbn in *; rewrite ?H1, ?H2, ?H3, ?Hs, ?Hx; done.
Qed.

(** [ExecReScanGather] and [ExecShutdownGather] keep the ledger, and leave
    no reader live. *)
Lemma ExecReScanGather_ledger w s w' s' :
  gather_inv s -> ledger_inv w s ->
  ExecReScanGather w s = Ok (w', s') ->
  ledger_inv w' s' /\ live (ledger (trace w')) = [].
Proof.
  intros Hinv Hled E. rewrite (ExecReScanGather_ok w s Hinv) in E.
  injection E as <- <-.
  destruct (ledger_from_shutdown_world w s Hled) as (Hs & Hl & Hx).
  unfold ledger_inv, survivors. cbn [reader set_initialized set_reader pei].
  destruct (pei s); cbn [ExecReScan trace log set_outer_rest];
    rewrite ?ledger_app; cbn; rewrite Hs, Hl, Hx; cbn; split_and!; try done;
    constructor.
Qed.

Lemma ExecShutdownGather_ledger w s w' s' :
  gather_inv s -> ledger_inv w s ->
  ExecShutdownGather w s = Ok (w', s') ->
  ledger_inv w' s' /\ live (ledger (trace w')) = [] /\
  context (ledger (trace w')) = false.
Proof.
  intros Hinv Hled E. rewrite (ExecShutdownGather_ok w s Hinv) in E.
  injection E as <- <-.
  destruct (ledger_from_shutdown_world w s Hled) as (Hs & Hl & Hx).
  unfold ledger_inv, survivors. cbn [reader set_reader set_pei pei].
  destruct (pei s); cbn [trace log];
    rewrite ?ledger_app; cbn; rewrite ?Hs, ?Hl, ?Hx; cbn; split_and!; try done;
    constructor.
Qed.

(** ** Sequences of calls *)

Lemma ExecCall_inv c w s :
  gather_inv s ->
  exists slots w' s',
    ExecCall c w s = Ok (slots, w', s') /\ gather_inv s' /\
    (ledger_inv w s -> ledger_inv w' s').
Proof.
  intros Hinv. destruct c; cbn [ExecCall].
  - destruct (ExecGather_total w s Hinv) as (slot & w' & s' & E & Hinv' & _).
    rewrite E. cbn. do 3 eexists. split; [done|]. split; [done|].
    intros Hled. by apply (ExecGather_ledger w s slot).
  - pose proof (ExecReScanGather_ok w s Hinv) as E.
    destruct (gather_inv_ExecReScanGather _ _ _ _ Hinv E) as (Hinv' & _).
    rewrite E. cbn. do 3 eexists. split; [done|]. split; [done|].
    intros Hled. by apply (ExecReScanGather_ledger w s).
  - pose proof (ExecShutdownGather_ok w s Hinv) as E.
    pose proof (gather_inv_ExecShutdownGather _ _ _ _ Hinv E) as Hinv'.
    rewrite E. cbn. do 3 eexists. split; [done|]. split; [done|].
    intros Hled. by apply (ExecShutdownGather_ledger w s).
Qed.

Lemma ExecCalls_inv cs : forall w s,
  gather_inv s ->
  exists slots w' s',
    ExecCalls cs w s = Ok (slots, w', s') /\ gather_inv s' /\
    (ledger_inv w s -> ledger_inv w' s').
Proof.
  induction cs as [|c cs IH]; intros w s Hinv.
  - exists [], w, s. done.
  - destruct (ExecCall_inv c w s Hinv) as (sl1 & w1 & s1 & E1 & Hinv1 & Hled1).
    destruct (IH w1 s1 Hinv1) as (sl2 & w2 & s2 & E2 & Hinv2 & Hled2).
    cbn [ExecCalls]. rewrite E1. cbn. rewrite E2. cbn.
    do 3 eexists. split; [done|]. split; [done|]. auto.
Qed.

Lemma ExecCalls_app cs cs' w s :
  ExecCalls (cs ++ cs') w s =
    match ExecCalls cs w s with
    | Ok (slots, w1, s1) =>
        match ExecCalls cs' w1 s1 with
        | Ok (slots', w', s') => Ok (slots ++ slots', w', s')
        | Fail e => Fail e
        end
    | Fail e => Fail e
    end.
Proof.
  revert w s. induction cs as [|c cs IH]; intros w s.
  - cbn. by destruct (ExecCalls cs' w s) as [[[??]?]|].
  - cbn [app ExecCalls]. destruct (ExecCall c w s) as [[[sl1 w1] s1]|]; [|done].
    cbn. rewrite IH. destruct (ExecCalls cs w1 s1) as [[[sl2 w2] s2]|]; [|done].
    cbn. destruct (ExecCalls cs' w2 s2) as [[[sl3 w3] s3]|]; [|done].
    cbn. by rewrite app_assoc.
Qed.

Lemma ledger_inv_ExecInitGather node w :
  trace w = [] -> ledger_inv w (ExecInitGather node).
Proof. intros Ht. unfold ledger_inv. rewrite Ht. cbn. split_and!; try done. constructor. Qed.

(** After any calls on a fresh node, the node and the ledger are in
    order. *)
Lemma ExecCalls_fresh node w cs slots w' s' :
  num_workers node <= INT_MAX -> trace w = [] ->
  ExecCalls cs w (ExecInitGather node) = Ok (slots, w', s') ->
  gather_inv s' /\ ledger_inv w' s'.
Proof.
  intros Hn Ht E.
  destruct (ExecCalls_inv cs w _ (gather_inv_ExecInitGather node Hn))
    as (sl & w1 & s1 & E1 & Hinv1 & Hled1).
  rewrite E in E1. injection E1 as <- <- <-.
  split; [done|]. by apply Hled1, ledger_inv_ExecInitGather.
Qed.

Lemma sound_ledger_from l evs : sound (ledger_from l evs) = true -> sound l = true.
Proof.
  revert l. induction evs as [|e evs IH]; intros l H; [done|].
  apply IH in H. cbn in H. by apply andb_true_iff in H as (? & _).
Qed.

(** In a sound trace every event was permitted when it came. *)
Lemma sound_permitted evs pre e post :
  sound (ledger evs) = true -> evs = pre ++ e :: post ->
  permitted (ledger pre) e = true.
Proof.
  intros H ->. change (e :: post) with ([e] ++ post) in H.
  rewrite ledger_app, ledger_from_app in H. apply sound_ledger_from in H.
  cbn in H. by apply andb_true_iff in H as (_ & ?).
Qed.

Lemma ExecCalls_permitted node w cs slots w' s' pre e post :
  num_workers node <= INT_MAX -> trace w = [] ->
  ExecCalls cs w (ExecInitGather node) = Ok (slots, w', s') ->
  trace w' = pre ++ e :: post ->
  permitted (ledger pre) e = true.
Proof.
  intros Hn Ht E Hpre.
  destruct (ExecCalls_fresh _ _ _ _ _ _ Hn Ht E) as (_ & Hs & _).
  by apply (sound_permitted _ _ _ _ Hs Hpre).
Qed.

(** What the ledger says of a trace: a live reader was created and not
    destroyed since; with no live reader, every reader created was
    destroyed later. *)
Lemma live_created pre r :
  r ∈ live (ledger pre) ->
  exists a b, pre = a ++ EvCreateTupleQueueReader r :: b /\
              EvDestroyTupleQueueReader r ∉ b.
Proof.
  induction pre as [|e pre IH] using rev_ind; [by intros H; apply elem_of_nil in H|].
  rewrite ledger_app. cbn [ledger_from foldl ledger_step live]. intros H.
  assert (Hgo : r ∈ live (ledger pre) -> e <> EvDestroyTupleQueueReader r ->
                exists a b, pre ++ [e] = a ++ EvCreateTupleQueueReader r :: b /\
                            EvDestroyTupleQueueReader r ∉ b).
  { intros Hr He. destruct (IH Hr) as (a & b & -> & Hb).
    exists a, (b ++ [e]). split; [by rewrite <- app_assoc|].
    intros Hin. apply elem_of_app in Hin as [Hin|Hin]; [done|].
    apply list_elem_of_singleton in Hin. by symmetry in Hin. }
  destruct e; try (by apply Hgo).
  - apply elem_of_app in H as [H|H]; [by apply Hgo|].
    apply list_elem_of_singleton in H. subst i.
    exists pre, []. split; [done|]. apply not_elem_of_nil.
  - apply list_elem_of_filter in H as (Hne & H). apply Hgo; [done|].
    intros [= ->]. done.
Qed.

Lemma destroyed_ledger_from r evs : forall l,
  r ∈ live l -> r ∉ live (ledger_from l evs) -> EvDestroyTupleQueueReader r ∈ evs.
Proof.
  induction evs as [|e evs IH]; intros l Hr Hn; [done|].
  cbn [ledger_from foldl] in Hn.
  assert (Hgo : r ∈ live (ledger_step l e) -> EvDestroyTupleQueueReader r ∈ e :: evs).
  { intros H. apply elem_of_cons. right. by apply (IH _ H). }
  destruct e; try (by apply Hgo).
  - apply Hgo. cbn. apply elem_of_app. by left.
  - destruct (decide (r0 = r)) as [->|Hne]; [apply elem_of_cons; by left|].
    apply Hgo. cbn. apply list_elem_of_filter. split; [|done].
    intros ->. done.
Qed.

Lemma live_nil_destroyed pre a b r :
  live (ledger pre) = [] -> pre = a ++ EvCreateTupleQueueReader r :: b ->
  EvDestroyTupleQueueReader r ∈ b.
Proof.
  intros Hl ->. change (EvCreateTupleQueueReader r :: b)
    with ([EvCreateTupleQueueReader r] ++ b) in Hl.
  rewrite ledger_app, ledger_from_app in Hl.
  apply (destroyed_ledger_from r b (ledger_from (ledger a) [EvCreateTupleQueueReader r])).
  - cbn. apply elem_of_app. right. by apply list_elem_of_singleton.
  - rewrite Hl. apply not_elem_of_nil.
Qed.

(** With a context in the ledger, [ExecInitParallelPlan] was called and
    [ExecParallelCleanup] not since; with none, every
    [ExecInitParallelPlan] was followed by an [ExecParallelCleanup]. *)
Lemma context_created pre :
  context (ledger pre) = true ->
  exists a b n, pre = a ++ EvInitParallelPlan n :: b /\ EvParallelCleanup ∉ b.
Proof.
  induction pre as [|e pre IH] using rev_ind; [done|].
  rewrite ledger_app. cbn [ledger_from foldl ledger_step context]. intros H.
  assert (Hgo : context (ledger pre) = true -> e <> EvParallelCleanup ->
                exists a b n, pre ++ [e] = a ++ EvInitParallelPlan n :: b /\
                              EvParallelCleanup ∉ b).
  { intros Hc He. destruct (IH Hc) as (a & b & n & -> & Hb).
    exists a, (b ++ [e]), n. split; [by rewrite <- app_assoc|].
    intros Hin. apply elem_of_app in Hin as [Hin|Hin]; [done|].
    apply list_elem_of_singleton in Hin. by symmetry in Hin. }
  destruct e; try (by apply Hgo).
  exists pre, [], nworkers. split; [done|]. apply not_elem_of_nil.
Qed.

Lemma cleaned_ledger_from evs : forall l,
  context l = true -> context (ledger_from l evs) = false -> EvParallelCleanup ∈ evs.
Proof.
  induction evs as [|e evs IH]; intros l Hc Hn; [cbn in Hn; congruence|].
  cbn [ledger_from foldl] in Hn.
  destruct e;
    try (apply elem_of_cons; right; eapply IH; [|exact Hn]; first [exact Hc|done]).
  apply elem_of_cons. by left.
Qed.

Lemma context_none_cleaned pre a b n :
  context (ledger pre) = false -> pre = a ++ EvInitParallelPlan n :: b ->
  EvParallelCleanup ∈ b.
Proof.
  intros Hc ->. change (EvInitParallelPlan n :: b)
    with ([EvInitParallelPlan n] ++ b) in Hc.
  rewrite ledger_app, ledger_from_app in Hc.
  by apply (cleaned_ledger_from b (ledger_from (ledger a) [EvInitParallelPlan n])).
Qed.

(** X5: whatever calls of [ExecGather], [ExecReScanGather] and
    [ExecShutdownGather] the executor makes on a node fresh from
    [ExecInitGather], in whatever order, each of them returns: no
    [Assert] fails, no access leaves the reader array or goes through
    [NULL], no loop goes on for ever; and the node is left in order. *)
Theorem every_call_returns node w cs :
  num_workers node <= INT_MAX ->
  exists slots w' s',
    ExecCalls cs w (ExecInitGather node) = Ok (slots, w', s') /\ gather_inv s'.
Proof.
  intros Hn.
  destruct (ExecCalls_inv cs w _ (gather_inv_ExecInitGather node Hn))
    as (slots & w' & s' & E & Hinv & _).
  eauto.
Qed.

Lemma every_call_returns_witness :
  exists slots w' s',
    ExecCalls [CallExecGather; CallExecReScanGather; CallExecGather; CallExecGather;
               CallExecShutdownGather; CallExecGather]
      (example_world [[[Some [1]; None]; []]; [[Some [2]]]] [[9]] true [3; 5])
      (ExecInitGather (example_plan false false)) = Ok (slots, w', s') /\
    gather_inv s'.
Proof.
  apply (every_call_returns (example_plan false false)).
  cbn. unfold INT_MAX. lia.
Defined.

(** X6: a reader is read ([TupleQueueReaderNext]) and destroyed
    ([DestroyTupleQueueReader]) only while it is live: it was created
    before and has not been destroyed since. So no reader is read after
    it is destroyed, and none is destroyed twice. *)
Theorem reader_used_only_while_live node w cs slots w' s' pre e post r :
  num_workers node <= INT_MAX -> trace w = [] ->
  ExecCalls cs w (ExecInitGather node) = Ok (slots, w', s') ->
  trace w' = pre ++ e :: post ->
  e = EvDestroyTupleQueueReader r \/ (exists tup done, e = EvTupleQueueReaderNext r tup done) ->
  exists a b, pre = a ++ EvCreateTupleQueueReader r :: b /\
              EvDestroyTupleQueueReader r ∉ b.
Proof.
  intros Hn Ht E Hpre He.
  pose proof (ExecCalls_permitted _ _ _ _ _ _ _ _ _ Hn Ht E Hpre) as Hp.
  apply live_created.
  destruct He as [->|(tup & d & ->)]; cbn in Hp; by apply bool_decide_eq_true in Hp.
Qed.

(** X7: the parallel context is initialized, reinitialized, launched on,
    finished and cleaned up, and the outer plan is rescanned, only while
    no reader is live: every reader created before has been destroyed. *)
Theorem context_touched_only_without_live_reader node w cs slots w' s' pre e post a b r :
  num_workers node <= INT_MAX -> trace w = [] ->
  ExecCalls cs w (ExecInitGather node) = Ok (slots, w', s') ->
  trace w' = pre ++ e :: post ->
  context_event e \/ e = EvExecReScan ->
  pre = a ++ EvCreateTupleQueueReader r :: b ->
  EvDestroyTupleQueueReader r ∈ b.
Proof.
  intros Hn Ht E Hpre He Hab.
  pose proof (ExecCalls_permitted _ _ _ _ _ _ _ _ _ Hn Ht E Hpre) as Hp.
  apply (live_nil_destroyed pre a b r); [|done].
  destruct He as [He| ->]; [destruct e; try done|]; cbn in Hp;
    try (apply andb_true_iff in Hp as (_ & Hp)); by apply bool_decide_eq_true in Hp.
Qed.

(** X8: the leader runs the outer plan ([ExecProcNode]) only while no
    reader is live: it never scans beside its workers. *)
Theorem outer_plan_run_only_without_live_reader node w cs slots w' s' pre x post a b r :
  num_workers node <= INT_MAX -> trace w = [] ->
  ExecCalls cs w (ExecInitGather node) = Ok (slots, w', s') ->
  trace w' = pre ++ EvExecProcNode x :: post ->
  pre = a ++ EvCreateTupleQueueReader r :: b ->
  EvDestroyTupleQueueReader r ∈ b.
Proof.
  intros Hn Ht E Hpre Hab.
  pose proof (ExecCalls_permitted _ _ _ _ _ _ _ _ _ Hn Ht E Hpre) as Hp.
  apply (live_nil_destroyed pre a b r); [|done].
  cbn in Hp. by apply bool_decide_eq_true in Hp.
Qed.

(** X9: the leader waits on its latch only while a reader is live: there
    is a worker to wait for. *)
Theorem latch_wait_only_with_live_reader node w cs slots w' s' pre post :
  num_workers node <= INT_MAX -> trace w = [] ->
  ExecCalls cs w (ExecInitGather node) = Ok (slots, w', s') ->
  trace w' = pre ++ EvWaitLatch :: post ->
  exists r a b, pre = a ++ EvCreateTupleQueueReader r :: b /\
                EvDestroyTupleQueueReader r ∉ b.
Proof.
  intros Hn Ht E Hpre.
  pose proof (ExecCalls_permitted _ _ _ _ _ _ _ _ _ Hn Ht E Hpre) as Hp.
  cbn in Hp. apply negb_true_iff, bool_decide_eq_false in Hp.
  destruct (live (ledger pre)) as [|r rs] eqn:El; [done|].
  exists r. apply live_created. rewrite El. apply elem_of_cons. by left.
Qed.

(** X10: there is one parallel context at a time, and it is used only
    while it is there: [ExecInitParallelPlan] is called only when every
    earlier one was followed by [ExecParallelCleanup]; the other calls on
    the context, and [CreateTupleQueueReader], come after an
    [ExecInitParallelPlan] with no [ExecParallelCleanup] since. *)
Theorem parallel_context_protocol node w cs slots w' s' pre e post :
  num_workers node <= INT_MAX -> trace w = [] ->
  ExecCalls cs w (ExecInitGather node) = Ok (slots, w', s') ->
  trace w' = pre ++ e :: post ->
  match e with
  | EvInitParallelPlan _ =>
      forall a b n, pre = a ++ EvInitParallelPlan n :: b -> EvParallelCleanup ∈ b
  | EvParallelReinitialize _ | EvLaunchParallelWorkers _ | EvParallelFinish
  | EvParallelCleanup | EvCreateTupleQueueReader _ =>
      exists a b n, pre = a ++ EvInitParallelPlan n :: b /\ EvParallelCleanup ∉ b
  | _ => True
  end.
Proof.
  intros Hn Ht E Hpre.
  pose proof (ExecCalls_permitted _ _ _ _ _ _ _ _ _ Hn Ht E Hpre) as Hp.
  destruct e; try done; cbn in Hp; apply andb_true_iff in Hp as (Hp & _);
    try (by apply context_created).
  apply negb_true_iff in Hp. intros a b n. by apply context_none_cleaned.
Qed.

(** X11: no reader outlives its scan: after [ExecReScanGather], after
    [ExecShutdownGather], and after an [ExecGather] that returned the
    empty slot, every reader created so far has been destroyed. *)
Theorem no_reader_outlives_the_scan node w cs c slots w' s' a b r :
  num_workers node <= INT_MAX -> trace w = [] ->
  ExecCalls (cs ++ [c]) w (ExecInitGather node) = Ok (slots, w', s') ->
  (c = CallExecGather -> last slots = Some None) ->
  trace w' = a ++ EvCreateTupleQueueReader r :: b ->
  EvDestroyTupleQueueReader r ∈ b.
Proof.
  intros Hn Ht E Hc Hab. apply (live_nil_destroyed (trace w') a b r); [|done].
  rewrite ExecCalls_app in E.
  destruct (ExecCalls cs w (ExecInitGather node)) as [[[sl1 w1] s1]|] eqn:E1;
    [|discriminate].
  destruct (ExecCalls_fresh _ _ _ _ _ _ Hn Ht E1) as (Hinv1 & Hled1).
  cbn [ExecCalls] in E.
  destruct c; cbn [ExecCall] in E.
  - destruct (ExecGather_total w1 s1 Hinv1) as (slot & w2 & s2 & E2 & _ & _ & Hnone).
    pose proof (ExecGather_ledger _ _ _ _ _ Hinv1 Hled1 E2) as (_ & Hl & _).
    rewrite E2 in E. cbn in E. injection E as <- <- <-.
    specialize (Hc eq_refl). rewrite last_snoc in Hc. injection Hc as ->.
    destruct (Hnone eq_refl) as ((_ & Hr & _) & _).
    rewrite Hl. unfold survivors. by rewrite Hr.
  - destruct (ExecReScanGather w1 s1) as [[w2 s2]|] eqn:E2; [|discriminate].
    cbn in E. injection E as _ <- <-.
    by destruct (ExecReScanGather_ledger _ _ _ _ Hinv1 Hled1 E2) as (_ & Hl).
  - destruct (ExecShutdownGather w1 s1) as [[w2 s2]|] eqn:E2; [|discriminate].
    cbn in E. injection E as _ <- <-.
    by destruct (ExecShutdownGather_ledger _ _ _ _ Hinv1 Hled1 E2) as (_ & Hl & _).
Qed.

Lemma reader_used_only_while_live_witness :
  exists a b,
    [EvInitParallelPlan 2; EvLaunchParallelWorkers 2; EvCreateTupleQueueReader 0;
     EvCreateTupleQueueReader 1; EvTupleQueueReaderNext 0 None false]
    = a ++ EvCreateTupleQueueReader 1 :: b /\
    EvDestroyTupleQueueReader 1 ∉ b.
Proof.
  eapply (reader_used_only_while_live (example_plan false false)
            (example_world [[[None; Some [1]]; [Some [2]]]] [[9]] false [])
            [CallExecGather; CallExecReScanGather; CallExecGather;
             CallExecShutdownGather]
            _ _ _ _ (EvTupleQueueReaderNext 1 (Some [2]) false) _ 1).
  - cbn. unfold INT_MAX. lia.
  - reflexivity.
  - vm_compute. reflexivity.
  - vm_compute. reflexivity.
  - right. by eexists _, _.
Defined.

Lemma context_touched_only_without_live_reader_witness :
  EvDestroyTupleQueueReader 1
  ∈ [EvTupleQueueReaderNext 0 None false; EvTupleQueueReaderNext 1 (Some [2]) false;
     EvDestroyTupleQueueReader 0; EvDestroyTupleQueueReader 1].
Proof.
  eapply (context_touched_only_without_live_reader (example_plan false false)
            (example_world [[[None; Some [1]]; [Some [2]]]] [[9]] false [])
            [CallExecGather; CallExecReScanGather; CallExecGather;
             CallExecShutdownGather]
            _ _ _
            [EvInitParallelPlan 2; EvLaunchParallelWorkers 2; EvCreateTupleQueueReader 0;
             EvCreateTupleQueueReader 1; EvTupleQueueReaderNext 0 None false;
             EvTupleQueueReaderNext 1 (Some [2]) false;
             EvDestroyTupleQueueReader 0; EvDestroyTupleQueueReader 1]
            EvParallelFinish _
            [EvInitParallelPlan 2; EvLaunchParallelWorkers 2; EvCreateTupleQueueReader 0]
            _ 1).
  - cbn. unfold INT_MAX. lia.
  - reflexivity.
  - vm_compute. reflexivity.
  - vm_compute. reflexivity.
  - by left.
  - reflexivity.
Defined.

Lemma outer_plan_run_only_without_live_reader_witness :
  EvDestroyTupleQueueReader 0
  ∈ [EvCreateTupleQueueReader 1; EvTupleQueueReaderNext 0 None false;
     EvTupleQueueReaderNext 1 (Some [2]) false;
     EvDestroyTupleQueueReader 0; EvDestroyTupleQueueReader 1;
     EvParallelFinish; EvParallelReinitialize GatherNode; EvExecReScan;
     EvParallelReinitialize OuterPlan; EvLaunchParallelWorkers 0; EvParallelFinish].
Proof.
  eapply (outer_plan_run_only_without_live_reader (example_plan false false)
            (example_world [[[None; Some [1]]; [Some [2]]]] [[9]] false [])
            [CallExecGather; CallExecReScanGather; CallExecGather;
             CallExecShutdownGather]
            _ _ _
            [EvInitParallelPlan 2; EvLaunchParallelWorkers 2; EvCreateTupleQueueReader 0;
             EvCreateTupleQueueReader 1; EvTupleQueueReaderNext 0 None false;
             EvTupleQueueReaderNext 1 (Some [2]) false;
             EvDestroyTupleQueueReader 0; EvDestroyTupleQueueReader 1;
             EvParallelFinish; EvParallelReinitialize GatherNode; EvExecReScan;
             EvParallelReinitialize OuterPlan; EvLaunchParallelWorkers 0;
             EvParallelFinish]
            (Some [9]) _
            [EvInitParallelPlan 2; EvLaunchParallelWorkers 2] _ 0).
  - cbn. unfold INT_MAX. lia.
  - reflexivity.
  - vm_compute. reflexivity.
  - vm_compute. reflexivity.
  - reflexivity.
Defined.

Lemma latch_wait_only_with_live_reader_witness :
  exists r a b,
    [EvInitParallelPlan 2; EvLaunchParallelWorkers 1; EvCreateTupleQueueReader 0;
     EvTupleQueueReaderNext 0 None false]
    = a ++ EvCreateTupleQueueReader r :: b /\
    EvDestroyTupleQueueReader r ∉ b.
Proof.
  eapply (latch_wait_only_with_live_reader (example_plan false false)
            (example_world [[[None; Some [1]]]] [[9]] false [])
            [CallExecGather]).
  - cbn. unfold INT_MAX. lia.
  - reflexivity.
  - vm_compute. reflexivity.
  - vm_compute. reflexivity.
Defined.

Lemma parallel_context_protocol_witness :
  exists a b n,
    [EvInitParallelPlan 2; EvLaunchParallelWorkers 2; EvCreateTupleQueueReader 0;
     EvCreateTupleQueueReader 1; EvTupleQueueReaderNext 0 None false;
     EvTupleQueueReaderNext 1 (Some [2]) false;
     EvDestroyTupleQueueReader 0; EvDestroyTupleQueueReader 1;
     EvParallelFinish]
    = a ++ EvInitParallelPlan n :: b /\ EvParallelCleanup ∉ b.
Proof.
  apply (parallel_context_protocol (example_plan false false)
           (example_world [[[None; Some [1]]; [Some [2]]]] [[9]] false [])
           [CallExecGather; CallExecReScanGather; CallExecGather;
            CallExecShutdownGather]
           [Some [2]; Some [9]]
           ltac:(let r := eval vm_compute in
             (match ExecCalls [CallExecGather; CallExecReScanGather; CallExecGather;
                               CallExecShutdownGather]
                      (example_world [[[None; Some [1]]; [Some [2]]]] [[9]] false [])
                      (ExecInitGather (example_plan false false)) with
              | Ok (_, w', _) => w'
              | Fail _ => example_world [] [] false []
              end) in exact r)
           ltac:(let r := eval vm_compute in
             (match ExecCalls [CallExecGather; CallExecReScanGather; CallExecGather;
                               CallExecShutdownGather]
                      (example_world [[[None; Some [1]]; [Some [2]]]] [[9]] false [])
                      (ExecInitGather (example_plan false false)) with
              | Ok (_, _, s') => s'
              | Fail _ => ExecInitGather (example_plan false false)
              end) in exact r)
           _ (EvParallelReinitialize GatherNode)
           [EvExecReScan; EvParallelReinitialize OuterPlan; EvLaunchParallelWorkers 0;
            EvParallelFinish; EvExecProcNode (Some [9]); EvParallelFinish;
            EvParallelCleanup]).
  - cbn. unfold INT_MAX. lia.
  - reflexivity.
  - vm_compute. reflexivity.
  - vm_compute. reflexivity.
Defined.

Lemma no_reader_outlives_the_scan_witness :
  EvDestroyTupleQueueReader 0
  ∈ [EvCreateTupleQueueReader 1; EvTupleQueueReaderNext 0 None false;
     EvTupleQueueReaderNext 1 (Some [2]) false;
     EvDestroyTupleQueueReader 0; EvDestroyTupleQueueReader 1;
     EvParallelFinish; EvParallelReinitialize GatherNode; EvExecReScan].
Proof.
  eapply (no_reader_outlives_the_scan (example_plan false false)
            (example_world [[[None; Some [1]]; [Some [2]]]] [[9]] false [])
            [CallExecGather] CallExecReScanGather _ _ _
            [EvInitParallelPlan 2; EvLaunchParallelWorkers 2] _ 0).
  - cbn. unfold INT_MAX. lia.
  - reflexivity.
  - vm_compute. reflexivity.
  - discriminate.
  - vm_compute. reflexivity.
Defined.

(** ** The readers only leave *)

Lemma turn_survivors w s nv w' s' k :
  reader_inv s -> turn w s nv w' s' k ->
  survivors s' `sublist_of` survivors s /\ nreaders s' <= nreaders s.
Proof.
  intros Hinv T. turn_cases T; destruct (Hinv arr Ha) as (Hc & Hlen & _).
  - done.
  - split; [apply sublist_nil_l|cbn; lia].
  - rewrite (survivors_after_done arr s Ha Hc Hlen), nreaders_after_done.
    split; [apply sublist_delete|lia].
  - by rewrite survivors_advance, nreaders_advance.
  - by rewrite survivors_advance, nreaders_advance.
  - by rewrite survivors_advance, nreaders_advance.
Qed.

Lemma gather_readnext_survivors w s r w' s' :
  reader_inv s -> reader s <> None ->
  gather_readnext w s = Ok (r, w', s') ->
  survivors s' `sublist_of` survivors s /\ nreaders s' <= nreaders s.
Proof.
  intros Hinv Hr.
  apply (gather_readnext_loop_rule
    (fun wa sa nva => (reader_inv sa /\ reader sa <> None /\ 0 <= nva < INT_MAX) /\
       survivors sa `sublist_of` survivors s /\ nreaders sa <= nreaders s)
    (fun _ wb sb => survivors sb `sublist_of` survivors s /\ nreaders sb <= nreaders s)).
  - tauto.
  - intros wa sa nva wb sb nvb ((I & R & N) & S1 & S2) T.
    split; [eapply turn_continue_inv; eauto|].
    destruct (turn_survivors _ _ _ _ _ _ I T) as (S3 & S4).
    split; [by etrans|lia].
  - intros wa sa nva wb sb r0 ((I & R & N) & S1 & S2) T.
    destruct (turn_survivors _ _ _ _ _ _ I T) as (S3 & S4).
    split; [by etrans|lia].
  - split; [|done]. split; [done|]. split; [done|]. unfold INT_MAX. lia.
Qed.

Lemma call_survivors w s slot w' s' :
  call w s slot w' s' ->
  survivors s' `sublist_of` survivors s /\ nreaders s' <= nreaders s.
Proof.
  intros C. destruct C as [H|t rest H E|H E|t w1 s1 H E|w1 s1 H E]; try done.
  - destruct H as (_ & Hr & _ & Hri).
    destruct (gather_readnext_survivors _ (set_funnel_slot None s) _ _ _ Hri Hr E)
      as (S1 & S2).
    destruct (enable_statistic w); [|done].
    rewrite (survivors_fields (set_funnel_slot (Some t) s1) _
               (reader_count_tuple _ _ _) (nreaders_count_tuple _ _ _)),
      nreaders_count_tuple.
    done.
  - destruct H as (_ & Hr & _ & Hri).
    by destruct (gather_readnext_survivors _ (set_funnel_slot None s) _ _ _ Hri Hr E).
Qed.

(** X12: between two [ExecReScanGather] the readers only leave: after any
    number of calls on an initialized node the live part of the reader
    array is what is left of the former one, in the same order, and
    [nreaders] has not grown. *)
Theorem readers_only_leave n : forall w s slots w' s',
  gather_inv s -> initialized s = true ->
  ExecGather_n n w s = Ok (slots, w', s') ->
  survivors s' `sublist_of` survivors s /\ nreaders s' <= nreaders s.
Proof.
  induction n as [|n IH]; intros w s slots w' s' Hinv Hi E.
  - by injection E as _ _ <-.
  - apply ExecGather_n_S in E as (slot & w1 & s1 & rest & E1 & E2 & _).
    pose proof (ExecGather_call_inv _ _ _ _ _ Hinv Hi E1) as C.
    destruct (call_post _ _ _ _ _ Hinv C) as (Hinv1 & Hi1 & _).
    destruct (call_survivors _ _ _ _ _ C) as (S1 & S2).
    destruct (IH _ _ _ _ _ Hinv1 Hi1 E2) as (S3 & S4).
    split; [by etrans|lia].
Qed.

Lemma readers_only_leave_witness :
  exists slots w' s',
    ExecGather_n 1 (example_started_world [[]; [Some [7]; Some [8]]])
                   (example_started_state [[]; [Some [7]; Some [8]]])
    = Ok (slots, w', s') /\
    survivors s' `sublist_of` [0; 1]%nat /\ nreaders s' <= 2.
Proof.
  do 3 eexists.
  assert (E : ExecGather_n 1
                (example_started_world [[]; [Some [7]; Some [8]]])
                (example_started_state [[]; [Some [7]; Some [8]]])
              = Ok ([Some [7]],
                    ltac:(let r := eval vm_compute in
                      (match ExecGather_n 1
                         (example_started_world [[]; [Some [7]; Some [8]]])
                         (example_started_state [[]; [Some [7]; Some [8]]]) with
                       | Ok (_, w', _) => w'
                       | Fail _ => example_world [] [] false []
                       end) in exact r),
                    ltac:(let r := eval vm_compute in
                      (match ExecGather_n 1
                         (example_started_world [[]; [Some [7]; Some [8]]])
                         (example_started_state [[]; [Some [7]; Some [8]]]) with
                       | Ok (_, _, s') => s'
                       | Fail _ => ExecInitGather (example_plan false false)
                       end) in exact r)))
    by (vm_compute; reflexivity).
  split; [exact E|].
  apply (readers_only_leave 1 _ _ _ _ _) in E.
  - exact E.
  - apply gather_inv_launched_state; [apply gather_inv_example|].
    vm_compute. split; discriminate.
  - reflexivity.
Defined.

(** ** Scans without readers *)

(** A call on a node that has no reader: it runs the outer plan or
    nothing, and leaves the statistics and the parallel context alone. *)
Lemma call_no_reader w s slot w' s' :
  reader s = None -> call w s slot w' s' ->
  (exists evs, trace w' = trace w ++ evs /\ Forall local_event evs /\
     (need_to_scan_locally s = false ->
      Forall (fun e => exists n t, e = EvLogStatistic n t) evs)) /\
  reader s' = None /\ pei s' = pei s /\
  get_tuples s' = get_tuples s /\ get_total_time s' = get_total_time s.
Proof.
  intros Hr C. destruct C as [H|t rest H E|H E|t w1 s1 H E|w1 s1 H E];
    try (by destruct H as (_ & H & _)).
  - split; [|done].
    exists (if enable_statistic w
            then [EvLogStatistic (get_tuples s) (get_total_time s)] else []).
    unfold over_world.
    destruct (enable_statistic w); cbn; rewrite ?app_nil_r; split_and!; try done;
      repeat constructor; eauto.
  - split; [|done]. exists [EvExecProcNode (Some t)].
    split; [done|]. split; [by repeat constructor|].
    intros Hn. destruct H as (_ & _ & H). congruence.
  - split; [|done].
    exists (EvExecProcNode None ::
            if enable_statistic w
            then [EvLogStatistic (get_tuples s) (get_total_time s)] else []).
    split; [destruct (enable_statistic w); cbn; by rewrite <- ?app_assoc|].
    split; [destruct (enable_statistic w); by repeat constructor|].
    intros Hn. destruct H as (_ & _ & H). congruence.
Qed.

Lemma ExecGather_n_no_reader n : forall w s slots w' s',
  gather_inv s -> initialized s = true -> reader s = None ->
  ExecGather_n n w s = Ok (slots, w', s') ->
  (exists evs, trace w' = trace w ++ evs /\ Forall local_event evs /\
     (need_to_scan_locally s = false ->
      Forall (fun e => exists n t, e = EvLogStatistic n t) evs)) /\
  reader s' = None /\ pei s' = pei s /\
  get_tuples s' = get_tuples s /\ get_total_time s' = get_total_time s.
Proof.
  induction n as [|n IH]; intros w s slots w' s' Hinv Hi Hr E.
  - injection E as _ <- <-. split; [|done]. exists []. by rewrite app_nil_r.
  - apply ExecGather_n_S in E as (slot & w1 & s1 & rest & E1 & E2 & _).
    pose proof (ExecGather_call_inv _ _ _ _ _ Hinv Hi E1) as C.
    destruct (call_post _ _ _ _ _ Hinv C) as (Hinv1 & Hi1 & _).
    destruct (call_no_reader _ _ _ _ _ Hr C)
      as ((evs1 & Ht1 & Hl1 & Hg1) & Hr1 & Hp1 & Hc1 & Hd1).
    destruct (IH _ _ _ _ _ Hinv1 Hi1 Hr1 E2)
      as ((evs2 & Ht2 & Hl2 & Hg2) & Hr2 & Hp2 & Hc2 & Hd2).
    split; [|split_and!; congruence].
    exists (evs1 ++ evs2). split; [by rewrite Ht2, Ht1, app_assoc|].
    split; [by apply Forall_app|].
    intros Hn. apply Forall_app. split; [by apply Hg1|]. apply Hg2.
    by apply (call_need_false _ _ _ _ _ Hn C).
Qed.

(** X13: inside a parallel worker a Gather node launches nothing: whatever
    the plan asks for, the calls return the rows of the outer plan,
    projected and in order, then the empty slot; nothing is done but
    running the outer plan and logging, and no parallel context is made. *)
Theorem gather_in_parallel_worker_scans_locally w s m :
  gather_inv s -> initialized s = false -> IsParallelWorker w = true ->
  exists w' s' evs,
    ExecGather_n (length (outer_rest w) + S m) w s
    = Ok (map (fun t => Some (ps_ProjInfo s t)) (outer_rest w) ++ replicate (S m) None,
          w', s') /\
    trace w' = trace w ++ evs /\ Forall local_event evs /\ pei s' = pei s.
Proof.
  intros Hinv Hi Hpw.
  pose proof (gather_inv_reader_None s Hinv Hi) as Hnone.
  assert (Hl : ~ launch_attempted w s) by (intros (H & _); congruence).
  pose proof (ExecGather_initialize_no_launch w s Hinv Hi Hl) as E1.
  rewrite Hpw in E1. cbn [negb andb] in E1.
  set (s1 := set_initialized true (set_need_to_scan_locally true s)) in *.
  assert (Hinv1 : gather_inv s1).
  { destruct Hinv as (Hri & Hr & Hnw & Hpei). unfold gather_inv, reader_inv.
    cbn. rewrite Hnone. done. }
  assert (Hloc : scan_local s1) by (unfold scan_local; cbn; by rewrite Hnone).
  destruct (ExecGather_n_local (outer_rest w) w s1 m Hinv1 Hloc eq_refl)
    as (w' & s' & E).
  rewrite Nat.add_succ_r, (ExecGather_n_first _ _ _ _ _ _ E1 eq_refl), <- Nat.add_succ_r.
  destruct (ExecGather_n_no_reader _ _ _ _ _ _ Hinv1 eq_refl Hnone E)
    as ((evs & Ht & Hev & _) & _ & Hp & _).
  exists w', s', evs. done.
Qed.

Lemma gather_in_parallel_worker_scans_locally_witness :
  exists w' s' evs,
    ExecGather_n 3
      {| IsParallelWorker := true; IsInParallelMode := true;
         enable_statistic := false; launches := [[[Some [5]]]]; tqueue := [];
         outer_rows := [[1]; [2]]; outer_rest := [[1]; [2]];
         clock := []; trace := [] |}
      (ExecInitGather (example_plan true true))
    = Ok ([Some [1]; Some [2]] ++ [None], w', s') /\
    trace w' = [] ++ evs /\ Forall local_event evs /\ pei s' = None.
Proof.
  apply (gather_in_parallel_worker_scans_locally
           {| IsParallelWorker := true; IsInParallelMode := true;
              enable_statistic := false; launches := [[[Some [5]]]]; tqueue := [];
              outer_rows := [[1]; [2]]; outer_rest := [[1]; [2]];
              clock := []; trace := [] |}
           (ExecInitGather (example_plan true true)) 0).
  - apply gather_inv_example.
  - reflexivity.
  - reflexivity.
Defined.

Lemma Forall_context_event_launch w s :
  parallelWorker_sendTuple (ps_plan s) = true ->
  Forall context_event (launch_events w s).
Proof.
  intros Hps. unfold launch_events. rewrite Hps.
  destruct (pei s), (0 <? launched_by w s); repeat constructor.
Qed.

(** X14: when the workers are to send their tuples themselves
    ([parallelWorker_sendTuple]), the leader reads no queue and runs no
    plan: the first call sets up and launches what it can, waits for the
    workers ([WaitForParallelWorkerDone], told whether none started), and
    returns the empty slot; so does every later call, which at most logs
    the statistics. No reader is ever created. *)
Theorem parallel_send_leader_returns_nothing w s n :
  gather_inv s -> initialized s = false ->
  IsParallelWorker w = false -> parallelWorker_sendTuple (ps_plan s) = true ->
  exists w' s' pre k post,
    ExecGather_n (S n) w s = Ok (replicate (S n) None, w', s') /\
    trace w' = trace w ++ pre ++ EvWaitForParallelWorkerDone k (k =? 0) :: post /\
    Forall context_event pre /\
    Forall (fun e => exists a b, e = EvLogStatistic a b) post /\
    reader s' = None.
Proof.
  intros Hinv Hi Hpw Hps.
  destruct (ExecGather_initialize_total w s Hinv Hi)
    as (w1 & s1 & ps & lw & E1 & Hinv1 & Hi1 & _ & _ & _ & _ & Eps & Hn1 & Hr1).
  rewrite Hpw, Hps in Eps. cbn in Eps. subst ps. specialize (Hr1 eq_refl).
  rewrite Hr1 in Hn1. cbn in Hn1.
  assert (Hpre : exists pre, trace w1 = trace w ++ pre /\ Forall context_event pre).
  { destruct (launch_attempted_dec w s) as [Hl|Hl].
    - rewrite (ExecGather_initialize_launch w s Hinv Hi Hl) in E1.
      injection E1 as <- _ _. exists (launch_events w s).
      split; [apply trace_launched_world|by apply Forall_context_event_launch].
    - rewrite (ExecGather_initialize_no_launch w s Hinv Hi Hl) in E1.
      injection E1 as <- _ _. exists []. by rewrite app_nil_r. }
  destruct Hpre as (pre & Ht1 & Hpre).
  pose proof (ExecGather_first _ _ _ _ _ _ E1 Hi1) as E. cbn in E.
  assert (Hover : scan_over (set_funnel_slot None s1)) by done.
  destruct (ExecGather_n_over n (WaitForParallelWorkerDone lw (lw =? 0) w1)
              (set_funnel_slot None s1) Hover eq_refl) as (w' & E' & _).
  assert (Hinv2 : gather_inv (set_funnel_slot None s1))
    by (by apply (gather_inv_fields s1)).
  destruct (ExecGather_n_no_reader _ _ _ _ _ _ Hinv2 Hi1 Hr1 E')
    as ((post & Ht & _ & Hpost) & _).
  exists w', (set_funnel_slot None s1), pre, lw, post.
  split; [by rewrite (ExecGather_n_step _ _ _ _ _ _ E), E'|].
  split; [rewrite Ht; cbn; rewrite Ht1; by rewrite <- !app_assoc|].
  split; [done|]. split; [by apply Hpost|done].
Qed.

Lemma parallel_send_leader_returns_nothing_witness :
  exists w' s' pre k post,
    ExecGather_n 3 (example_world [[[Some [5]]; [Some [6]]]] [[1]; [2]] true [7; 8])
                   (ExecInitGather (example_plan false true))
    = Ok ([None; None; None], w', s') /\
    trace w' = [] ++ pre ++ EvWaitForParallelWorkerDone k (k =? 0) :: post /\
    Forall context_event pre /\
    Forall (fun e => exists a b, e = EvLogStatistic a b) post /\
    reader s' = None.
Proof.
  apply (parallel_send_leader_returns_nothing
           (example_world [[[Some [5]]; [Some [6]]]] [[1]; [2]] true [7; 8])
           (ExecInitGather (example_plan false true)) 2).
  - apply gather_inv_example.
  - reflexivity.
  - reflexivity.
  - reflexivity.
Defined.

(** X15: the statistics count no tuple of the leader: in a scan for which
    no worker starts, whatever the calls return, [get_tuples] and
    [get_total_time] stay as they were. *)
Theorem leader_tuples_are_not_counted w s n slots w' s' :
  gather_inv s -> initialized s = false ->
  (launch_attempted w s -> launched_by w s = 0) ->
  ExecGather_n n w s = Ok (slots, w', s') ->
  get_tuples s' = get_tuples s /\ get_total_time s' = get_total_time s.
Proof.
  intros Hinv Hi Hk E. destruct n as [|n]; [by injection E as _ _ <-|].
  pose proof (gather_inv_reader_None s Hinv Hi) as Hnone.
  destruct (ExecGather_initialize_total w s Hinv Hi)
    as (w1 & s1 & ps & lw & E1 & Hinv1 & Hi1 & _ & _ & _ & Hf & _ & _ & _).
  assert (Hr1 : reader s1 = None).
  { destruct (launch_attempted_dec w s) as [Hl|Hl].
    - rewrite (ExecGather_initialize_launch w s Hinv Hi Hl) in E1.
      injection E1 as _ <- _ _. unfold launched_state. rewrite (Hk Hl). cbn.
      done.
    - rewrite (ExecGather_initialize_no_launch w s Hinv Hi Hl) in E1.
      by injection E1 as _ <- _ _. }
  unfold state_fixed in Hf. injection Hf as _ _ _ Hc Hd.
  apply ExecGather_n_S in E as (slot & w2 & s2 & rest & E2 & E3 & _).
  rewrite (ExecGather_first _ _ _ _ _ _ E1 Hi1) in E2.
  destruct ps.
  - injection E2 as _ <- <-.
    assert (Hinv2 : gather_inv (set_funnel_slot None s1))
      by (by apply (gather_inv_fields s1)).
    destruct (ExecGather_n_no_reader _ _ _ _ _ _ Hinv2 Hi1 Hr1 E3)
      as (_ & _ & _ & Hc3 & Hd3).
    cbn in Hc3, Hd3. split; congruence.
  - assert (E : ExecGather_n (S n) w1 s1 = Ok (slot :: rest, w', s'))
      by (by rewrite (ExecGather_n_step _ _ _ _ _ _ E2), E3).
    destruct (ExecGather_n_no_reader _ _ _ _ _ _ Hinv1 Hi1 Hr1 E)
      as (_ & _ & _ & Hc3 & Hd3).
    split; congruence.
Qed.

Lemma leader_tuples_are_not_counted_witness :
  exists slots w' s',
    ExecGather_n 4 (example_world [[]] [[1]; [2]] true [10; 20; 30; 40])
                   (ExecInitGather (example_plan false false)) = Ok (slots, w', s') /\
    get_tuples s' = 0 /\ get_total_time s' = -1.
Proof.
  do 3 eexists.
  assert (E : ExecGather_n 4 (example_world [[]] [[1]; [2]] true [10; 20; 30; 40])
                (ExecInitGather (example_plan false false))
              = Ok ([Some [1]; Some [2]; None; None],
                    ltac:(let r := eval vm_compute in
                      (match ExecGather_n 4
                         (example_world [[]] [[1]; [2]] true [10; 20; 30; 40])
                         (ExecInitGather (example_plan false false)) with
                       | Ok (_, w', _) => w'
                       | Fail _ => example_world [] [] false []
                       end) in exact r),
                    ltac:(let r := eval vm_compute in
                      (match ExecGather_n 4
                         (example_world [[]] [[1]; [2]] true [10; 20; 30; 40])
                         (ExecInitGather (example_plan false false)) with
                       | Ok (_, _, s') => s'
                       | Fail _ => ExecInitGather (example_plan false false)
                       end) in exact r)))
    by (vm_compute; reflexivity).
  split; [exact E|].
  apply (leader_tuples_are_not_counted _ _ 4 _ _ _) in E.
  - exact E.
  - apply gather_inv_example.
  - reflexivity.
  - intros _. reflexivity.
Defined.

(** ** Rescan and shutdown in the middle of a scan *)

Lemma gather_inv_ExecGather_n n : forall w s slots w' s',
  gather_inv s -> ExecGather_n n w s = Ok (slots, w', s') -> gather_inv s'.
Proof.
  induction n as [|n IH]; intros w s slots w' s' Hinv E.
  - by injection E as _ _ <-.
  - apply ExecGather_n_S in E as (slot & w1 & s1 & rest & E1 & E2 & _).
    eapply IH; [|exact E2]. by eapply gather_inv_ExecGather.
Qed.

(** X16: [ExecReScanGather] in the middle of a scan throws away what the
    scan had left: however many calls were made before, the outer plan
    starts again from its first row, and the calls after return the
    tuples of the new scan, each once, and then the empty slot. *)
Theorem rescan_starts_a_whole_new_scan k w s slots0 w1 s1 w2 s2 :
  gather_inv s ->
  ExecGather_n k w s = Ok (slots0, w1, s1) ->
  ExecReScanGather w1 s1 = Ok (w2, s2) ->
  outer_rest w2 = outer_rows w2 /\
  exists slots w3 s3,
    ExecGather_n (S (length (scan_source w2 s2))) w2 s2 = Ok (slots ++ [None], w3, s3) /\
    slots ≡ₚ map (fun t => Some (ps_ProjInfo s2 t)) (scan_source w2 s2).
Proof.
  intros Hinv E1 E2.
  pose proof (gather_inv_ExecGather_n _ _ _ _ _ _ Hinv E1) as Hinv1.
  destruct (gather_inv_ExecReScanGather _ _ _ _ Hinv1 E2) as (Hinv2 & Hi2).
  split.
  - rewrite (ExecReScanGather_ok w1 s1 Hinv1) in E2. injection E2 as <- _.
    by destruct (pei s1).
  - destruct (ExecGather_n_ends w2 s2 Hinv2 Hi2) as (slots & w3 & s3 & E & Hs).
    exists slots, w3, s3. split; [done|].
    by apply (ExecGather_n_returns_scan_source _ _ _ _ _ _ Hinv2 Hi2 E Hs).
Qed.

Lemma rescan_starts_a_whole_new_scan_witness :
  exists w1 s1 w2 s2,
    ExecGather_n 1 (example_world [[[Some [1]; Some [2]]]; [[Some [3]]]] [[9]] false [])
                   (ExecInitGather (example_plan false false))
    = Ok ([Some [1]], w1, s1) /\
    ExecReScanGather w1 s1 = Ok (w2, s2) /\
    outer_rest w2 = [[9]] /\
    exists slots w3 s3,
      ExecGather_n 2 w2 s2 = Ok (slots ++ [None], w3, s3) /\ slots ≡ₚ [Some [3]].
Proof.
  do 4 eexists.
  split; [vm_compute; reflexivity|].
  split; [vm_compute; reflexivity|].
  eapply (rescan_starts_a_whole_new_scan 1
            (example_world [[[Some [1]; Some [2]]]; [[Some [3]]]] [[9]] false [])
            (ExecInitGather (example_plan false false))).
  - apply gather_inv_example.
  - vm_compute. reflexivity.
  - vm_compute. reflexivity.
Defined.

(** X17: [ExecShutdownGather] in the middle of a scan ends a scan that
    reads from workers, and not one the leader runs: after it a node that
    had readers returns the empty slot, whatever the workers had still to
    deliver, while a node that was scanning locally goes on and returns
    the rows the outer plan has left, then the empty slot. *)
Theorem shutdown_ends_a_worker_scan_only w s w1 s1 :
  gather_inv s -> initialized s = true ->
  ExecShutdownGather w s = Ok (w1, s1) ->
  (reader s <> None ->
   forall n, exists w2 s2, ExecGather_n n w1 s1 = Ok (replicate n None, w2, s2)) /\
  (scan_local s ->
   forall m, exists w2 s2,
     ExecGather_n (length (outer_rest w) + S m) w1 s1
     = Ok (map (fun t => Some (ps_ProjInfo s t)) (outer_rest w) ++ replicate (S m) None,
           w2, s2)).
Proof.
  intros Hinv Hi E.
  pose proof (gather_inv_ExecShutdownGather _ _ _ _ Hinv E) as Hinv1.
  rewrite (ExecShutdownGather_ok w s Hinv) in E. injection E as <- <-.
  split.
  - intros Hr n. destruct Hinv as (_ & Hn & _). destruct (Hn Hr) as (Hneed & _).
    set (s1 := set_pei None (set_reader None s)) in *.
    set (w1 := match pei s with Some _ => _ | None => _ end).
    destruct n as [|n]; [by exists w1, s1|].
    assert (Hover : scan_over s1) by done.
    assert (Hover' : scan_over (set_funnel_slot None s1)) by done.
    destruct (ExecGather_n_over n (over_world w1 s1) (set_funnel_slot None s1)
                Hover' eq_refl) as (w2 & E2 & _).
    exists w2, (set_funnel_slot None s1).
    by rewrite (ExecGather_n_step _ _ _ _ _ _ (ExecGather_over w1 s1 Hover)), E2.
  - intros (_ & Hr & Hn) m.
    set (s1 := set_pei None (set_reader None s)) in *.
    set (w1 := match pei s with Some _ => _ | None => _ end).
    assert (Hloc : scan_local s1) by done.
    assert (Ho : outer_rest w1 = outer_rest w).
    { pose proof (world_rest_shutdown_world w s) as Hw.
      destruct (world_rest_inv _ _ Hw) as (_ & _ & _ & _ & _ & Ho & _).
      subst w1. by destruct (pei s). }
    rewrite <- Ho.
    apply (ExecGather_n_local (outer_rest w1) w1 s1 m Hinv1 Hloc eq_refl).
Qed.

Lemma shutdown_ends_a_worker_scan_only_witness :
  exists w1 s1,
    ExecShutdownGather (example_started_world [[Some [1]]; [Some [3]]])
                       (example_started_state [[Some [1]]; [Some [3]]]) = Ok (w1, s1) /\
    forall n, exists w2 s2, ExecGather_n n w1 s1 = Ok (replicate n None, w2, s2).
Proof.
  do 2 eexists. split; [vm_compute; reflexivity|].
  eapply (shutdown_ends_a_worker_scan_only
            (example_started_world [[Some [1]]; [Some [3]]])
            (example_started_state [[Some [1]]; [Some [3]]])).
  - apply gather_inv_launched_state; [apply gather_inv_example|].
    vm_compute. split; discriminate.
  - reflexivity.
  - vm_compute. reflexivity.
  - vm_compute. discriminate.
Defined.

(** X18: with a parallel context at hand, [ExecReScanGather] and the
    [ExecGather] after it call [ExecParallelReinitialize] twice between
    them: the first on the Gather node, the second on the outer plan, just
    before the workers are launched again. *)
Theorem rescan_and_next_call_reinitialize_twice w s slots w' s' :
  gather_inv s -> pei s <> None -> launch_attempted w s ->
  ExecCalls [CallExecReScanGather; CallExecGather] w s = Ok (slots, w', s') ->
  exists evs, trace w' = trace w ++ evs /\
              reinitializations evs = [GatherNode; OuterPlan].
Proof.
  intros Hinv Hpei Hl E. cbn [ExecCalls ExecCall] in E.
  destruct (ExecReScanGather w s) as [[w1 s1]|] eqn:E1; [|discriminate].
  cbn in E. destruct (ExecGather w1 s1) as [[[slot w2] s2]|] eqn:E2; [|discriminate].
  cbn in E. injection E as _ <- <-.
  destruct (gather_inv_ExecReScanGather _ _ _ _ Hinv E1) as (Hinv1 & Hi1).
  assert (Hl1 : launch_attempted w1 s1).
  { pose proof E1 as E1'. rewrite (ExecReScanGather_ok w s Hinv) in E1'.
    injection E1' as <- <-.
    pose proof (world_rest_shutdown_world w s) as Hw.
    destruct (world_rest_inv _ _ Hw) as (Hpw & Hpm & _).
    destruct Hl as (H1 & H2 & H3). unfold launch_attempted.
    destruct (pei s); cbn; rewrite Hpw, Hpm; done. }
  destruct (ExecReScanGather_reinitializations _ _ _ _ Hinv E1) as (evs1 & Ht1 & _).
  destruct (ExecGather_total w1 s1 Hinv1) as (slot' & w2' & s2' & E2' & _).
  assert (Ht2 : exists evs2, trace w2 = trace w1 ++ evs2).
  { destruct (ExecGather_initialize_total w1 s1 Hinv1 Hi1)
      as (wa & sa & ps & lw & Ea & Hinva & Hia & _).
    destruct (ExecGather_initialize_trace _ _ _ _ _ _ Hinv1 Hi1 Ea) as (evsa & Hta & _).
    rewrite (ExecGather_first _ _ _ _ _ _ Ea Hia) in E2. destruct ps.
    - injection E2 as _ <- _. eexists. cbn. rewrite Hta, <- app_assoc. done.
    - pose proof (ExecGather_call_inv _ _ _ _ _ Hinva Hia E2) as C.
      destruct (call_events _ _ _ _ _ Hinva C) as (evsb & Htb & _).
      exists (evsa ++ evsb). by rewrite Htb, Hta, app_assoc. }
  destruct Ht2 as (evs2 & Ht2).
  exists (evs1 ++ evs2). split; [by rewrite Ht2, Ht1, app_assoc|].
  apply (ExecParallelReinitialize_twice_per_rescan w s w1 s1 slot w2 s2);
    try done. by rewrite Ht2, Ht1, app_assoc.
Qed.

Lemma rescan_and_next_call_reinitialize_twice_witness :
  exists slots w' s',
    ExecCalls [CallExecReScanGather; CallExecGather]
      (example_started_world [[Some [1]]; [Some [3]]])
      (example_started_state [[Some [1]]; [Some [3]]]) = Ok (slots, w', s') /\
    exists evs,
      trace w' = trace (example_started_world [[Some [1]]; [Some [3]]]) ++ evs /\
      reinitializations evs = [GatherNode; OuterPlan].
Proof.
  do 3 eexists. split; [vm_compute; reflexivity|].
  eapply (rescan_and_next_call_reinitialize_twice
            (example_started_world [[Some [1]]; [Some [3]]])
            (example_started_state [[Some [1]]; [Some [3]]])).
  - apply gather_inv_launched_state; [apply gather_inv_example|].
    vm_compute. split; discriminate.
  - vm_compute. discriminate.
  - by repeat split.
  - vm_compute. reflexivity.
Defined.

(** ** One launch for each scan *)

Lemma launch_log_app evs evs' :
  launch_log (evs ++ evs') = foldl launch_step (launch_log evs) evs'.
Proof. apply foldl_app. Qed.

Lemma launch_step_quiet evs : forall l,
  Forall quiet_event evs -> foldl launch_step l evs = l.
Proof.
  induction evs as [|e evs IH]; intros l H; [done|].
  apply Forall_cons in H as (He & H). cbn. rewrite <- (IH l H) at 2.
  f_equal. by destruct e.
Qed.

Lemma launch_inv_quiet w s w' s' evs :
  trace w' = trace w ++ evs -> Forall quiet_event evs ->
  (initialized s = true -> initialized s' = true) ->
  launch_inv w s -> launch_inv w' s'.
Proof.
  intros Ht Hq Hi (Ho & Hl). unfold launch_inv.
  rewrite Ht, launch_log_app, (launch_step_quiet evs _ Hq). auto.
Qed.

Lemma call_event_quiet evs : Forall call_event evs -> Forall quiet_event evs.
Proof. intros H. eapply Forall_impl; [exact H|]. by intros []. Qed.

Lemma Forall_quiet_destroy rs : Forall quiet_event (map EvDestroyTupleQueueReader rs).
Proof. induction rs; constructor; done. Qed.

Lemma Forall_quiet_create rs : Forall quiet_event (map EvCreateTupleQueueReader rs).
Proof. induction rs; constructor; done. Qed.

Lemma ExecGather_launch_inv w s slot w' s' :
  gather_inv s -> launch_inv w s ->
  ExecGather w s = Ok (slot, w', s') -> launch_inv w' s'.
Proof.
  intros Hinv Hlog E. destruct (initialized s) eqn:Hi.
  - pose proof (ExecGather_call_inv _ _ _ _ _ Hinv Hi E) as C.
    destruct (call_events _ _ _ _ _ Hinv C) as (evs & Ht & Hev).
    destruct (call_post _ _ _ _ _ Hinv C) as (_ & Hi' & _).
    apply (launch_inv_quiet w s _ _ evs); auto using call_event_quiet.
  - destruct Hlog as (Ho & Hl).
    assert (Hnl : launched (launch_log (trace w)) = false).
    { destruct (launched (launch_log (trace w))); [|done].
      specialize (Hl eq_refl). congruence. }
    destruct (ExecGather_initialize_total w s Hinv Hi)
      as (w1 & s1 & ps & lw & E1 & Hinv1 & Hi1 & _).
    assert (Hlog1 : launch_inv w1 s1).
    { split; [|done]. destruct (launch_attempted_dec w s) as [Hla|Hla].
      - rewrite (ExecGather_initialize_launch w s Hinv Hi Hla) in E1.
        injection E1 as <- _ _ _. rewrite trace_launched_world, launch_log_app.
        unfold launch_events. rewrite foldl_app.
        rewrite (launch_step_quiet (if 0 <? launched_by w s then _ else _)).
        + destruct (pei s); cbn; by rewrite Ho, Hnl.
        + destruct (0 <? launched_by w s);
            [destruct (parallelWorker_sendTuple (ps_plan s))|];
            [constructor|apply Forall_quiet_create|by repeat constructor].
      - rewrite (ExecGather_initialize_no_launch w s Hinv Hi Hla) in E1.
        by injection E1 as <- _ _ _. }
    rewrite (ExecGather_first _ _ _ _ _ _ E1 Hi1) in E. destruct ps.
    + injection E as _ <- <-.
      apply (launch_inv_quiet w1 s1 _ _ [EvWaitForParallelWorkerDone lw (lw =? 0)]);
        try done. by repeat constructor.
    + pose proof (ExecGather_call_inv _ _ _ _ _ Hinv1 Hi1 E) as C.
      destruct (call_events _ _ _ _ _ Hinv1 C) as (evs & Ht & Hev).
      destruct (call_post _ _ _ _ _ Hinv1 C) as (_ & Hi' & _).
      apply (launch_inv_quiet w1 s1 _ _ evs); auto using call_event_quiet.
Qed.

Lemma ExecCall_launch_inv c w s slots w' s' :
  gather_inv s -> launch_inv w s ->
  ExecCall c w s = Ok (slots, w', s') -> launch_inv w' s'.
Proof.
  intros Hinv Hlog E. destruct c; cbn [ExecCall] in E.
  - destruct (ExecGather w s) as [[[slot w1] s1]|] eqn:E1; [|discriminate].
    cbn in E. injection E as _ <- <-. by apply (ExecGather_launch_inv w s slot).
  - rewrite (ExecReScanGather_ok w s Hinv) in E. cbn in E. injection E as _ <- <-.
    destruct Hlog as (Ho & _). unfold launch_inv.
    assert (Hq : Forall quiet_event
                   (map EvDestroyTupleQueueReader (survivors s)
                    ++ (if is_null (pei s) then [] else [EvParallelFinish])
                    ++ (if is_null (pei s) then []
                        else [EvParallelReinitialize GatherNode]))).
    { apply Forall_app. split; [apply Forall_quiet_destroy|].
      destruct (pei s); by repeat constructor. }
    assert (Ht : trace (ExecReScan
                   match pei s with
                   | Some _ => log (EvParallelReinitialize GatherNode) (shutdown_world w s)
                   | None => shutdown_world w s
                   end)
                 = trace w ++ (map EvDestroyTupleQueueReader (survivors s)
                    ++ (if is_null (pei s) then [] else [EvParallelFinish])
                    ++ (if is_null (pei s) then []
                        else [EvParallelReinitialize GatherNode])) ++ [EvExecReScan]).
    { destruct (pei s) eqn:Ep; cbn; rewrite trace_shutdown_world, Ep; cbn;
        by rewrite <- ?app_assoc, ?app_nil_r. }
    rewrite Ht, launch_log_app, foldl_app, (launch_step_quiet _ _ Hq). cbn. done.
  - rewrite (ExecShutdownGather_ok w s Hinv) in E. cbn in E. injection E as _ <- <-.
    apply (launch_inv_quiet w s _ _
             (map EvDestroyTupleQueueReader (survivors s)
              ++ if is_null (pei s) then [] else [EvParallelFinish; EvParallelCleanup])).
    + destruct (pei s) eqn:Ep; cbn; rewrite trace_shutdown_world, Ep; cbn;
        by rewrite <- ?app_assoc, ?app_nil_r.
    + apply Forall_app. split; [apply Forall_quiet_destroy|].
      destruct (pei s); by repeat constructor.
    + done.
    + done.
Qed.

Lemma ExecCalls_launch_inv cs : forall w s slots w' s',
  gather_inv s -> launch_inv w s ->
  ExecCalls cs w s = Ok (slots, w', s') -> launch_inv w' s'.
Proof.
  induction cs as [|c cs IH]; intros w s slots w' s' Hinv Hlog E.
  - by injection E as _ <- <-.
  - cbn [ExecCalls] in E.
    destruct (ExecCall_inv c w s Hinv) as (sl1 & w1 & s1 & E1 & Hinv1 & _).
    rewrite E1 in E. cbn in E.
    destruct (ExecCalls cs w1 s1) as [[[sl2 w2] s2]|] eqn:E2; [|discriminate].
    cbn in E. injection E as _ <- <-.
    eapply IH; [exact Hinv1| |exact E2].
    exact (ExecCall_launch_inv c w s sl1 w1 s1 Hinv Hlog E1).
Qed.

Lemma once_foldl evs : forall l,
  once (foldl launch_step l evs) = true -> once l = true.
Proof.
  induction evs as [|e evs IH]; intros l H; [done|].
  apply IH in H. destruct e; cbn in H; try done.
  by apply andb_true_iff in H as (? & _).
Qed.

Lemma rescanned_foldl evs : forall l,
  launched l = true -> launched (foldl launch_step l evs) = false ->
  EvExecReScan ∈ evs.
Proof.
  induction evs as [|e evs IH]; intros l Hl Hn; [cbn in Hn; congruence|].
  cbn [foldl] in Hn.
  destruct e; try (apply elem_of_cons; right; eapply IH; [|exact Hn]; done).
  apply elem_of_cons. by left.
Qed.

(** X19: the workers are launched once for each scan: between two
    [LaunchParallelWorkers] the outer plan was rescanned, as
    [ExecReScanGather] does. *)
Theorem one_launch_for_each_scan node w cs slots w' s' pre k mid k' post :
  num_workers node <= INT_MAX -> trace w = [] ->
  ExecCalls cs w (ExecInitGather node) = Ok (slots, w', s') ->
  trace w' = pre ++ EvLaunchParallelWorkers k :: mid
                 ++ EvLaunchParallelWorkers k' :: post ->
  EvExecReScan ∈ mid.
Proof.
  intros Hn Ht E Hsplit.
  assert (Hlog0 : launch_inv w (ExecInitGather node)).
  { unfold launch_inv. rewrite Ht. done. }
  destruct (ExecCalls_launch_inv _ _ _ _ _ _
              (gather_inv_ExecInitGather node Hn) Hlog0 E) as (Ho & _).
  rewrite Hsplit in Ho.
  change (pre ++ EvLaunchParallelWorkers k :: mid ++ EvLaunchParallelWorkers k' :: post)
    with (pre ++ [EvLaunchParallelWorkers k] ++ mid
              ++ [EvLaunchParallelWorkers k'] ++ post) in Ho.
  rewrite !app_assoc in Ho. rewrite launch_log_app in Ho. apply once_foldl in Ho.
  rewrite launch_log_app in Ho. cbn in Ho.
  apply andb_true_iff in Ho as (_ & Ho). apply negb_true_iff in Ho.
  rewrite <- app_assoc, launch_log_app in Ho.
  apply (rescanned_foldl mid (foldl launch_step (launch_log pre)
                                    [EvLaunchParallelWorkers k])); done.
Qed.

Lemma one_launch_for_each_scan_witness :
  EvExecReScan
  ∈ [EvCreateTupleQueueReader 0; EvCreateTupleQueueReader 1;
     EvTupleQueueReaderNext 0 None false; EvTupleQueueReaderNext 1 (Some [2]) false;
     EvDestroyTupleQueueReader 0; EvDestroyTupleQueueReader 1;
     EvParallelFinish; EvParallelReinitialize GatherNode; EvExecReScan;
     EvParallelReinitialize OuterPlan].
Proof.
  eapply (one_launch_for_each_scan (example_plan false false)
            (example_world [[[None; Some [1]]; [Some [2]]]] [[9]] false [])
            [CallExecGather; CallExecReScanGather; CallExecGather;
             CallExecShutdownGather]
            _ _ _ [EvInitParallelPlan 2] 2 _ 0).
  - cbn. unfold INT_MAX. lia.
  - reflexivity.
  - vm_compute. reflexivity.
  - vm_compute. reflexivity.
Defined.

(** ** One worker: the tuples come in its order *)

Lemma TupleQueueReaderNext_single r w q tup done w1 :
  tqueue w = [q] -> TupleQueueReaderNext r w = (tup, done, w1) ->
  exists q', tqueue w1 = [q'] /\ tuples_of q = tuple_list tup ++ tuples_of q'.
Proof.
  intros Hq H.
  destruct (TupleQueueReaderNext_cases r w)
    as [(t & q0 & Hl & E)|[(q0 & Hl & E)|(_ & E)]];
    rewrite E in H; injection H as <- <- <-; cbn [tqueue log set_queues];
    rewrite Hq in *.
  - destruct r as [|r]; [|done]. injection Hl as ->. by exists q0.
  - destruct r as [|r]; [|done]. injection Hl as ->. by exists q0.
  - by exists q.
Qed.

Lemma turn_single w s nv w' s' k q :
  tqueue w = [q] -> turn w s nv w' s' k ->
  exists q', tqueue w' = [q'] /\
    tuples_of q
    = tuple_list (match k with Return r => r | Continue _ => None end) ++ tuples_of q'.
Proof.
  intros Hq T.
  turn_cases T;
    destruct (TupleQueueReaderNext_single _ _ _ _ _ _ Hq Hread) as (q' & Hq' & Ho);
    exists q'; rewrite ?tqueue_shutdown_world; done.
Qed.

Lemma gather_readnext_single w s r w' s' q :
  reader_inv s -> reader s <> None -> tqueue w = [q] ->
  gather_readnext w s = Ok (r, w', s') ->
  exists q', tqueue w' = [q'] /\ tuples_of q = tuple_list r ++ tuples_of q'.
Proof.
  intros Hinv Hr Hq.
  apply (gather_readnext_loop_rule
    (fun wa sa nva => (reader_inv sa /\ reader sa <> None /\ 0 <= nva < INT_MAX) /\
       exists qa, tqueue wa = [qa] /\ tuples_of q = tuples_of qa)
    (fun r0 wb sb => exists q', tqueue wb = [q'] /\
       tuples_of q = tuple_list r0 ++ tuples_of q')).
  - tauto.
  - intros wa sa nva wb sb nvb ((I & R & N) & qa & Hqa & Ho) T.
    split; [eapply turn_continue_inv; eauto|].
    destruct (turn_single _ _ _ _ _ _ _ Hqa T) as (qb & Hqb & Ho').
    exists qb. split; [done|]. by rewrite Ho, Ho'.
  - intros wa sa nva wb sb r0 ((I & R & N) & qa & Hqa & Ho) T.
    destruct (turn_single _ _ _ _ _ _ _ Hqa T) as (qb & Hqb & Ho').
    exists qb. split; [done|]. by rewrite Ho, Ho'.
  - split; [split; [done|split; [done|unfold INT_MAX; lia]]|]. by exists q.
Qed.

Lemma call_single w s slot w' s' q :
  scan_workers s -> drained w s -> tqueue w = [q] -> call w s slot w' s' ->
  exists r q', slot = ps_ProjInfo s <$> r /\ tqueue w' = [q'] /\
    tuples_of q = tuple_list r ++ tuples_of q' /\
    (r = None -> tuples_of q' = []).
Proof.
  intros Hw Hd Hq C.
  destruct (call_tuples _ _ _ _ _ Hw Hd C) as (r0 & Er0 & _ & Hend).
  pose proof Hw as (_ & Hr & _ & Hri).
  destruct (stat_world_frame w) as (_ & _ & Hq0 & _). rewrite Hq in Hq0.
  destruct C as [H|t rest H E|H E|t w1 s1 H E|w1 s1 H E];
    try (by destruct H as (_ & H & _)).
  - destruct (gather_readnext_single _ (set_funnel_slot None s) _ _ _ _ Hri Hr Hq0 E)
      as (q' & Hq' & Ho).
    exists (Some t), q'. split; [done|].
    split; [by destruct (enable_statistic w)|]. split; [done|]. intros [=].
  - destruct (gather_readnext_single _ (set_funnel_slot None s) _ _ _ _ Hri Hr Hq0 E)
      as (q' & Hq' & Ho).
    exists None, q'. split; [done|].
    assert (Hq2 : tqueue (if enable_statistic w
                          then log (EvLogStatistic (get_tuples s1) (get_total_time s1)) w1
                          else w1) = [q']) by (by destruct (enable_statistic w)).
    split; [done|]. split; [done|]. intros _.
    destruct r0; [discriminate|]. rewrite Hq2 in Hend. cbn in Hend.
    by rewrite app_nil_r in Hend.
Qed.

Lemma ExecGather_n_single n : forall w s slots w' s' q,
  gather_inv s -> scan_workers s -> drained w s -> tqueue w = [q] ->
  ExecGather_n (S n) w s = Ok (slots ++ [None], w', s') -> Forall is_Some slots ->
  slots = map (fun t => Some (ps_ProjInfo s t)) (tuples_of q).
Proof.
  induction n as [|n IH]; intros w s slots w' s' q Hinv Hw Hd Hq E Hs;
    apply ExecGather_n_S in E as (slot & w1 & s1 & rest & E1 & E2 & Hsl);
    pose proof (ExecGather_call_inv _ _ _ _ _ Hinv (proj1 Hw) E1) as C;
    destruct (call_single _ _ _ _ _ _ Hw Hd Hq C) as (r & q' & -> & Hq' & Ho & Hend);
    destruct (call_tuples _ _ _ _ _ Hw Hd C) as (r0 & Er0 & _ & Hr0);
    destruct (call_post _ _ _ _ _ Hinv C) as (Hinv1 & _ & _ & Hset & _);
    symmetry in Hsl; pose proof (run_first _ _ _ Hsl Hs) as Hf;
    destruct r as [t|]; cbn in Hf.
  - destruct Hf as (slots' & -> & -> & _). cbn in E2. by destruct slots'.
  - subst slots. rewrite Ho, (Hend eq_refl). done.
  - destruct Hf as (slots' & -> & -> & Hs').
    destruct r0 as [t0|]; [|discriminate]. destruct Hr0 as (Hw1 & Hd1).
    rewrite Ho. cbn. f_equal.
    rewrite (IH _ _ _ _ _ _ Hinv1 Hw1 Hd1 Hq' E2 Hs').
    injection Hset as _ _ -> _ _. done.
  - subst slots. rewrite Ho, (Hend eq_refl). done.
Qed.

(** X20: when exactly one worker starts, the calls return its tuples in
    the order it delivered them, projected, and then the empty slot. *)
Theorem one_worker_keeps_its_order w s q :
  gather_inv s -> initialized s = false ->
  launch_attempted w s -> parallelWorker_sendTuple (ps_plan s) = false ->
  launch_queues w s = [q] ->
  exists w' s',
    ExecGather_n (S (length (tuples_of q))) w s
    = Ok (map (fun t => Some (ps_ProjInfo s t)) (tuples_of q) ++ [None], w', s').
Proof.
  intros Hinv Hi Hl Hps Hq.
  assert (Hk : launched_by w s = 1) by (unfold launched_by; by rewrite Hq).
  assert (Hsrc : scan_source w s = tuples_of q).
  { unfold scan_source. destruct Hl as (-> & Hnw & ->). rewrite Hps, Hk, Hq.
    destruct (Z.ltb_spec 0 (num_workers (ps_plan s))); [|lia]. cbn.
    by rewrite app_nil_r. }
  destruct (ExecGather_n_ends w s Hinv Hi) as (slots & w' & s' & E & Hs).
  rewrite Hsrc in E. exists w', s'. rewrite E. do 3 f_equal.
  pose proof (ExecGather_initialize_launch w s Hinv Hi Hl) as E1.
  rewrite Hps in E1.
  destruct (launched_state_facts s (launched_by w s)) as (Hf & Hi1 & _).
  rewrite (ExecGather_n_first _ _ _ _ _ _ E1 Hi1) in E.
  destruct (launched_state_workers w s Hinv Hps ltac:(lia)) as (Hw1 & Hd1).
  assert (Hinv1 : gather_inv (launched_state s (launched_by w s))).
  { apply gather_inv_launched_state; [done|]. apply launched_by_range, Hinv. }
  rewrite (ExecGather_n_single _ _ _ _ _ _ q Hinv1 Hw1 Hd1
             ltac:(by rewrite tqueue_launched_world) E Hs).
  by rewrite (proj1 (state_setting_launched_state s (launched_by w s))).
Qed.

Lemma one_worker_keeps_its_order_witness :
  exists w' s',
    ExecGather_n 4 (example_world [[[Some [3]; None; Some [1]; None; Some [2]]]]
                                  [[9]] false [])
                   (ExecInitGather (example_plan true false))
    = Ok ([Some [3]; Some [1]; Some [2]] ++ [None], w', s').
Proof.
  apply (one_worker_keeps_its_order
           (example_world [[[Some [3]; None; Some [1]; None; Some [2]]]] [[9]] false [])
           (ExecInitGather (example_plan true false))
           [Some [3]; None; Some [1]; None; Some [2]]).
  - apply gather_inv_example.
  - reflexivity.
  - by repeat split.
  - reflexivity.
  - reflexivity.
Defined.

(** ** [single_copy] is not read *)

Lemma gather_readnext_body_plan g w s nv :
  gather_readnext_body w (set_ps_plan g s) nv =
    match gather_readnext_body w s nv with
    | Ok (w', s', k) => Ok (w', set_ps_plan g s', k)
    | Fail e => Fail e
    end.
Proof.
  unfold gather_readnext_body, ExecShutdownGatherWorkers, memmove.
  cbn [reader nreaders nextreader need_to_scan_locally pei set_ps_plan
       set_nreaders set_nextreader set_reader].
  repeat (case_match; simplify_eq/=; try done).
Qed.

Lemma gather_readnext_loop_plan g fuel w s nv :
  gather_readnext_loop fuel w (set_ps_plan g s) nv =
    with_state (set_ps_plan g) (gather_readnext_loop fuel w s nv).
Proof.
  revert w s nv. induction fuel as [|fuel IH]; intros w s nv; [done|].
  cbn [gather_readnext_loop]. rewrite gather_readnext_body_plan.
  destruct (gather_readnext_body w s nv) as [[[w1 s1] [nv1|tup]]|e]; cbn; [|done..].
  apply IH.
Qed.

Lemma gather_getnext_loop_plan g fuel w s :
  gather_getnext_loop fuel w (set_ps_plan g s) =
    with_state (set_ps_plan g) (gather_getnext_loop fuel w s).
Proof.
  revert w s. induction fuel as [|fuel IH]; intros w s.
  - cbn. by destruct (negb (is_null (reader s)) || need_to_scan_locally s).
  - cbn [gather_getnext_loop reader need_to_scan_locally set_ps_plan].
    destruct (negb (is_null (reader s)) || need_to_scan_locally s); [|done].
    destruct (negb (is_null (reader s))).
    + unfold gather_readnext. cbn [nreaders set_ps_plan].
      change (gather_readnext_fuel w (set_ps_plan g s)) with (gather_readnext_fuel w s).
      rewrite gather_readnext_loop_plan.
      destruct (gather_readnext_loop (gather_readnext_fuel w s) w s 0)
        as [[[[t|] w1] s1]|e]; cbn; [done| |done].
      destruct (need_to_scan_locally s1); [|apply IH].
      destruct (ExecProcNode w1) as [[t|] w2]; [done|].
      apply (IH w2 (set_need_to_scan_locally false s1)).
    + cbn. destruct (need_to_scan_locally s); [|apply IH].
      destruct (ExecProcNode w) as [[t|] w2]; [done|].
      apply (IH w2 (set_need_to_scan_locally false s)).
Qed.

Lemma ExecGather_initialize_single_copy b w s :
  ExecGather_initialize w (set_ps_plan (with_single_copy b (ps_plan s)) s) =
    match ExecGather_initialize w s with
    | Ok (w', s', parallel_send, launchedWorkers) =>
        Ok (w', set_ps_plan (with_single_copy b (ps_plan s)) s',
            parallel_send, launchedWorkers)
    | Fail e => Fail e
    end.
Proof.
  unfold ExecGather_initialize, ExecShutdownGatherWorkers, LaunchParallelWorkers,
    create_readers.
  cbn [reader nreaders nextreader need_to_scan_locally pei initialized ps_plan
       set_ps_plan set_nreaders set_nextreader set_reader with_single_copy
       num_workers parallelWorker_sendTuple].
  repeat (case_match; simplify_eq/=; try done).
Qed.

Lemma ExecGather_single_copy b w s :
  ExecGather w (set_ps_plan (with_single_copy b (ps_plan s)) s) =
    with_state (set_ps_plan (with_single_copy b (ps_plan s))) (ExecGather w s).
Proof.
  unfold ExecGather. rewrite ExecGather_initialize_single_copy.
  destruct (ExecGather_initialize w s) as [[[[w1 s1] ps] lw]|e]; [|done].
  destruct ps; [done|].
  cbn [need_to_scan_locally set_funnel_slot set_ps_plan].
  destruct (if enable_statistic w1 && negb (need_to_scan_locally s1)
            then GetCurrentTimestamp w1 else (0, w1)) as [b0 w2].
  set (g := with_single_copy b (ps_plan s)).
  change (set_funnel_slot None (set_ps_plan g s1))
    with (set_ps_plan g (set_funnel_slot None s1)).
  unfold gather_getnext. rewrite gather_getnext_loop_plan.
  destruct (gather_getnext_loop 2 w2 (set_funnel_slot None s1)) as [[[[t|] w3] s3]|e];
    cbn; [|done..].
  destruct (enable_statistic w3 && negb (need_to_scan_locally s3)); [|done].
  destruct (GetCurrentTimestamp w3) as [e3 w4].
  cbn. by destruct (get_total_time s3 =? -1).
Qed.

(** On a node not yet initialized [ExecGather] does not read
    [need_to_scan_locally] before it sets it. *)
Lemma ExecGather_need_to_scan_locally need w s :
  initialized s = false ->
  ExecGather w (set_need_to_scan_locally need s) = ExecGather w s.
Proof.
  intros Hi. unfold ExecGather.
  assert (E : ExecGather_initialize w (set_need_to_scan_locally need s)
              = ExecGather_initialize w s).
  { unfold ExecGather_initialize, ExecShutdownGatherWorkers, LaunchParallelWorkers,
      create_readers.
    cbn [reader nreaders nextreader need_to_scan_locally pei initialized ps_plan
         set_need_to_scan_locally set_nreaders set_nextreader set_reader].
    rewrite Hi. repeat (case_match; simplify_eq/=; try done). }
  by rewrite E.
Qed.

Lemma set_need_to_scan_locally_id s :
  set_need_to_scan_locally (need_to_scan_locally s) s = s.
Proof. by destruct s. Qed.

Lemma with_single_copy_id g : with_single_copy (single_copy g) g = g.
Proof. by destruct g. Qed.

Lemma set_ps_plan_id s : set_ps_plan (ps_plan s) s = s.
Proof. by destruct s. Qed.

Lemma ExecGather_ps_plan w s slot w' s' :
  ExecGather w s = Ok (slot, w', s') -> ps_plan s' = ps_plan s.
Proof.
  intros E. pose proof (ExecGather_single_copy (single_copy (ps_plan s)) w s) as H.
  rewrite with_single_copy_id, set_ps_plan_id, E in H. cbn in H.
  injection H as H. by rewrite H.
Qed.

Lemma ExecReScanGather_other g need w s :
  ExecReScanGather w (set_ps_plan g (set_need_to_scan_locally need s)) =
    with_state (fun s => set_ps_plan g (set_need_to_scan_locally need s))
               (ExecReScanGather w s).
Proof.
  unfold ExecReScanGather, ExecShutdownGatherWorkers.
  cbn [reader nreaders pei set_ps_plan set_need_to_scan_locally].
  repeat (case_match; simplify_eq/=; try done).
Qed.

Lemma ExecShutdownGather_other g need w s :
  ExecShutdownGather w (set_ps_plan g (set_need_to_scan_locally need s)) =
    with_state (fun s => set_ps_plan g (set_need_to_scan_locally need s))
               (ExecShutdownGather w s).
Proof.
  unfold ExecShutdownGather, ExecShutdownGatherWorkers.
  cbn [reader nreaders pei set_ps_plan set_need_to_scan_locally].
  repeat (case_match; simplify_eq/=; try done).
Qed.

Lemma ExecCall_single_copy c w s1 s2 slots w' s1' :
  same_but_single_copy s1 s2 -> ExecCall c w s1 = Ok (slots, w', s1') ->
  exists s2', ExecCall c w s2 = Ok (slots, w', s2') /\ same_but_single_copy s1' s2'.
Proof.
  intros (b & need & Hneed & ->) E. destruct c; cbn [ExecCall] in *.
  - destruct (ExecGather w s1) as [[[slot w1] s1a]|] eqn:E1; [|discriminate].
    cbn in E. injection E as <- <- <-.
    assert (E2 : ExecGather w (set_need_to_scan_locally need s1) = Ok (slot, w1, s1a)).
    { destruct (initialized s1) eqn:Hi.
      - by rewrite (Hneed eq_refl), set_need_to_scan_locally_id.
      - by rewrite ExecGather_need_to_scan_locally. }
    pose proof (ExecGather_single_copy b w (set_need_to_scan_locally need s1)) as H.
    rewrite E2 in H. cbn [ps_plan set_need_to_scan_locally with_state] in H.
    rewrite H. cbn. eexists. split; [done|].
    exists b, (need_to_scan_locally s1a). split; [done|].
    by rewrite set_need_to_scan_locally_id, (ExecGather_ps_plan _ _ _ _ _ E1).
  - rewrite ExecReScanGather_other.
    destruct (ExecReScanGather w s1) as [[w1 s1a]|] eqn:E1; [|discriminate].
    cbn in E. injection E as <- <- <-. cbn. eexists. split; [done|].
    exists b, need.
    unfold ExecReScanGather in E1.
    destruct (ExecShutdownGatherWorkers w s1) as [[w0 s0]|] eqn:E0; [|discriminate].
    cbn in E1. injection E1 as _ <-.
    unfold ExecShutdownGatherWorkers in E0.
    destruct (reader s1); [destruct (_ <=? _); [|discriminate]|];
      cbn in E0; injection E0 as _ <-; cbn; done.
  - rewrite ExecShutdownGather_other.
    destruct (ExecShutdownGather w s1) as [[w1 s1a]|] eqn:E1; [|discriminate].
    cbn in E. injection E as <- <- <-. cbn. eexists. split; [done|].
    exists b, need.
    unfold ExecShutdownGather in E1.
    destruct (ExecShutdownGatherWorkers w s1) as [[w0 s0]|] eqn:E0; [|discriminate].
    unfold ExecShutdownGatherWorkers in E0.
    destruct (reader s1); [destruct (_ <=? _); [|discriminate]|];
      cbn in E0; injection E0 as <- <-; cbn in E1;
      destruct (pei s1); injection E1 as _ <-; cbn; done.
Qed.

Lemma ExecCalls_single_copy cs : forall w s1 s2 slots w' s1',
  same_but_single_copy s1 s2 -> ExecCalls cs w s1 = Ok (slots, w', s1') ->
  exists s2', ExecCalls cs w s2 = Ok (slots, w', s2') /\ same_but_single_copy s1' s2'.
Proof.
  induction cs as [|c cs IH]; intros w s1 s2 slots w' s1' Hsame E.
  - injection E as <- <- <-. by exists s2.
  - cbn [ExecCalls] in *.
    destruct (ExecCall c w s1) as [[[sl1 w1] s1a]|] eqn:E1; [|discriminate].
    cbn in E. destruct (ExecCalls cs w1 s1a) as [[[sl2 w2] s1b]|] eqn:E2; [|discriminate].
    cbn in E. injection E as <- <- <-.
    destruct (ExecCall_single_copy _ _ _ _ _ _ _ Hsame E1) as (s2a & -> & Hsame1).
    destruct (IH _ _ _ _ _ _ Hsame1 E2) as (s2b & E2' & Hsame2).
    cbn. rewrite E2'. cbn. by exists s2b.
Qed.

(** X21: [single_copy] changes nothing: [ExecInitGather] uses it to set
    [need_to_scan_locally], which the first [ExecGather] sets anew before
    it is read, and nothing else reads it. So with either value of
    [single_copy] in the plan, any sequence of calls returns the same
    slots and leaves the same world. *)
Theorem single_copy_changes_nothing b node w cs slots w' s' :
  ExecCalls cs w (ExecInitGather node) = Ok (slots, w', s') ->
  exists s2,
    ExecCalls cs w (ExecInitGather (with_single_copy b node)) = Ok (slots, w', s2) /\
    same_but_single_copy s' s2.
Proof.
  apply ExecCalls_single_copy. exists b, (negb b). done.
Qed.

Lemma single_copy_changes_nothing_witness :
  exists slots w' s' s2,
    ExecCalls [CallExecGather; CallExecGather; CallExecReScanGather; CallExecGather]
      (example_world [[[Some [1]]]; []] [[9]] false [])
      (ExecInitGather (example_plan false false)) = Ok (slots, w', s') /\
    ExecCalls [CallExecGather; CallExecGather; CallExecReScanGather; CallExecGather]
      (example_world [[[Some [1]]]; []] [[9]] false [])
      (ExecInitGather (with_single_copy true (example_plan false false)))
    = Ok (slots, w', s2) /\
    same_but_single_copy s' s2.
Proof.
  do 3 eexists.
  assert (E : ExecCalls [CallExecGather; CallExecGather; CallExecReScanGather;
                         CallExecGather]
                (example_world [[[Some [1]]]; []] [[9]] false [])
                (ExecInitGather (example_plan false false))
              = Ok ([Some [1]; None; Some [9]],
                    ltac:(let r := eval vm_compute in
                      (match ExecCalls [CallExecGather; CallExecGather;
                                        CallExecReScanGather; CallExecGather]
                         (example_world [[[Some [1]]]; []] [[9]] false [])
                         (ExecInitGather (example_plan false false)) with
                       | Ok (_, w', _) => w'
                       | Fail _ => example_world [] [] false []
                       end) in exact r),
                    ltac:(let r := eval vm_compute in
                      (match ExecCalls [CallExecGather; CallExecGather;
                                        CallExecReScanGather; CallExecGather]
                         (example_world [[[Some [1]]]; []] [[9]] false [])
                         (ExecInitGather (example_plan false false)) with
                       | Ok (_, _, s') => s'
                       | Fail _ => ExecInitGather (example_plan false false)
                       end) in exact r)))
    by (vm_compute; reflexivity).
  destruct (single_copy_changes_nothing true _ _ _ _ _ _ E) as (s2 & E2 & Hs).
  exists s2. split; [exact E|]. split; [exact E2|exact Hs].
Defined.
